(** * Shadow-map registry of Qt Quick 3D (qssgrendershadowmap.cpp)

    A shallow embedding of [QSSGRenderShadowMap] and [QSSGShadowMapEntry]:
    the resolution buckets, the reconcile operation [addShadowMaps], the
    construction of the two kinds of entries and the tear-down of their
    GPU resources.

    Conventions of the embedding.
    - Fixed-width integers are [Z] with the wrap-around written out
      ([quint8], [quint32]), and so is the conversion of a [quint32] to
      [int] ([toInt]) where the code builds a [QSize] or compares with
      an [int].
    - [Q_ASSERT] is modelled as in a debug build: a failed assertion stops
      the computation with [AssertFailed]. An access outside a
      [std::array] stops it with [OutOfRange], a dereference of a null or
      dangling pointer with [NullPointer].
    - GPU objects live in a store [heap] indexed by handles; a C++ pointer
      is an [option handle] ([None] is [nullptr]). Handles are handed out
      by a counter, so the order of allocation is the order of handles.
    - [qWarning] appends to [messages]; the function-local
      [static bool warned] of [addCubeShadowMap] is the field [warned]. *)

From stdpp Require Import gmap list strings.
From Stdlib Require Import ZArith Lia.

Open Scope Z_scope.

Module ShadowMap.

(** ** Faults and the error monad of the pure helpers *)

Inductive fault : Set :=
| AssertFailed
| OutOfRange
| NullPointer.

Inductive result (A : Type) : Type :=
| Ok (a : A)
| Err (f : fault).
Arguments Ok {A} a.
Arguments Err {A} f.

Definition rbind {A B} (r : result A) (k : A -> result B) : result B :=
  match r with
  | Ok a => k a
  | Err f => Err f
  end.

Definition Q_ASSERT (b : bool) : result unit :=
  if b then Ok tt else Err AssertFailed.

(** ** Fixed-width integers *)

Definition quint8 (z : Z) : Z := z mod 256.
Definition quint32 (z : Z) : Z := z mod 4294967296.

(** [int(v)] of a [quint32] value [v]: the same 32 bits read as a signed
    number. *)
Definition toInt (v : Z) : Z :=
  if v <? 2147483648 then v else v - 4294967296.

(** [qCountTrailingZeroBits(quint32 v)]: the number of consecutive zero
    bits starting from the least significant one, 32 for [v = 0]. *)
Fixpoint ctz_from (fuel : nat) (v bit : Z) : Z :=
  match fuel with
  | O => bit
  | S fuel' => if Z.testbit v bit then bit else ctz_from fuel' v (bit + 1)
  end.

Definition qCountTrailingZeroBits (v : Z) : Z := ctz_from 32 v 0.

(** ** Resolution buckets *)

Definition mapSizeToIndex (mapSize : Z) : result Z :=
  rbind (Q_ASSERT (Z.land mapSize (quint32 (mapSize - 1)) =? 0)) (fun _ =>
  rbind (Q_ASSERT (256 <=? mapSize)) (fun _ =>
  let index := quint8 (qCountTrailingZeroBits mapSize - 8) in
  rbind (Q_ASSERT (index <=? 4)) (fun _ =>
  Ok index))).

Definition indexToMapSize (index : Z) : result Z :=
  rbind (Q_ASSERT (index <=? 4)) (fun _ =>
  Ok (Z.shiftl 1 (index + 8))).


(** ** Lights *)

(** Modelled from the spec: the declaration of [QSSGRenderLight::Type] is
    in a header outside the sources at hand; the spec lists the light
    types directional, point and spot. *)
Inductive LightType : Set :=
| DirectionalLight
| PointLight
| SpotLight.

#[global] Instance LightType_eq_dec : EqDecision LightType.
Proof. solve_decision. Defined.

Record QSSGRenderLight : Set := {
  type : LightType;
  m_shadowMapRes : Z;
  debugObjectName : string
}.

Record QSSGShaderLight : Set := {
  light : QSSGRenderLight;
  shadows : bool
}.

Inductive ShadowMapModes : Set :=
| VSM
| CUBE.

#[global] Instance ShadowMapModes_eq_dec : EqDecision ShadowMapModes.
Proof. solve_decision. Defined.

(** [shaderLight.light->m_shadowMapRes]: the field is a [quint32]. *)
Definition shadowMapRes (l : QSSGShaderLight) : Z :=
  quint32 (m_shadowMapRes (light l)).

(** [(light->type != DirectionalLight) ? CUBE : VSM], the expression that
    occurs three times in [addShadowMaps]. *)
Definition mapModeOf (l : QSSGShaderLight) : ShadowMapModes :=
  if bool_decide (type (light l) <> DirectionalLight) then CUBE else VSM.

Definition isVSM (m : ShadowMapModes) : bool :=
  match m with VSM => true | CUBE => false end.

Definition isCUBE (m : ShadowMapModes) : bool :=
  match m with VSM => false | CUBE => true end.

(** ** GPU objects *)

Abbreviation handle := nat (only parsing).
Abbreviation QSize := (Z * Z)%type (only parsing).

(** [QSize(w, h)] of two [quint32] values: the constructor takes two
    [int]. *)
Definition QSize_of (w h : Z) : QSize := (toInt w, toInt h).

Inductive Format : Set := R16F | R16.

Inductive TextureFlag : Set := RenderTarget | CubeMap | TextureArray.

Definition TextureFlag_eqb (a b : TextureFlag) : bool :=
  match a, b with
  | RenderTarget, RenderTarget | CubeMap, CubeMap | TextureArray, TextureArray => true
  | _, _ => false
  end.

(** [flags & f] *)
Definition hasFlag (flags : list TextureFlag) (f : TextureFlag) : bool :=
  existsb (TextureFlag_eqb f) flags.

(** A colour attachment: the texture and the layer it selects. *)
Record QRhiTextureRenderTargetDescription : Set := {
  colorAttachments : list (option handle * Z);
  depthStencilBuffer : option handle
}.

Inductive RhiObject : Set :=
| RhiTexture (format : Format) (pixelSize : QSize) (arraySize : Z)
             (flags : list TextureFlag)
| RhiRenderBuffer (pixelSize : QSize)
| RhiTextureRenderTarget (desc : QRhiTextureRenderTargetDescription)
                         (renderPassDesc : option handle) (name : string)
| RhiRenderPassDescriptor.

Definition setArraySize (n : Z) (o : RhiObject) : RhiObject :=
  match o with
  | RhiTexture f s _ fl => RhiTexture f s n fl
  | _ => o
  end.

Definition setDescription (d : QRhiTextureRenderTargetDescription)
    (o : RhiObject) : RhiObject :=
  match o with
  | RhiTextureRenderTarget _ rp n => RhiTextureRenderTarget d rp n
  | _ => o
  end.

Definition setRenderPassDescriptor (rp : option handle) (o : RhiObject) : RhiObject :=
  match o with
  | RhiTextureRenderTarget d _ n => RhiTextureRenderTarget d rp n
  | _ => o
  end.

Definition setName (n : string) (o : RhiObject) : RhiObject :=
  match o with
  | RhiTextureRenderTarget d rp _ => RhiTextureRenderTarget d rp n
  | _ => o
  end.

(** The graphics device: what it supports, and whether [create()] of the
    object with a given handle succeeds. *)
Record QRhi : Type := {
  isTextureFormatSupported : Format -> bool;
  MaxColorAttachments : Z;
  createSucceeds : handle -> bool
}.

Inductive Message : Set :=
| FailedShadowTexture (size : QSize)
| FailedDepthStencil (size : QSize)
| FailedRenderTarget
| CubeNotBlurred.

#[global] Instance Message_eq_dec : EqDecision Message.
Proof. solve_decision. Defined.

(** The six faces, in the order of [QSSGRenderTextureCubeFaces]. *)
Inductive QSSGRenderTextureCubeFace : Set :=
| PosX | NegX | PosY | NegY | PosZ | NegZ.

Definition QSSGRenderTextureCubeFaces : list QSSGRenderTextureCubeFace :=
  [PosX; NegX; PosY; NegY; PosZ; NegZ].

(** [quint8(face)] *)
Definition faceIndex (face : QSSGRenderTextureCubeFace) : nat :=
  match face with
  | PosX => 0 | NegX => 1 | PosY => 2 | NegY => 3 | PosZ => 4 | NegZ => 5
  end%nat.

(** Modelled from the spec: [QSSGBaseTypeHelpers::displayName] is outside
    the sources at hand; each target's name embeds the face identifier. *)
Definition displayName (face : QSSGRenderTextureCubeFace) : string :=
  match face with
  | PosX => "PosX" | NegX => "NegX" | PosY => "PosY"
  | NegY => "NegY" | PosZ => "PosZ" | NegZ => "NegZ"
  end.

(** ** Entries *)

(** Modelled from the spec: the declaration of [QSSGShadowMapEntry] is in
    a header outside the sources at hand; the fields are the ones the
    member functions use, pointers default to null and the six render
    targets are a fixed array indexed by face. *)
Record QSSGShadowMapEntry : Set := {
  m_lightIndex : Z;
  m_shadowMapMode : ShadowMapModes;
  m_rhiDepthTextureArray : option handle;
  m_rhiDepthCopy : option handle;
  m_rhiDepthCube : option handle;
  m_rhiCubeCopy : option handle;
  m_rhiDepthStencil : option handle;
  m_rhiRenderTargets : list (option handle);
  m_rhiRenderPassDesc : option handle;
  m_rhiBlurRenderTarget0 : option handle;
  m_rhiBlurRenderTarget1 : option handle;
  m_rhiBlurRenderPassDesc : option handle;
  m_depthArrayIndex : Z
}.

(** [QSSGShadowMapEntry::QSSGShadowMapEntry()] *)
Definition QSSGShadowMapEntry_default : QSSGShadowMapEntry := {|
  m_lightIndex := 4294967295;
  m_shadowMapMode := VSM;
  m_rhiDepthTextureArray := None;
  m_rhiDepthCopy := None;
  m_rhiDepthCube := None;
  m_rhiCubeCopy := None;
  m_rhiDepthStencil := None;
  m_rhiRenderTargets := replicate 6 None;
  m_rhiRenderPassDesc := None;
  m_rhiBlurRenderTarget0 := None;
  m_rhiBlurRenderTarget1 := None;
  m_rhiBlurRenderPassDesc := None;
  m_depthArrayIndex := 0
|}.

Definition withRhiDepthMap (lightIdx : Z) (mode : ShadowMapModes)
    (textureArray depthCopy depthStencil : option handle) : QSSGShadowMapEntry :=
  let e := QSSGShadowMapEntry_default in {|
  m_lightIndex := lightIdx;
  m_shadowMapMode := mode;
  m_rhiDepthTextureArray := textureArray;
  m_rhiDepthCopy := depthCopy;
  m_rhiDepthCube := m_rhiDepthCube e;
  m_rhiCubeCopy := m_rhiCubeCopy e;
  m_rhiDepthStencil := depthStencil;
  m_rhiRenderTargets := m_rhiRenderTargets e;
  m_rhiRenderPassDesc := m_rhiRenderPassDesc e;
  m_rhiBlurRenderTarget0 := m_rhiBlurRenderTarget0 e;
  m_rhiBlurRenderTarget1 := m_rhiBlurRenderTarget1 e;
  m_rhiBlurRenderPassDesc := m_rhiBlurRenderPassDesc e;
  m_depthArrayIndex := m_depthArrayIndex e
|}.

Definition withRhiDepthCubeMap (lightIdx : Z) (mode : ShadowMapModes)
    (depthCube cubeCopy depthStencil : option handle) : QSSGShadowMapEntry :=
  let e := QSSGShadowMapEntry_default in {|
  m_lightIndex := lightIdx;
  m_shadowMapMode := mode;
  m_rhiDepthTextureArray := m_rhiDepthTextureArray e;
  m_rhiDepthCopy := m_rhiDepthCopy e;
  m_rhiDepthCube := depthCube;
  m_rhiCubeCopy := cubeCopy;
  m_rhiDepthStencil := depthStencil;
  m_rhiRenderTargets := m_rhiRenderTargets e;
  m_rhiRenderPassDesc := m_rhiRenderPassDesc e;
  m_rhiBlurRenderTarget0 := m_rhiBlurRenderTarget0 e;
  m_rhiBlurRenderTarget1 := m_rhiBlurRenderTarget1 e;
  m_rhiBlurRenderPassDesc := m_rhiBlurRenderPassDesc e;
  m_depthArrayIndex := m_depthArrayIndex e
|}.

(** Field updates through [pEntry->...]. *)
Definition set_renderTargets (f : list (option handle) -> list (option handle))
    (e : QSSGShadowMapEntry) : QSSGShadowMapEntry := {|
  m_lightIndex := m_lightIndex e;
  m_shadowMapMode := m_shadowMapMode e;
  m_rhiDepthTextureArray := m_rhiDepthTextureArray e;
  m_rhiDepthCopy := m_rhiDepthCopy e;
  m_rhiDepthCube := m_rhiDepthCube e;
  m_rhiCubeCopy := m_rhiCubeCopy e;
  m_rhiDepthStencil := m_rhiDepthStencil e;
  m_rhiRenderTargets := f (m_rhiRenderTargets e);
  m_rhiRenderPassDesc := m_rhiRenderPassDesc e;
  m_rhiBlurRenderTarget0 := m_rhiBlurRenderTarget0 e;
  m_rhiBlurRenderTarget1 := m_rhiBlurRenderTarget1 e;
  m_rhiBlurRenderPassDesc := m_rhiBlurRenderPassDesc e;
  m_depthArrayIndex := m_depthArrayIndex e
|}.

(** [m_rhiRenderTargets[i]] read and written; the callers stay within
    the six slots. *)
Definition renderTarget (e : QSSGShadowMapEntry) (i : nat) : option handle :=
  default None (m_rhiRenderTargets e !! i).

Definition set_renderTarget (i : nat) (p : option handle)
    (e : QSSGShadowMapEntry) : QSSGShadowMapEntry :=
  set_renderTargets (<[i := p]>) e.

Definition set_renderPassDesc (p : option handle)
    (e : QSSGShadowMapEntry) : QSSGShadowMapEntry := {|
  m_lightIndex := m_lightIndex e;
  m_shadowMapMode := m_shadowMapMode e;
  m_rhiDepthTextureArray := m_rhiDepthTextureArray e;
  m_rhiDepthCopy := m_rhiDepthCopy e;
  m_rhiDepthCube := m_rhiDepthCube e;
  m_rhiCubeCopy := m_rhiCubeCopy e;
  m_rhiDepthStencil := m_rhiDepthStencil e;
  m_rhiRenderTargets := m_rhiRenderTargets e;
  m_rhiRenderPassDesc := p;
  m_rhiBlurRenderTarget0 := m_rhiBlurRenderTarget0 e;
  m_rhiBlurRenderTarget1 := m_rhiBlurRenderTarget1 e;
  m_rhiBlurRenderPassDesc := m_rhiBlurRenderPassDesc e;
  m_depthArrayIndex := m_depthArrayIndex e
|}.

Definition set_blurRenderTarget0 (p : option handle)
    (e : QSSGShadowMapEntry) : QSSGShadowMapEntry := {|
  m_lightIndex := m_lightIndex e;
  m_shadowMapMode := m_shadowMapMode e;
  m_rhiDepthTextureArray := m_rhiDepthTextureArray e;
  m_rhiDepthCopy := m_rhiDepthCopy e;
  m_rhiDepthCube := m_rhiDepthCube e;
  m_rhiCubeCopy := m_rhiCubeCopy e;
  m_rhiDepthStencil := m_rhiDepthStencil e;
  m_rhiRenderTargets := m_rhiRenderTargets e;
  m_rhiRenderPassDesc := m_rhiRenderPassDesc e;
  m_rhiBlurRenderTarget0 := p;
  m_rhiBlurRenderTarget1 := m_rhiBlurRenderTarget1 e;
  m_rhiBlurRenderPassDesc := m_rhiBlurRenderPassDesc e;
  m_depthArrayIndex := m_depthArrayIndex e
|}.

Definition set_blurRenderTarget1 (p : option handle)
    (e : QSSGShadowMapEntry) : QSSGShadowMapEntry := {|
  m_lightIndex := m_lightIndex e;
  m_shadowMapMode := m_shadowMapMode e;
  m_rhiDepthTextureArray := m_rhiDepthTextureArray e;
  m_rhiDepthCopy := m_rhiDepthCopy e;
  m_rhiDepthCube := m_rhiDepthCube e;
  m_rhiCubeCopy := m_rhiCubeCopy e;
  m_rhiDepthStencil := m_rhiDepthStencil e;
  m_rhiRenderTargets := m_rhiRenderTargets e;
  m_rhiRenderPassDesc := m_rhiRenderPassDesc e;
  m_rhiBlurRenderTarget0 := m_rhiBlurRenderTarget0 e;
  m_rhiBlurRenderTarget1 := p;
  m_rhiBlurRenderPassDesc := m_rhiBlurRenderPassDesc e;
  m_depthArrayIndex := m_depthArrayIndex e
|}.

Definition set_blurRenderPassDesc (p : option handle)
    (e : QSSGShadowMapEntry) : QSSGShadowMapEntry := {|
  m_lightIndex := m_lightIndex e;
  m_shadowMapMode := m_shadowMapMode e;
  m_rhiDepthTextureArray := m_rhiDepthTextureArray e;
  m_rhiDepthCopy := m_rhiDepthCopy e;
  m_rhiDepthCube := m_rhiDepthCube e;
  m_rhiCubeCopy := m_rhiCubeCopy e;
  m_rhiDepthStencil := m_rhiDepthStencil e;
  m_rhiRenderTargets := m_rhiRenderTargets e;
  m_rhiRenderPassDesc := m_rhiRenderPassDesc e;
  m_rhiBlurRenderTarget0 := m_rhiBlurRenderTarget0 e;
  m_rhiBlurRenderTarget1 := m_rhiBlurRenderTarget1 e;
  m_rhiBlurRenderPassDesc := p;
  m_depthArrayIndex := m_depthArrayIndex e
|}.

(** [pEntry->m_lightIndex = lightIdx; pEntry->m_depthArrayIndex = layerIndex;] *)
Definition set_indices (lightIdx layerIndex : Z)
    (e : QSSGShadowMapEntry) : QSSGShadowMapEntry := {|
  m_lightIndex := lightIdx;
  m_shadowMapMode := m_shadowMapMode e;
  m_rhiDepthTextureArray := m_rhiDepthTextureArray e;
  m_rhiDepthCopy := m_rhiDepthCopy e;
  m_rhiDepthCube := m_rhiDepthCube e;
  m_rhiCubeCopy := m_rhiCubeCopy e;
  m_rhiDepthStencil := m_rhiDepthStencil e;
  m_rhiRenderTargets := m_rhiRenderTargets e;
  m_rhiRenderPassDesc := m_rhiRenderPassDesc e;
  m_rhiBlurRenderTarget0 := m_rhiBlurRenderTarget0 e;
  m_rhiBlurRenderTarget1 := m_rhiBlurRenderTarget1 e;
  m_rhiBlurRenderPassDesc := m_rhiBlurRenderPassDesc e;
  m_depthArrayIndex := layerIndex
|}.


(** ** The registry and the process state around it *)

(** The members of [QSSGRenderShadowMap] ([m_shadowMapList],
    [m_depthTextureArrays]) together with the store of GPU objects, the
    allocation counter, the warnings printed so far and the
    function-local static [warned] of [addCubeShadowMap]. *)
Record State : Type := {
  m_shadowMapList : list QSSGShadowMapEntry;
  m_depthTextureArrays : gmap (Z * Z) nat;
  heap : gmap nat RhiObject;
  nextHandle : handle;
  messages : list Message;
  warned : bool
}.

Definition set_shadowMapList
    (f : list QSSGShadowMapEntry -> list QSSGShadowMapEntry) (st : State) : State := {|
  m_shadowMapList := f (m_shadowMapList st);
  m_depthTextureArrays := m_depthTextureArrays st;
  heap := heap st;
  nextHandle := nextHandle st;
  messages := messages st;
  warned := warned st
|}.

Definition set_depthTextureArrays
    (f : gmap (Z * Z) nat -> gmap (Z * Z) nat) (st : State) : State := {|
  m_shadowMapList := m_shadowMapList st;
  m_depthTextureArrays := f (m_depthTextureArrays st);
  heap := heap st;
  nextHandle := nextHandle st;
  messages := messages st;
  warned := warned st
|}.

Definition set_heap (f : gmap nat RhiObject -> gmap nat RhiObject) (st : State) : State := {|
  m_shadowMapList := m_shadowMapList st;
  m_depthTextureArrays := m_depthTextureArrays st;
  heap := f (heap st);
  nextHandle := nextHandle st;
  messages := messages st;
  warned := warned st
|}.

Definition set_nextHandle (n : handle) (st : State) : State := {|
  m_shadowMapList := m_shadowMapList st;
  m_depthTextureArrays := m_depthTextureArrays st;
  heap := heap st;
  nextHandle := n;
  messages := messages st;
  warned := warned st
|}.

Definition set_messages (f : list Message -> list Message) (st : State) : State := {|
  m_shadowMapList := m_shadowMapList st;
  m_depthTextureArrays := m_depthTextureArrays st;
  heap := heap st;
  nextHandle := nextHandle st;
  messages := f (messages st);
  warned := warned st
|}.

Definition set_warned (b : bool) (st : State) : State := {|
  m_shadowMapList := m_shadowMapList st;
  m_depthTextureArrays := m_depthTextureArrays st;
  heap := heap st;
  nextHandle := nextHandle st;
  messages := messages st;
  warned := b
|}.

(** A registry right after construction, in a process that has not
    allocated or printed anything yet. *)
Definition initial : State := {|
  m_shadowMapList := [];
  m_depthTextureArrays := ∅;
  heap := ∅;
  nextHandle := 0%nat;
  messages := [];
  warned := false
|}.

(** ** The state and error monad of the member functions *)

Definition M (A : Type) : Type := State -> result (A * State).

Definition ret {A} (a : A) : M A := fun st => Ok (a, st).

Definition bind {A B} (m : M A) (k : A -> M B) : M B :=
  fun st =>
    match m st with
    | Ok (a, st') => k a st'
    | Err f => Err f
    end.

Notation "'let*' x ':=' m 'in' k" := (bind m (fun x => k))
  (at level 10, x name, m at level 100, k at level 200).
Notation "m ';;' k" := (bind m (fun _ => k))
  (at level 100, k at level 200, right associativity).

Definition gets {A} (f : State -> A) : M A := fun st => Ok (f st, st).

Definition modify (f : State -> State) : M unit := fun st => Ok (tt, f st).

(** Reading the state with a helper that can fail. *)
Definition reads {A} (f : State -> result A) : M A :=
  fun st =>
    match f st with
    | Ok a => Ok (a, st)
    | Err e => Err e
    end.

Definition assert (b : bool) : M unit := reads (fun _ => Q_ASSERT b).

Definition isNull {A} (p : option A) : bool :=
  match p with
  | None => true
  | Some _ => false
  end.

(** A loop over a container, with the position of the element. *)
Fixpoint for_each {A} (body : nat -> A -> M unit) (i : nat) (l : list A) : M unit :=
  match l with
  | [] => ret tt
  | x :: rest => body i x;; for_each body (S i) rest
  end.

(** [rhi->newTexture(...)] and the other [new...] calls of the device:
    a fresh object, never null. *)
Definition store (h : handle) (o : RhiObject) (hp : gmap nat RhiObject)
    : gmap nat RhiObject :=
  <[h := o]> hp.

Definition newObject (o : RhiObject) : M handle :=
  fun st =>
    Ok (nextHandle st,
        set_nextHandle (S (nextHandle st)) (set_heap (store (nextHandle st) o) st)).

(** A setter called on an object. *)
Definition updObject (h : handle) (f : RhiObject -> RhiObject) : M unit :=
  modify (set_heap (alter f h)).

(** [if (cond) qWarning(msg);] *)
Definition qWarning_if (cond : bool) (msg : Message) : M unit :=
  modify (set_messages (fun ms => ms ++ (if cond then [msg] else []))).

Definition allocateRhiShadowTexture (rhi : QRhi) (format : Format) (size : QSize)
    (numLayers : Z) (flags : list TextureFlag) : M handle :=
  let* texture := newObject (RhiTexture format size 0 flags) in
  (if hasFlag flags TextureArray
   then updObject texture (setArraySize numLayers)
   else ret tt);;
  qWarning_if (negb (createSucceeds rhi texture)) (FailedShadowTexture size);;
  ret texture.

Definition allocateRhiShadowRenderBuffer (rhi : QRhi) (size : QSize) : M handle :=
  let* renderBuffer := newObject (RhiRenderBuffer size) in
  qWarning_if (negb (createSucceeds rhi renderBuffer)) (FailedDepthStencil size);;
  ret renderBuffer.

Definition getShadowMapTextureFormat (rhi : QRhi) : Format :=
  if negb (isTextureFormatSupported rhi R16F) then R16 else R16F.

(** ** Tear-down *)

(** [delete p;] *)
Definition deletePtr (p : option handle) (hp : gmap nat RhiObject) : gmap nat RhiObject :=
  match p with
  | Some h => delete h hp
  | None => hp
  end.

Definition qDeleteAll (ps : list (option handle)) (hp : gmap nat RhiObject)
    : gmap nat RhiObject :=
  foldl (fun acc p => deletePtr p acc) hp ps.

(** [QSSGShadowMapEntry::destroyRhiResources]: the entry after the call
    and the store after the call. *)
Definition destroyRhiResources (e : QSSGShadowMapEntry) (hp : gmap nat RhiObject)
    : QSSGShadowMapEntry * gmap nat RhiObject :=
  let hp := deletePtr (m_rhiDepthCopy e) hp in
  let hp := deletePtr (m_rhiDepthCube e) hp in
  let hp := deletePtr (m_rhiCubeCopy e) hp in
  let hp := deletePtr (m_rhiDepthStencil e) hp in
  let hp := qDeleteAll (m_rhiRenderTargets e) hp in
  let hp := deletePtr (m_rhiRenderPassDesc e) hp in
  let hp := deletePtr (m_rhiBlurRenderTarget0 e) hp in
  let hp := deletePtr (m_rhiBlurRenderTarget1 e) hp in
  let hp := deletePtr (m_rhiBlurRenderPassDesc e) hp in
  ({| m_lightIndex := m_lightIndex e;
      m_shadowMapMode := m_shadowMapMode e;
      m_rhiDepthTextureArray := None;
      m_rhiDepthCopy := None;
      m_rhiDepthCube := None;
      m_rhiCubeCopy := None;
      m_rhiDepthStencil := None;
      m_rhiRenderTargets := replicate (length (m_rhiRenderTargets e)) None;
      m_rhiRenderPassDesc := None;
      m_rhiBlurRenderTarget0 := None;
      m_rhiBlurRenderTarget1 := None;
      m_rhiBlurRenderPassDesc := None;
      m_depthArrayIndex := m_depthArrayIndex e |},
   hp).

(** [QSSGRenderShadowMap::releaseCachedResources] *)
Definition releaseCachedResources (st : State) : State :=
  let hp := foldl (fun hp entry => snd (destroyRhiResources entry hp))
                  (heap st) (m_shadowMapList st) in
  let hp := map_fold (fun _ textureArray hp => delete textureArray hp)
                     hp (m_depthTextureArrays st) in
  {| m_shadowMapList := [];
     m_depthTextureArrays := ∅;
     heap := hp;
     nextHandle := nextHandle st;
     messages := messages st;
     warned := warned st |}.

(** [QSSGRenderShadowMap::~QSSGRenderShadowMap] *)
Definition QSSGRenderShadowMap_destructor (st : State) : State :=
  releaseCachedResources st.

(** ** Lookup and compatibility *)

(** Modelled from the spec: [shadowMapEntryCount] is defined in a header
    outside the sources at hand; it is the current number of entries. *)
Definition shadowMapEntryCount (st : State) : Z :=
  Z.of_nat (length (m_shadowMapList st)).

(** [QSSGRenderShadowMap::shadowMapEntry]. Light indices are positions in
    a light list, below 2^31, where the conversions between [int],
    [qint32] and [quint32] change nothing; they are not written out. *)
Definition shadowMapEntry (lightIdx : Z) (st : State) : result (option QSSGShadowMapEntry) :=
  rbind (Q_ASSERT (0 <=? lightIdx)) (fun _ =>
  Ok (find (fun pEntry => m_lightIndex pEntry =? lightIdx) (m_shadowMapList st))).

(** [p->pixelSize()] and [p->arraySize()] *)
Definition texturePixelSize (hp : gmap nat RhiObject) (p : option handle) : result QSize :=
  match p with
  | None => Err NullPointer
  | Some h =>
      match hp !! h with
      | Some (RhiTexture _ s _ _) => Ok s
      | _ => Err NullPointer
      end
  end.

Definition textureArraySize (hp : gmap nat RhiObject) (p : option handle) : result Z :=
  match p with
  | None => Err NullPointer
  | Some h =>
      match hp !! h with
      | Some (RhiTexture _ _ n _) => Ok n
      | _ => Err NullPointer
      end
  end.

(** [QSSGShadowMapEntry::isCompatible] *)
Definition isCompatible (e : QSSGShadowMapEntry) (mapSize : QSize) (layerIndex : Z)
    (mapMode : ShadowMapModes) (hp : gmap nat RhiObject) : result bool :=
  if bool_decide (mapMode <> m_shadowMapMode e) then Ok false
  else
    match mapMode with
    | CUBE =>
        rbind (texturePixelSize hp (m_rhiCubeCopy e)) (fun ps =>
        if bool_decide (mapSize <> ps) then Ok false else Ok true)
    | VSM =>
        rbind (texturePixelSize hp (m_rhiDepthTextureArray e)) (fun ps =>
        if bool_decide (mapSize <> ps) then Ok false
        else
          rbind (textureArraySize hp (m_rhiDepthTextureArray e)) (fun n =>
          if n <=? toInt layerIndex then Ok false else Ok true))
    end.


(** ** Construction of entries *)

Definition push_back (e : QSSGShadowMapEntry) : M unit :=
  modify (set_shadowMapList (fun l => l ++ [e])).

Fixpoint alter_back {A} (f : A -> A) (l : list A) : list A :=
  match l with
  | [] => []
  | [x] => [f x]
  | x :: rest => x :: alter_back f rest
  end.

(** [pEntry = &m_shadowMapList.back()]: reads and writes through
    [pEntry] go to the last element of the list. *)
Definition pEntry_get : M QSSGShadowMapEntry :=
  reads (fun st =>
    match last (m_shadowMapList st) with
    | Some e => Ok e
    | None => Err NullPointer
    end).

Definition pEntry_set (f : QSSGShadowMapEntry -> QSSGShadowMapEntry) : M unit :=
  modify (set_shadowMapList (alter_back f)).

(** [QSSGRenderShadowMap::addDirectionalShadowMap]. The device pointer is
    the argument [rhi], so [Q_ASSERT(rhi)] holds; the results of the two
    [create()] calls on the blur targets are dropped by the source. *)
Definition addDirectionalShadowMap (rhi : QRhi) (lightIdx : Z) (size : QSize)
    (layerIndex : Z) (renderNodeObjName : string) : M unit :=
  let* pEntry := reads (shadowMapEntry lightIdx) in
  assert (isNull pEntry);;
  let rhiFormat := getShadowMapTextureFormat rhi in
  let* texture := gets (fun st => m_depthTextureArrays st !! size) in
  assert (negb (isNull texture));;
  let* depthCopy := allocateRhiShadowTexture rhi rhiFormat size 0 [RenderTarget] in
  let* depthStencil := allocateRhiShadowRenderBuffer rhi size in
  push_back (withRhiDepthMap lightIdx VSM texture (Some depthCopy) (Some depthStencil));;
  let* e := pEntry_get in
  assert (isNull (renderTarget e 0));;
  let rtDesc := {| colorAttachments := [(m_rhiDepthTextureArray e, layerIndex)];
                   depthStencilBuffer := m_rhiDepthStencil e |} in
  let* rt := newObject (RhiTextureRenderTarget rtDesc None "") in
  pEntry_set (set_renderTarget 0 (Some rt));;
  updObject rt (setDescription rtDesc);;
  let* e := pEntry_get in
  (if isNull (m_rhiRenderPassDesc e)
   then let* rp := newObject RhiRenderPassDescriptor in
        pEntry_set (set_renderPassDesc (Some rp))
   else ret tt);;
  let* e := pEntry_get in
  updObject rt (setRenderPassDescriptor (m_rhiRenderPassDesc e));;
  qWarning_if (negb (createSucceeds rhi rt)) FailedRenderTarget;;
  let rtName := renderNodeObjName in
  updObject rt (setName (rtName +:+ " shadow map"));;
  let* blur0 := newObject (RhiTextureRenderTarget
                  {| colorAttachments := [(m_rhiDepthCopy e, 0)];
                     depthStencilBuffer := None |} None "") in
  pEntry_set (set_blurRenderTarget0 (Some blur0));;
  let* blurRp := newObject RhiRenderPassDescriptor in
  pEntry_set (set_blurRenderPassDesc (Some blurRp));;
  updObject blur0 (setRenderPassDescriptor (Some blurRp));;
  updObject blur0 (setName (rtName +:+ " shadow blur X"));;
  let* e := pEntry_get in
  let* blur1 := newObject (RhiTextureRenderTarget
                  {| colorAttachments := [(m_rhiDepthTextureArray e, layerIndex)];
                     depthStencilBuffer := None |} None "") in
  pEntry_set (set_blurRenderTarget1 (Some blur1));;
  updObject blur1 (setRenderPassDescriptor (m_rhiBlurRenderPassDesc e));;
  updObject blur1 (setName (rtName +:+ " shadow blur Y"));;
  pEntry_set (set_indices lightIdx layerIndex).

(** The body of the loop over the six faces in [addCubeShadowMap]. *)
Definition cubeFaceTarget (rhi : QRhi) (rtName : string)
    (i : nat) (face : QSSGRenderTextureCubeFace) : M unit :=
  let* e := pEntry_get in
  assert (isNull (renderTarget e (faceIndex face)));;
  let rtDesc := {| colorAttachments := [(m_rhiDepthCube e, Z.of_nat (faceIndex face))];
                   depthStencilBuffer := m_rhiDepthStencil e |} in
  let* rt := newObject (RhiTextureRenderTarget rtDesc None "") in
  pEntry_set (set_renderTarget (faceIndex face) (Some rt));;
  updObject rt (setDescription rtDesc);;
  let* e := pEntry_get in
  (if isNull (m_rhiRenderPassDesc e)
   then let* rp := newObject RhiRenderPassDescriptor in
        pEntry_set (set_renderPassDesc (Some rp))
   else ret tt);;
  let* e := pEntry_get in
  updObject rt (setRenderPassDescriptor (m_rhiRenderPassDesc e));;
  qWarning_if (negb (createSucceeds rhi rt)) FailedRenderTarget;;
  updObject rt (setName (rtName +:+ " shadow cube face: " +:+ displayName face)).

(** The six attachments [att[quint8(face)]] of a cube blur target. *)
Definition cubeAttachments (texture : option handle) : list (option handle * Z) :=
  map (fun face => (texture, Z.of_nat (faceIndex face))) QSSGRenderTextureCubeFaces.

(** [QSSGRenderShadowMap::addCubeShadowMap] *)
Definition addCubeShadowMap (rhi : QRhi) (lightIdx : Z) (size : QSize)
    (renderNodeObjName : string) : M unit :=
  let* pEntry := reads (shadowMapEntry lightIdx) in
  assert (isNull pEntry);;
  let rhiFormat := getShadowMapTextureFormat rhi in
  let* depthMap := allocateRhiShadowTexture rhi rhiFormat size 0 [RenderTarget; CubeMap] in
  let* depthCopy := allocateRhiShadowTexture rhi rhiFormat size 0 [RenderTarget; CubeMap] in
  let* depthStencil := allocateRhiShadowRenderBuffer rhi size in
  push_back (withRhiDepthCubeMap lightIdx CUBE (Some depthMap) (Some depthCopy)
                                 (Some depthStencil));;
  let rtName := renderNodeObjName in
  for_each (cubeFaceTarget rhi rtName) 0 QSSGRenderTextureCubeFaces;;
  if 6 <=? MaxColorAttachments rhi then
    let* e := pEntry_get in
    let* blur0 := newObject (RhiTextureRenderTarget
                    {| colorAttachments := cubeAttachments (m_rhiCubeCopy e);
                       depthStencilBuffer := None |} None "") in
    pEntry_set (set_blurRenderTarget0 (Some blur0));;
    let* e := pEntry_get in
    (if isNull (m_rhiBlurRenderPassDesc e)
     then let* rp := newObject RhiRenderPassDescriptor in
          pEntry_set (set_blurRenderPassDesc (Some rp))
     else ret tt);;
    let* e := pEntry_get in
    updObject blur0 (setRenderPassDescriptor (m_rhiBlurRenderPassDesc e));;
    updObject blur0 (setName (rtName +:+ " shadow cube blur X"));;
    let* blur1 := newObject (RhiTextureRenderTarget
                    {| colorAttachments := cubeAttachments (m_rhiDepthCube e);
                       depthStencilBuffer := None |} None "") in
    pEntry_set (set_blurRenderTarget1 (Some blur1));;
    updObject blur1 (setRenderPassDescriptor (m_rhiBlurRenderPassDesc e));;
    updObject blur1 (setName (rtName +:+ " shadow cube blur Y"))
  else
    let* w := gets warned in
    if negb w then
      modify (set_warned true);;
      qWarning_if true CubeNotBlurred
    else ret tt.

(** ** Reconciliation *)

(** The local variables of the first loop of [addShadowMaps]. *)
Record Buckets : Set := {
  numShadows : Z;
  textureSizeLayerCount : list Z;
  lightIndexToLayerIndex : list Z
}.

(** Body of the first loop: counts the shadow casters and hands every
    VSM light the next layer of its resolution's bucket.
    [textureSizeLayerCount] is a [std::array<quint8, 4>]; an index
    outside of it is [OutOfRange]. *)
Definition countLight (lightIndex : nat) (shaderLight : QSSGShaderLight)
    (b : Buckets) : result Buckets :=
  let mapMode := mapModeOf shaderLight in
  let numShadows' := if shadows shaderLight then numShadows b + 1 else numShadows b in
  if negb (shadows shaderLight) || isCUBE mapMode then
    Ok {| numShadows := numShadows';
          textureSizeLayerCount := textureSizeLayerCount b;
          lightIndexToLayerIndex := lightIndexToLayerIndex b |}
  else
    let mapSize := shadowMapRes shaderLight in
    rbind (mapSizeToIndex mapSize) (fun index =>
    match textureSizeLayerCount b !! Z.to_nat index with
    | None => Err OutOfRange
    | Some layerIndex =>
        Ok {| numShadows := numShadows';
              textureSizeLayerCount :=
                <[Z.to_nat index := quint8 (layerIndex + 1)]> (textureSizeLayerCount b);
              lightIndexToLayerIndex :=
                <[lightIndex := layerIndex]> (lightIndexToLayerIndex b) |}
    end).

Fixpoint countLights (lightIndex : nat) (lights : list QSSGShaderLight)
    (b : Buckets) : result Buckets :=
  match lights with
  | [] => Ok b
  | shaderLight :: rest =>
      rbind (countLight lightIndex shaderLight b) (countLights (S lightIndex) rest)
  end.

(** Lines 83 to 102 of the source: the declarations and the first loop. *)
Definition bucketLights (renderableLights : list QSSGShaderLight) : result Buckets :=
  countLights 0 renderableLights
    {| numShadows := 0;
       textureSizeLayerCount := replicate 4 0;
       lightIndexToLayerIndex := replicate (length renderableLights) 0 |}.

(** [lightIndexToLayerIndex[lightIndex]] and [.value(lightIdx)]: the
    array has one element per light, so the index is in range. *)
Definition layerIndexOf (lightIndexToLayerIndex : list Z) (lightIndex : nat) : Z :=
  default 0 (lightIndexToLayerIndex !! lightIndex).

(** The second loop: [true] as soon as a shadow-casting light has no
    entry or an incompatible one ([needsRebuild = true; break;]). *)
Fixpoint propertiesChanged (lightIndexToLayerIndex : list Z) (lightIndex : nat)
    (lights : list QSSGShaderLight) (st : State) : result bool :=
  match lights with
  | [] => Ok false
  | shaderLight :: rest =>
      if negb (shadows shaderLight) then
        propertiesChanged lightIndexToLayerIndex (S lightIndex) rest st
      else
        rbind (shadowMapEntry (Z.of_nat lightIndex) st) (fun pEntry =>
        match pEntry with
        | None => Ok true
        | Some e =>
            let mapMode := mapModeOf shaderLight in
            let mapSize := shadowMapRes shaderLight in
            let layerIndex :=
              if isVSM mapMode then layerIndexOf lightIndexToLayerIndex lightIndex
              else 0 in
            rbind (isCompatible e (QSize_of mapSize mapSize) layerIndex mapMode (heap st))
              (fun compatible =>
            if negb compatible then Ok true
            else propertiesChanged lightIndexToLayerIndex (S lightIndex) rest st)
        end)
  end.

(** Lines 104 to 129: the decision. *)
Definition needsRebuild (renderableLights : list QSSGShaderLight) (b : Buckets)
    (st : State) : result bool :=
  if negb (numShadows b =? shadowMapEntryCount st) then Ok true
  else propertiesChanged (lightIndexToLayerIndex b) 0 renderableLights st.

(** Body of the third loop: one texture array per used bucket. *)
Definition createTextureArray (rhi : QRhi) (i : nat) (numLayers : Z) : M unit :=
  if numLayers =? 0 then ret tt
  else
    let* mapSize := reads (fun _ => indexToMapSize (Z.of_nat i)) in
    let texSize := QSize_of mapSize mapSize in
    let rhiFormat := getShadowMapTextureFormat rhi in
    let* texture := allocateRhiShadowTexture rhi rhiFormat texSize numLayers
                      [RenderTarget; TextureArray] in
    modify (set_depthTextureArrays (<[texSize := texture]>)).

(** Body of the fourth loop: one entry per shadow-casting light. *)
Definition setupRenderTarget (rhi : QRhi) (lightIndexToLayerIndex : list Z)
    (lightIdx : nat) (shaderLight : QSSGShaderLight) : M unit :=
  if negb (shadows shaderLight) then ret tt
  else
    let mapSize := QSize_of (shadowMapRes shaderLight) (shadowMapRes shaderLight) in
    match mapModeOf shaderLight with
    | VSM =>
        let layerIndex := layerIndexOf lightIndexToLayerIndex lightIdx in
        addDirectionalShadowMap rhi (Z.of_nat lightIdx) mapSize layerIndex
                                (debugObjectName (light shaderLight))
    | CUBE =>
        addCubeShadowMap rhi (Z.of_nat lightIdx) mapSize
                         (debugObjectName (light shaderLight))
    end.

(** Lines 134 to 172: what [addShadowMaps] does once it has decided to
    rebuild. *)
Definition rebuild (rhi : QRhi) (renderableLights : list QSSGShaderLight)
    (b : Buckets) : M unit :=
  modify releaseCachedResources;;
  for_each (createTextureArray rhi) 0 (textureSizeLayerCount b);;
  for_each (setupRenderTarget rhi (lightIndexToLayerIndex b)) 0 renderableLights.

(** [QSSGRenderShadowMap::addShadowMaps]; [rhi] is
    [m_context.rhiContext()->rhi()], [None] when there is no device. *)
Definition addShadowMaps (rhi : option QRhi) (renderableLights : list QSSGShaderLight)
    : M unit :=
  match rhi with
  | None => ret tt
  | Some rhi =>
      let* b := reads (fun _ => bucketLights renderableLights) in
      let* rebuildNeeded := reads (needsRebuild renderableLights b) in
      if negb rebuildNeeded then ret tt
      else rebuild rhi renderableLights b
  end.


(** ** Vocabulary of the statements *)

Definition countb {A} (f : A -> bool) (l : list A) : nat :=
  length (List.filter f l).

(** A light that takes a layer of a shared texture array: it casts
    shadows and is routed to the VSM path. *)
Definition castsVSM (l : QSSGShaderLight) : bool :=
  shadows l && isVSM (mapModeOf l).

(** A light that gets a cube map. *)
Definition castsCUBE (l : QSSGShaderLight) : bool :=
  shadows l && isCUBE (mapModeOf l).

(** The light takes a layer in bucket [k]. *)
Definition inBucket (k : nat) (l : QSSGShaderLight) : bool :=
  castsVSM l &&
  match mapSizeToIndex (shadowMapRes l) with
  | Ok index => Nat.eqb (Z.to_nat index) k
  | Err _ => false
  end.

(** The light takes a layer of the array of resolution [res]. *)
Definition sameRes (res : Z) (l : QSSGShaderLight) : bool :=
  castsVSM l && (shadowMapRes l =? res).

(** The 0-based rank of the light at position [i] among the lights
    before it that share its texture array. *)
Definition rankInBucket (lights : list QSSGShaderLight) (i : nat) (res : Z) : Z :=
  Z.of_nat (countb (sameRes res) (take i lights)).

(** The size of the texture array of bucket [k]. *)
Definition bucketSize (k : nat) : QSize :=
  (2 ^ (Z.of_nat k + 8), 2 ^ (Z.of_nat k + 8)).

(** The resolutions whose bucket fits the four counters of
    [textureSizeLayerCount]. *)
Definition supportedRes (l : QSSGShaderLight) : bool :=
  bool_decide (shadowMapRes l ∈ [256; 512; 1024; 2048]).

Definition supported (lights : list QSSGShaderLight) : bool :=
  forallb (fun l => negb (castsVSM l) || supportedRes l) lights.

(** The three lights of the spec's example: a directional and a spot
    light at 1024 and a directional light at 512, all casting shadows. *)
Definition example_lights : list QSSGShaderLight :=
  [ {| light := {| type := DirectionalLight; m_shadowMapRes := 1024;
                   debugObjectName := "D1" |}; shadows := true |};
    {| light := {| type := SpotLight; m_shadowMapRes := 1024;
                   debugObjectName := "S" |}; shadows := true |};
    {| light := {| type := DirectionalLight; m_shadowMapRes := 512;
                   debugObjectName := "D2" |}; shadows := true |} ].

(** A shadow-casting directional light that asks for 4096. *)
Definition light_4096 : QSSGShaderLight :=
  {| light := {| type := DirectionalLight; m_shadowMapRes := 4096;
                 debugObjectName := "D" |}; shadows := true |}.

(** The pointers an entry owns, in the order [destroyRhiResources]
    deletes them; the shared texture array is not among them. *)
Definition ownedPointers (e : QSSGShadowMapEntry) : list (option handle) :=
  [m_rhiDepthCopy e; m_rhiDepthCube e; m_rhiCubeCopy e; m_rhiDepthStencil e]
  ++ m_rhiRenderTargets e
  ++ [m_rhiRenderPassDesc e; m_rhiBlurRenderTarget0 e;
      m_rhiBlurRenderTarget1 e; m_rhiBlurRenderPassDesc e].

Definition ownedHandles (e : QSSGShadowMapEntry) : list handle :=
  omap id (ownedPointers e).

(** An entry of the example: a VSM entry on layer 0 of the shared
    array 0, with its own objects 1 to 7. *)
Definition example_entry : QSSGShadowMapEntry := {|
  m_lightIndex := 0;
  m_shadowMapMode := VSM;
  m_rhiDepthTextureArray := Some 0%nat;
  m_rhiDepthCopy := Some 1%nat;
  m_rhiDepthCube := None;
  m_rhiCubeCopy := None;
  m_rhiDepthStencil := Some 2%nat;
  m_rhiRenderTargets := [Some 3%nat; None; None; None; None; None];
  m_rhiRenderPassDesc := Some 4%nat;
  m_rhiBlurRenderTarget0 := Some 5%nat;
  m_rhiBlurRenderTarget1 := Some 7%nat;
  m_rhiBlurRenderPassDesc := Some 6%nat;
  m_depthArrayIndex := 0
|}.

Definition example_heap : gmap nat RhiObject :=
  {[ 0%nat := RhiTexture R16F (1024, 1024) 1 [RenderTarget; TextureArray];
     1%nat := RhiTexture R16F (1024, 1024) 0 [RenderTarget] ]}.

(** The pointer that [isCompatible] follows in an entry leads to a
    texture: the cube copy of a CUBE entry, the shared array of a VSM
    entry. *)
Definition isTexture (hp : gmap nat RhiObject) (p : option handle) : bool :=
  match p with
  | Some h =>
      match hp !! h with
      | Some (RhiTexture _ _ _ _) => true
      | _ => false
      end
  | None => false
  end.

Definition derefOk (st : State) : bool :=
  forallb (fun e =>
             match m_shadowMapMode e with
             | CUBE => isTexture (heap st) (m_rhiCubeCopy e)
             | VSM => isTexture (heap st) (m_rhiDepthTextureArray e)
             end)
          (m_shadowMapList st).

(** The compatibility predicate in the words of the spec: the mode
    matches and, for CUBE, the cube map has the candidate size, or, for
    VSM, the array has the candidate size and more layers than the
    candidate layer index. *)
Definition compatible (st : State) (e : QSSGShadowMapEntry) (size : QSize)
    (layerIndex : Z) (mode : ShadowMapModes) : Prop :=
  m_shadowMapMode e = mode /\
  match mode with
  | CUBE => exists h fmt n fl,
      m_rhiCubeCopy e = Some h /\ heap st !! h = Some (RhiTexture fmt size n fl)
  | VSM => exists h fmt n fl,
      m_rhiDepthTextureArray e = Some h /\
      heap st !! h = Some (RhiTexture fmt size n fl) /\ layerIndex < n
  end.

(** The freshly computed candidate layer of the light at position [i]. *)
Definition candidateLayer (lightIndexToLayerIndex : list Z) (i : nat)
    (l : QSSGShaderLight) : Z :=
  if isVSM (mapModeOf l) then layerIndexOf lightIndexToLayerIndex i else 0.

(** Some shadow-casting light, from position [i] on, has no entry for
    its index or an entry that is not compatible with its candidate. *)
Definition lightChanged (st : State) (lightIndexToLayerIndex : list Z) (i : nat)
    (lights : list QSSGShaderLight) : Prop :=
  exists j l, lights !! j = Some l /\ shadows l = true /\
    ((forall e, e ∈ m_shadowMapList st -> m_lightIndex e <> Z.of_nat (i + j)) \/
     exists e, shadowMapEntry (Z.of_nat (i + j)) st = Ok (Some e) /\
       ~ compatible st e (QSize_of (shadowMapRes l) (shadowMapRes l))
           (candidateLayer lightIndexToLayerIndex (i + j) l) (mapModeOf l)).

(** The reasons for a rebuild in the words of the spec. *)
Definition rebuildCause (lights : list QSSGShaderLight) (b : Buckets)
    (st : State) : Prop :=
  Z.of_nat (countb shadows lights) <> shadowMapEntryCount st \/
  lightChanged st (lightIndexToLayerIndex b) 0 lights.

(** A device that supports everything, with eight colour attachments. *)
Definition example_rhi : QRhi := {|
  isTextureFormatSupported := fun _ => true;
  MaxColorAttachments := 8;
  createSucceeds := fun _ => true
|}.

(** A device with four colour attachments only, on which every
    [create()] fails. *)
Definition small_rhi : QRhi := {|
  isTextureFormatSupported := fun _ => false;
  MaxColorAttachments := 4;
  createSucceeds := fun _ => false
|}.

(** The state in which a call leaves the registry ([st] itself when the
    call does not end well). *)
Definition stateAfter (r : result (unit * State)) (st : State) : State :=
  match r with
  | Ok (_, st') => st'
  | Err _ => st
  end.

(** The registry after reconciling the example lights from scratch. *)
Definition example_state : State :=
  stateAfter (addShadowMaps (Some example_rhi) example_lights initial) initial.

(** The entry [addCubeShadowMap] builds when the allocation counter is
    at [n]: the two cube maps, the depth-stencil buffer, the first face
    target, the render-pass descriptor, the other five face targets and,
    on a device with six colour attachments ([blur]), the two blur
    targets around their render-pass descriptor. *)
Definition cubeEntry (blur : bool) (n : handle) (lightIdx : Z) : QSSGShadowMapEntry := {|
  m_lightIndex := lightIdx;
  m_shadowMapMode := CUBE;
  m_rhiDepthTextureArray := None;
  m_rhiDepthCopy := None;
  m_rhiDepthCube := Some n;
  m_rhiCubeCopy := Some (1 + n)%nat;
  m_rhiDepthStencil := Some (2 + n)%nat;
  m_rhiRenderTargets := [Some (3 + n)%nat; Some (5 + n)%nat; Some (6 + n)%nat;
                         Some (7 + n)%nat; Some (8 + n)%nat; Some (9 + n)%nat];
  m_rhiRenderPassDesc := Some (4 + n)%nat;
  m_rhiBlurRenderTarget0 := if blur then Some (10 + n)%nat else None;
  m_rhiBlurRenderTarget1 := if blur then Some (12 + n)%nat else None;
  m_rhiBlurRenderPassDesc := if blur then Some (11 + n)%nat else None;
  m_depthArrayIndex := 0
|}.

(** The entry [addDirectionalShadowMap] builds when the allocation
    counter is at [n], on the layer [layerIndex] of the shared array
    [texture]. *)
Definition vsmEntry (n : handle) (lightIdx : Z) (texture : option handle)
    (layerIndex : Z) : QSSGShadowMapEntry := {|
  m_lightIndex := lightIdx;
  m_shadowMapMode := VSM;
  m_rhiDepthTextureArray := texture;
  m_rhiDepthCopy := Some n;
  m_rhiDepthCube := None;
  m_rhiCubeCopy := None;
  m_rhiDepthStencil := Some (1 + n)%nat;
  m_rhiRenderTargets := [Some (2 + n)%nat; None; None; None; None; None];
  m_rhiRenderPassDesc := Some (3 + n)%nat;
  m_rhiBlurRenderTarget0 := Some (4 + n)%nat;
  m_rhiBlurRenderTarget1 := Some (6 + n)%nat;
  m_rhiBlurRenderPassDesc := Some (5 + n)%nat;
  m_depthArrayIndex := layerIndex
|}.

(** The device can blur cube shadow maps. *)
Definition canBlur (rhi : QRhi) : bool := 6 <=? MaxColorAttachments rhi.

(** How often the warning about unblurred cube maps was printed. *)
Definition shortfalls (st : State) : nat :=
  count_occ Message_eq_dec (messages st) CubeNotBlurred.

(** Every non-null render target pointer of the entry, face or blur,
    leads to a render target object. *)
Definition isRenderTarget (hp : gmap nat RhiObject) (p : option handle) : Prop :=
  match p with
  | Some h => exists d rp name, hp !! h = Some (RhiTextureRenderTarget d rp name)
  | None => True
  end.

Definition liveTargets (hp : gmap nat RhiObject) (e : QSSGShadowMapEntry) : Prop :=
  Forall (isRenderTarget hp)
    (m_rhiRenderTargets e ++ [m_rhiBlurRenderTarget0 e; m_rhiBlurRenderTarget1 e]).

(** The lights that get an entry, with their positions in the list. *)
Fixpoint shadowCasters (i : nat) (lights : list QSSGShaderLight)
    : list (nat * QSSGShaderLight) :=
  match lights with
  | [] => []
  | l :: rest =>
      if shadows l then (i, l) :: shadowCasters (S i) rest
      else shadowCasters (S i) rest
  end.

(** The number of objects the construction of the light's entry
    allocates. *)
Definition handleSpan (rhi : QRhi) (l : QSSGShaderLight) : nat :=
  match mapModeOf l with
  | CUBE => if canBlur rhi then 13 else 10
  | VSM => 7
  end.

(** [e] is the entry built for the light [l] at position [i]: it was
    built when the allocation counter was at some [n] between [lo] and
    [hi], its render targets are in the store, and it is the cube entry
    around a cube copy of the light's resolution, or the VSM entry on
    the light's layer of the shared array of the light's resolution. *)
Definition entryOf (rhi : QRhi) (lightIndexToLayerIndex : list Z)
    (arrays : gmap (Z * Z) nat) (hp : gmap nat RhiObject) (lo hi : handle)
    (i : nat) (l : QSSGShaderLight) (e : QSSGShadowMapEntry) : Prop :=
  exists n, (lo <= n)%nat /\ (handleSpan rhi l + n <= hi)%nat /\
    liveTargets hp e /\
    match mapModeOf l with
    | CUBE =>
        e = cubeEntry (canBlur rhi) n (Z.of_nat i) /\
        hp !! (1 + n)%nat
        = Some (RhiTexture (getShadowMapTextureFormat rhi)
                  (QSize_of (shadowMapRes l) (shadowMapRes l)) 0 [RenderTarget; CubeMap])
    | VSM =>
        exists tex, arrays !! (QSize_of (shadowMapRes l) (shadowMapRes l)) = Some tex /\
          e = vsmEntry n (Z.of_nat i) (Some tex)
                (layerIndexOf lightIndexToLayerIndex i)
    end.

(** Some light of the list runs into the fallback for devices with
    fewer than six colour attachments. *)
Definition hitsFallback (rhi : QRhi) (lights : list QSSGShaderLight) : bool :=
  negb (canBlur rhi) && existsb castsCUBE lights.

(** The buckets in use. *)
Definition usedBuckets (counts : list Z) : nat :=
  countb (fun c => negb (c =? 0)) counts.

(** A spot light that casts shadows. *)
Definition example_spot : QSSGShaderLight :=
  {| light := {| type := SpotLight; m_shadowMapRes := 1024;
                 debugObjectName := "S" |}; shadows := true |}.

(** The example lights with the first one asking for 2048 instead. *)
Definition changed_lights : list QSSGShaderLight :=
  {| light := {| type := DirectionalLight; m_shadowMapRes := 2048;
                 debugObjectName := "D1" |}; shadows := true |}
  :: tail example_lights.

Definition changed_buckets : Buckets :=
  {| numShadows := 3;
     textureSizeLayerCount := [0; 1; 0; 1];
     lightIndexToLayerIndex := [0; 0; 0] |}.

(** The calls a render loop makes on the registry. *)
Inductive Call : Set :=
| Reconcile (lights : list QSSGShaderLight)
| Release.

Definition call (rhi : QRhi) (c : Call) : M unit :=
  match c with
  | Reconcile lights => addShadowMaps (Some rhi) lights
  | Release => modify releaseCachedResources
  end.

(** A sequence of calls on one device; the answer lists the state after
    each call. *)
Fixpoint runCalls (rhi : QRhi) (calls : list Call) (st : State) : result (list State) :=
  match calls with
  | [] => Ok []
  | c :: rest =>
      match call rhi c st with
      | Ok (_, st') =>
          match runCalls rhi rest st' with
          | Ok sts => Ok (st' :: sts)
          | Err f => Err f
          end
      | Err f => Err f
      end
  end.

(** The registry holds a CUBE entry. *)
Definition hasCube (st : State) : bool :=
  existsb (fun e => isCUBE (m_shadowMapMode e)) (m_shadowMapList st).

(** The state at the end of a sequence of calls that started in [st]. *)
(** The call reconciles a list with a shadow-casting point or spot
    light. *)
Definition reconcilesCube (c : Call) : bool :=
  match c with
  | Reconcile lights => existsb castsCUBE lights
  | Release => false
  end.

Definition finalState (st : State) (sts : list State) : State :=
  default st (last sts).

(** What holds of the warning between calls: it was printed once if the
    static flag is set and never otherwise, the flag is set as soon as
    there is a CUBE entry, and no CUBE entry has a blur target. *)
Definition warnedOnce (st : State) : Prop :=
  shortfalls st = (if warned st then 1 else 0)%nat /\
  (hasCube st = true -> warned st = true) /\
  (forall e, e ∈ m_shadowMapList st -> m_shadowMapMode e = CUBE ->
     m_rhiBlurRenderTarget0 e = None /\ m_rhiBlurRenderTarget1 e = None).

(** A point light that casts shadows. *)
Definition example_point : QSSGShaderLight :=
  {| light := {| type := PointLight; m_shadowMapRes := 256;
                 debugObjectName := "P" |}; shadows := true |}.

(** Three frames on the small device: two point lights, no light, one
    point light. *)
Definition example_calls : list Call :=
  [Reconcile [example_point; example_point]; Reconcile []; Reconcile [example_point]].

Definition example_run : list State :=
  match runCalls small_rhi example_calls initial with
  | Ok sts => sts
  | Err _ => []
  end.

(** 257 directional lights that cast shadows at 256: one more than the
    [quint8] counter of their bucket can count. *)
Definition many_lights : list QSSGShaderLight :=
  replicate 257
    {| light := {| type := DirectionalLight; m_shadowMapRes := 256;
                   debugObjectName := "D" |}; shadows := true |}.

(** Reconciling [lights] twice from scratch ends well both times, and
    the second call allocates. *)
Definition allocatesAgain (rhi : QRhi) (lights : list QSSGShaderLight) : bool :=
  match addShadowMaps (Some rhi) lights initial with
  | Ok (_, st1) =>
      match addShadowMaps (Some rhi) lights st1 with
      | Ok (_, st2) => Nat.ltb (nextHandle st1) (nextHandle st2)
      | Err _ => false
      end
  | Err _ => false
  end.

(** *** Vocabulary of the further properties *)

(** The handles of the shared texture arrays of the map. *)
Definition arrayHandles (st : State) : list handle :=
  (map_to_list (m_depthTextureArrays st)).*2.

(** The objects the registry is responsible for: the shared texture
    arrays and what the entries own. *)
Definition registryHandles (st : State) : list handle :=
  arrayHandles st ++ concat (ownedHandles <$> m_shadowMapList st).

(** The relation [R] between the state before and the state after holds
    of every run of [m] that ends well. *)
Definition keeps {A} (R : State -> State -> Prop) (m : M A) : Prop :=
  forall st a st', m st = Ok (a, st') -> R st st'.

(** The warning a failed [create()] of the object calls for. *)
Definition failureOf (o : RhiObject) : option Message :=
  match o with
  | RhiTexture _ size _ _ => Some (FailedShadowTexture size)
  | RhiRenderBuffer size => Some (FailedDepthStencil size)
  | _ => None
  end.

(** The store after holds what it held before and one object for every
    handle handed out in between. *)
Definition allocated (st st' : State) : Prop :=
  (nextHandle st <= nextHandle st')%nat /\
  forall h, is_Some (heap st' !! h) <->
            is_Some (heap st !! h) \/ (nextHandle st <= h < nextHandle st')%nat.

(** The store holds exactly the objects the registry is responsible
    for, each of them once, and all of them were handed out by the
    allocation counter. *)
Definition owns (st : State) : Prop :=
  NoDup (registryHandles st) /\
  (forall h, is_Some (heap st !! h) <-> h ∈ registryHandles st) /\
  (forall h, h ∈ registryHandles st -> (h < nextHandle st)%nat).

(** The number of objects the construction of the entries of a light
    list allocates. *)
Definition entryObjects (rhi : QRhi) (lights : list QSSGShaderLight) : nat :=
  sum_list (handleSpan rhi <$> List.filter shadows lights).

(** The light indices of the entries, in the order of the list. *)
Definition entryIndices (st : State) : list Z :=
  m_lightIndex <$> m_shadowMapList st.

(** The positions of the shadow-casting lights. *)
Definition casterIndices (lights : list QSSGShaderLight) : list Z :=
  (fun jl => Z.of_nat jl.1) <$> shadowCasters 0 lights.

(** The log only grows. *)
Definition appended (st st' : State) : Prop :=
  messages st `prefix_of` messages st'.

(** Nothing was logged. *)
Definition silent (st st' : State) : Prop :=
  messages st' = messages st.

(** Every texture and every depth-stencil buffer of the store whose
    [create()] failed has its warning, with its size, in the log. *)
Definition reported (rhi : QRhi) (st : State) : Prop :=
  forall h o msg, heap st !! h = Some o -> createSucceeds rhi h = false ->
    failureOf o = Some msg -> msg ∈ messages st.

(** The object behind a pointer. *)
Definition objectAt (hp : gmap nat RhiObject) (p : option handle) : option RhiObject :=
  match p with
  | Some h => hp !! h
  | None => None
  end.

(** What a render target renders into and the render-pass descriptor it
    uses; [None] where the pointer does not lead to a render target. *)
Definition targetOf (hp : gmap nat RhiObject) (p : option handle)
    : option (QRhiTextureRenderTargetDescription * option handle) :=
  match objectAt hp p with
  | Some (RhiTextureRenderTarget d rp _) => Some (d, rp)
  | _ => None
  end.

(** The render targets of an entry render into the entry's own textures. *)
Definition wired (hp : gmap nat RhiObject) (e : QSSGShadowMapEntry) : Prop :=
  match m_shadowMapMode e with
  | VSM =>
      targetOf hp (renderTarget e 0)
      = Some ({| colorAttachments := [(m_rhiDepthTextureArray e, m_depthArrayIndex e)];
                 depthStencilBuffer := m_rhiDepthStencil e |}, m_rhiRenderPassDesc e) /\
      targetOf hp (m_rhiBlurRenderTarget0 e)
      = Some ({| colorAttachments := [(m_rhiDepthCopy e, 0)];
                 depthStencilBuffer := None |}, m_rhiBlurRenderPassDesc e) /\
      targetOf hp (m_rhiBlurRenderTarget1 e)
      = Some ({| colorAttachments := [(m_rhiDepthTextureArray e, m_depthArrayIndex e)];
                 depthStencilBuffer := None |}, m_rhiBlurRenderPassDesc e)
  | CUBE =>
      (forall face,
         targetOf hp (renderTarget e (faceIndex face))
         = Some ({| colorAttachments := [(m_rhiDepthCube e, Z.of_nat (faceIndex face))];
                    depthStencilBuffer := m_rhiDepthStencil e |}, m_rhiRenderPassDesc e)) /\
      (m_rhiBlurRenderTarget0 e = None /\ m_rhiBlurRenderTarget1 e = None \/
       targetOf hp (m_rhiBlurRenderTarget0 e)
       = Some ({| colorAttachments := cubeAttachments (m_rhiCubeCopy e);
                  depthStencilBuffer := None |}, m_rhiBlurRenderPassDesc e) /\
       targetOf hp (m_rhiBlurRenderTarget1 e)
       = Some ({| colorAttachments := cubeAttachments (m_rhiDepthCube e);
                  depthStencilBuffer := None |}, m_rhiBlurRenderPassDesc e))
  end.

(** The textures and the depth-stencil buffer of an entry have one size
    and the format of the device's shadow maps. *)
Definition sizedAt (rhi : QRhi) (hp : gmap nat RhiObject) (size : QSize)
    (e : QSSGShadowMapEntry) : Prop :=
  objectAt hp (m_rhiDepthStencil e) = Some (RhiRenderBuffer size) /\
  match m_shadowMapMode e with
  | VSM =>
      (exists n, objectAt hp (m_rhiDepthTextureArray e)
                 = Some (RhiTexture (getShadowMapTextureFormat rhi) size n
                           [RenderTarget; TextureArray])) /\
      objectAt hp (m_rhiDepthCopy e)
      = Some (RhiTexture (getShadowMapTextureFormat rhi) size 0 [RenderTarget])
  | CUBE =>
      objectAt hp (m_rhiDepthCube e)
      = Some (RhiTexture (getShadowMapTextureFormat rhi) size 0 [RenderTarget; CubeMap]) /\
      objectAt hp (m_rhiCubeCopy e)
      = Some (RhiTexture (getShadowMapTextureFormat rhi) size 0 [RenderTarget; CubeMap])
  end.

(** Every shared array of the map is a texture array of the size it is
    filed under. *)
Definition arraysOk (rhi : QRhi) (st : State) : Prop :=
  forall size h, m_depthTextureArrays st !! size = Some h ->
    exists n, heap st !! h
              = Some (RhiTexture (getShadowMapTextureFormat rhi) size n
                        [RenderTarget; TextureArray]).

(** What holds of the registry between calls on the device [rhi]. *)
Definition wellBuilt (rhi : QRhi) (st : State) : Prop :=
  owns st /\ arraysOk rhi st /\
  Forall (fun e => wired (heap st) e /\ exists size, sizedAt rhi (heap st) size e)
         (m_shadowMapList st).

(** The pointer whose pixel size [isCompatible] compares. *)
Definition sizePointer (e : QSSGShadowMapEntry) : option handle :=
  match m_shadowMapMode e with
  | CUBE => m_rhiCubeCopy e
  | VSM => m_rhiDepthTextureArray e
  end.

(** Every light list of the sequence has fewer than 256 lights. *)
Definition shortLists (calls : list Call) : bool :=
  forallb (fun c => match c with
                    | Reconcile lights => Nat.ltb (length lights) 256
                    | Release => true
                    end) calls.

(** Every VSM entry sits on a layer that its shared array has, and two
    VSM entries on the same layer of the same array belong to the same
    light. *)
Definition layersSound (st : State) : Prop :=
  (forall e, e ∈ m_shadowMapList st -> m_shadowMapMode e = VSM ->
     exists h fmt size n fl,
       m_rhiDepthTextureArray e = Some h /\
       heap st !! h = Some (RhiTexture fmt size n fl) /\
       0 <= m_depthArrayIndex e < n) /\
  (forall e1 e2, e1 ∈ m_shadowMapList st -> e2 ∈ m_shadowMapList st ->
     m_shadowMapMode e1 = VSM -> m_shadowMapMode e2 = VSM ->
     m_rhiDepthTextureArray e1 = m_rhiDepthTextureArray e2 ->
     m_depthArrayIndex e1 = m_depthArrayIndex e2 ->
     m_lightIndex e1 = m_lightIndex e2).

(** Lights are compared field by field. *)
#[global] Instance QSSGRenderLight_eq_dec : EqDecision QSSGRenderLight.
Proof. solve_decision. Defined.

#[global] Instance QSSGShaderLight_eq_dec : EqDecision QSSGShaderLight.
Proof. solve_decision. Defined.

(** Two light lists of the same length that differ at most at positions
    where neither light casts a shadow. *)
Definition sameCasters (lights lights' : list QSSGShaderLight) : Prop :=
  Forall2 (fun l l' => l = l' \/ (shadows l = false /\ shadows l' = false))
          lights lights'.

(** Every CUBE entry has its two blur render targets and their
    render-pass descriptor, and the fallback was never taken. *)
Definition blurred (st : State) : Prop :=
  (forall e, e ∈ m_shadowMapList st -> m_shadowMapMode e = CUBE ->
     is_Some (m_rhiBlurRenderTarget0 e) /\ is_Some (m_rhiBlurRenderTarget1 e) /\
     is_Some (m_rhiBlurRenderPassDesc e)) /\
  shortfalls st = 0%nat /\
  warned st = false.

(** Every main or face render target of an entry whose [create()]
    failed has its warning in the log. *)
Definition targetsReported (rhi : QRhi) (st : State) : Prop :=
  forall e h, e ∈ m_shadowMapList st -> Some h ∈ m_rhiRenderTargets e ->
    createSucceeds rhi h = false -> FailedRenderTarget ∈ messages st.

(** Three frames on the device that supports everything: the example
    lights, the same lights with the first one at 2048, and a release. *)
Definition frames : list Call :=
  [Reconcile example_lights; Reconcile changed_lights; Release].

Definition frames_run : list State :=
  match runCalls example_rhi frames initial with
  | Ok sts => sts
  | Err _ => []
  end.

(** The registry after reconciling the changed lights in the example
    state. *)
Definition changed_state : State :=
  stateAfter (addShadowMaps (Some example_rhi) changed_lights example_state)
             example_state.

(** A point light at the largest [quint32] resolution, the registry
    after reconciling it alone on a fresh registry, and its entry. *)
Definition huge_point : QSSGShaderLight :=
  {| light := {| type := PointLight; m_shadowMapRes := 4294967295;
                 debugObjectName := "P" |}; shadows := true |}.

Definition huge_state : State :=
  stateAfter (addShadowMaps (Some example_rhi) [huge_point] initial) initial.

Definition huge_entry : QSSGShadowMapEntry :=
  default QSSGShadowMapEntry_default (head (m_shadowMapList huge_state)).

(** A point light that casts no shadow. *)
Definition dark_light : QSSGShaderLight :=
  {| light := {| type := PointLight; m_shadowMapRes := 512;
                 debugObjectName := "P" |}; shadows := false |}.

(** A directional light at 4096 that casts no shadow. *)
Definition light_4096_off : QSSGShaderLight :=
  {| light := {| type := DirectionalLight; m_shadowMapRes := 4096;
                 debugObjectName := "D" |}; shadows := false |}.

(** 256 directional lights that cast shadows at 256: as many as the
    [quint8] counter of their bucket counts before it is back at 0. *)
Definition overflow_lights : list QSSGShaderLight :=
  replicate 256
    {| light := {| type := DirectionalLight; m_shadowMapRes := 256;
                   debugObjectName := "D" |}; shadows := true |}.

(** ** Resolution buckets: proofs *)

Lemma power_of_two_log2 (r : Z) :
  0 < r -> Z.land r (r - 1) = 0 -> r = 2 ^ Z.log2 r.
Proof.
  intros Hpos Hland.
  destruct (Z.log2_spec r Hpos) as [Hlo Hhi].
  destruct (decide (r = 2 ^ Z.log2 r)) as [|Hne]; [done|exfalso].
  assert (Hk : 0 <= Z.log2 r) by apply Z.log2_nonneg.
  assert (Hlog : Z.log2 (r - 1) = Z.log2 r).
  { apply Z.log2_unique; [done|]. rewrite <- Z.add_1_r in *. lia. }
  assert (Hb1 : Z.testbit r (Z.log2 r) = true) by (apply Z.bit_log2; lia).
  assert (Hb2 : Z.testbit (r - 1) (Z.log2 r) = true).
  { rewrite <- Hlog. apply Z.bit_log2. lia. }
  assert (Hb : Z.testbit (Z.land r (r - 1)) (Z.log2 r) = true).
  { rewrite Z.land_spec, Hb1, Hb2. reflexivity. }
  rewrite Hland, Z.bits_0 in Hb. discriminate.
Qed.

Lemma mapSizeToIndex_pow2 (k : Z) :
  8 <= k < 32 ->
  mapSizeToIndex (2 ^ k) = if k <=? 12 then Ok (k - 8) else Err AssertFailed.
Proof.
  intros Hk.
  assert (Hcases : k ∈ (Z.of_nat <$> seq 8 24)).
  { apply list_elem_of_fmap. exists (Z.to_nat k). split; [lia|].
    apply list_elem_of_In, in_seq. lia. }
  cbn in Hcases.
  repeat (apply elem_of_cons in Hcases as [->|Hcases]; [vm_compute; reflexivity|]).
  by apply elem_of_nil in Hcases.
Qed.

(** What [mapSizeToIndex] accepts, and what it answers. *)
Lemma mapSizeToIndex_inv (r i : Z) :
  0 <= r < 4294967296 ->
  mapSizeToIndex r = Ok i ->
  0 <= i <= 4 /\ r = 2 ^ (i + 8).
Proof.
  intros Hr Hi. pose proof Hi as H.
  unfold mapSizeToIndex, rbind, Q_ASSERT in H.
  destruct (Z.land r (quint32 (r - 1)) =? 0) eqn:Hland; [|discriminate].
  destruct (256 <=? r) eqn:Hmin; [|discriminate].
  apply Z.eqb_eq in Hland. apply Z.leb_le in Hmin.
  unfold quint32 in Hland. rewrite Z.mod_small in Hland by lia.
  pose proof (power_of_two_log2 r ltac:(lia) Hland) as Hpow.
  assert (Hk : 8 <= Z.log2 r < 32).
  { split.
    - apply (Z.log2_le_pow2 r 8); lia.
    - apply Z.log2_lt_pow2; lia. }
  pose proof (mapSizeToIndex_pow2 (Z.log2 r) Hk) as Hidx.
  rewrite <- Hpow, Hi in Hidx.
  destruct (Z.log2 r <=? 12) eqn:Hle; [|discriminate].
  apply Z.leb_le in Hle.
  assert (i = Z.log2 r - 8) by congruence. subst i.
  split; [lia|]. replace (Z.log2 r - 8 + 8) with (Z.log2 r) by lia. exact Hpow.
Qed.

Lemma mapSizeToIndex_bucket (k : nat) :
  (k <= 4)%nat -> mapSizeToIndex (2 ^ (Z.of_nat k + 8)) = Ok (Z.of_nat k).
Proof.
  intros Hk.
  do 5 (destruct k as [|k]; [vm_compute; reflexivity|]). lia.
Qed.

Lemma indexToMapSize_bucket (k : nat) :
  (k <= 4)%nat -> indexToMapSize (Z.of_nat k) = Ok (2 ^ (Z.of_nat k + 8)).
Proof.
  intros Hk.
  do 5 (destruct k as [|k]; [vm_compute; reflexivity|]). lia.
Qed.

Lemma quint32_range (z : Z) : 0 <= quint32 z < 4294967296.
Proof. unfold quint32. apply Z.mod_pos_bound. lia. Qed.

(** Below 2^31 the conversion to [int] changes nothing. *)
Lemma toInt_small (v : Z) : v < 2147483648 -> toInt v = v.
Proof. unfold toInt. intros Hv. destruct (v <? 2147483648) eqn:H; [done|]. lia. Qed.

Lemma QSize_of_small (w h : Z) :
  w < 2147483648 -> h < 2147483648 -> QSize_of w h = (w, h).
Proof. intros Hw Hh. unfold QSize_of. by rewrite !toInt_small. Qed.

Lemma shadowMapRes_index (l : QSSGShaderLight) (i : Z) :
  mapSizeToIndex (shadowMapRes l) = Ok i ->
  0 <= i <= 4 /\ shadowMapRes l = 2 ^ (i + 8).
Proof. apply mapSizeToIndex_inv, quint32_range. Qed.

(** C8. Encoding one of the five resolutions to its bucket index and
    decoding the index gives the resolution back:
    [indexToMapSize (mapSizeToIndex r) = r]. *)
Theorem resolution_round_trip (r : Z) :
  r ∈ [256; 512; 1024; 2048; 4096] ->
  rbind (mapSizeToIndex r) indexToMapSize = Ok r.
Proof.
  intros Hr.
  repeat (apply elem_of_cons in Hr as [->|Hr]; [vm_compute; reflexivity|]).
  by apply elem_of_nil in Hr.
Qed.

Lemma resolution_round_trip_witness :
  rbind (mapSizeToIndex 4096) indexToMapSize = Ok 4096.
Proof. apply (resolution_round_trip 4096). set_solver. Defined.


(** ** The first loop of [addShadowMaps] *)

Lemma quint8_idemp (c d : Z) : quint8 (quint8 c + d) = quint8 (c + d).
Proof. unfold quint8. apply Zplus_mod_idemp_l. Qed.

Lemma quint8_small (c : Z) : 0 <= c < 256 -> quint8 c = c.
Proof. unfold quint8. apply Z.mod_small. Qed.

Lemma castsVSM_cases (l : QSSGShaderLight) :
  castsVSM l = negb (negb (shadows l) || isCUBE (mapModeOf l)).
Proof. unfold castsVSM. destruct (shadows l), (mapModeOf l); reflexivity. Qed.

Lemma castsVSM_directional (l : QSSGShaderLight) :
  castsVSM l = true <-> shadows l = true /\ type (light l) = DirectionalLight.
Proof.
  unfold castsVSM, mapModeOf.
  destruct (shadows l), (type (light l)); vm_compute; intuition congruence.
Qed.

(** The two ways an iteration of the first loop can end well. *)
Lemma countLight_Ok (i : nat) (l : QSSGShaderLight) (b b1 : Buckets) :
  countLight i l b = Ok b1 ->
  (castsVSM l = false /\
   b1 = {| numShadows := numShadows b + (if shadows l then 1 else 0);
           textureSizeLayerCount := textureSizeLayerCount b;
           lightIndexToLayerIndex := lightIndexToLayerIndex b |}) \/
  (castsVSM l = true /\ exists k c,
     mapSizeToIndex (shadowMapRes l) = Ok (Z.of_nat k) /\
     textureSizeLayerCount b !! k = Some c /\
     b1 = {| numShadows := numShadows b + 1;
             textureSizeLayerCount := <[k := quint8 (c + 1)]> (textureSizeLayerCount b);
             lightIndexToLayerIndex := <[i := c]> (lightIndexToLayerIndex b) |}).
Proof.
  unfold countLight. rewrite castsVSM_cases.
  destruct (negb (shadows l) || isCUBE (mapModeOf l)) eqn:Hskip; cbn [negb].
  - intros [= <-]. left. split; [done|].
    destruct (shadows l); [done|]. by rewrite Z.add_0_r.
  - intros H. right. split; [done|].
    destruct (mapSizeToIndex (shadowMapRes l)) as [index|] eqn:Hidx; [|done].
    cbn [rbind] in H.
    destruct (shadowMapRes_index _ _ Hidx) as [Hrange _].
    destruct (textureSizeLayerCount b !! Z.to_nat index) as [c|] eqn:Hc; [|done].
    exists (Z.to_nat index), c. rewrite Z2Nat.id by lia.
    apply orb_false_elim in Hskip as [Hs _]. apply negb_false_iff in Hs.
    rewrite Hs in H. split_and!; [done|done|by injection H as <-].
Qed.

Lemma inBucket_of_index (l : QSSGShaderLight) (k k' : nat) :
  castsVSM l = true -> mapSizeToIndex (shadowMapRes l) = Ok (Z.of_nat k) ->
  inBucket k' l = bool_decide (k = k').
Proof.
  intros Hc Hk. unfold inBucket. rewrite Hc, Hk, Nat2Z.id. cbn.
  case_bool_decide; [by apply Nat.eqb_eq|by apply Nat.eqb_neq].
Qed.

Lemma inBucket_not_casting (l : QSSGShaderLight) (k : nat) :
  castsVSM l = false -> inBucket k l = false.
Proof. intros Hc. unfold inBucket. by rewrite Hc. Qed.

Lemma countb_cons {A} (f : A -> bool) (x : A) (l : list A) :
  countb f (x :: l) = ((if f x then 1 else 0) + countb f l)%nat.
Proof. unfold countb. cbn. destruct (f x); reflexivity. Qed.

Lemma countb_app {A} (f : A -> bool) (l1 l2 : list A) :
  countb f (l1 ++ l2) = (countb f l1 + countb f l2)%nat.
Proof. unfold countb. rewrite List.filter_app. apply length_app. Qed.

Lemma countb_le {A} (f : A -> bool) (l : list A) : (countb f l <= length l)%nat.
Proof. unfold countb. apply List.filter_length_le. Qed.

Lemma countb_ext {A} (f g : A -> bool) (l : list A) :
  (forall x, x ∈ l -> f x = g x) -> countb f l = countb g l.
Proof.
  induction l as [|x l IH]; intros Hfg; [reflexivity|].
  rewrite !countb_cons, Hfg, IH; [done| |set_solver].
  intros y Hy. apply Hfg. set_solver.
Qed.

(** The invariant of the first loop, from any position and any
    intermediate value of the local variables. *)
(** The counters and the layers of the first loop are [quint8] values. *)
Lemma countLights_quint8 (lights : list QSSGShaderLight) :
  forall (i : nat) (b b' : Buckets),
  countLights i lights b = Ok b' ->
  Forall (fun c => 0 <= c < 256) (textureSizeLayerCount b) ->
  Forall (fun c => 0 <= c < 256) (lightIndexToLayerIndex b) ->
  Forall (fun c => 0 <= c < 256) (textureSizeLayerCount b') /\
  Forall (fun c => 0 <= c < 256) (lightIndexToLayerIndex b').
Proof.
  induction lights as [|l rest IH]; intros i b b' Hrun Hcounts Hlayers.
  - cbn in Hrun. by injection Hrun as <-.
  - cbn [countLights] in Hrun.
    destruct (countLight i l b) as [b1|] eqn:Hstep; [|done]. cbn [rbind] in Hrun.
    apply (IH _ _ _ Hrun);
      apply countLight_Ok in Hstep as [[_ ->]|(_ & k & c & _ & Hc & ->)];
      cbn [textureSizeLayerCount lightIndexToLayerIndex]; try done.
    + apply Forall_insert; [done|]. unfold quint8. apply Z.mod_pos_bound. lia.
    + apply Forall_insert; [done|].
      by apply (Forall_lookup_1 _ _ _ _ Hcounts Hc).
Qed.

Lemma bucketLights_layers (lights : list QSSGShaderLight) (b : Buckets) :
  bucketLights lights = Ok b ->
  Forall (fun c => 0 <= c < 256) (lightIndexToLayerIndex b).
Proof.
  unfold bucketLights. intros Hrun.
  apply (countLights_quint8 _ _ _ _ Hrun);
    cbn [textureSizeLayerCount lightIndexToLayerIndex];
    apply Forall_replicate; lia.
Qed.

Lemma layerIndexOf_bound (l2l : list Z) (i : nat) :
  Forall (fun c => 0 <= c < 256) l2l -> 0 <= layerIndexOf l2l i < 256.
Proof.
  intros Hall. unfold layerIndexOf.
  destruct (l2l !! i) as [c|] eqn:Hc; cbn [default]; [|lia].
  by apply (Forall_lookup_1 _ _ _ _ Hall Hc).
Qed.

Lemma candidateLayer_bound (l2l : list Z) (i : nat) (l : QSSGShaderLight) :
  Forall (fun c => 0 <= c < 256) l2l -> 0 <= candidateLayer l2l i l < 256.
Proof.
  intros Hall. unfold candidateLayer.
  destruct (isVSM (mapModeOf l)); [by apply layerIndexOf_bound|lia].
Qed.

Lemma countLights_inv (lights : list QSSGShaderLight) :
  forall (i : nat) (b b' : Buckets),
  countLights i lights b = Ok b' ->
  numShadows b' = numShadows b + Z.of_nat (countb shadows lights) /\
  length (textureSizeLayerCount b') = length (textureSizeLayerCount b) /\
  length (lightIndexToLayerIndex b') = length (lightIndexToLayerIndex b) /\
  (forall k c, textureSizeLayerCount b !! k = Some (quint8 c) ->
     textureSizeLayerCount b' !! k
     = Some (quint8 (c + Z.of_nat (countb (inBucket k) lights)))) /\
  (forall j, (j < i)%nat ->
     lightIndexToLayerIndex b' !! j = lightIndexToLayerIndex b !! j) /\
  (forall j l, lights !! j = Some l -> castsVSM l = true ->
     exists k, mapSizeToIndex (shadowMapRes l) = Ok (Z.of_nat k) /\
       (k < length (textureSizeLayerCount b))%nat /\
       forall c, (i + j < length (lightIndexToLayerIndex b))%nat ->
         textureSizeLayerCount b !! k = Some (quint8 c) ->
         lightIndexToLayerIndex b' !! (i + j)%nat
         = Some (quint8 (c + Z.of_nat (countb (inBucket k) (take j lights))))).
Proof.
  induction lights as [|l rest IH]; intros i b b' Hrun.
  - cbn in Hrun. injection Hrun as <-.
    split_and!; try done.
    + by rewrite Z.add_0_r.
    + intros k c Hk. by rewrite Hk, Z.add_0_r.
  - cbn [countLights] in Hrun.
    destruct (countLight i l b) as [b1|] eqn:Hstep; [|done]. cbn [rbind] in Hrun.
    destruct (IH _ _ _ Hrun) as (Hn & Hlc & Hll & Hcnt & Hkeep & Hlay).
    apply countLight_Ok in Hstep as [[Hc ->]|(Hc & k0 & c0 & Hk0 & Hc0 & ->)];
      cbn [numShadows textureSizeLayerCount lightIndexToLayerIndex] in *.
    + split_and!; try done.
      * rewrite Hn, countb_cons. destruct (shadows l); lia.
      * intros k c Hk. rewrite (Hcnt _ _ Hk), countb_cons.
        by rewrite inBucket_not_casting.
      * intros j Hj. apply Hkeep. lia.
      * intros [|j] l' Hl' Hc'; cbn in Hl'.
        { congruence. }
        destruct (Hlay _ _ Hl' Hc') as (k & Hk & Hlt & Hval).
        exists k. split_and!; try done. intros c Hlen Hkc.
        replace (i + S j)%nat with (S i + j)%nat by lia.
        rewrite (Hval c) by (done || lia).
        cbn [take]. rewrite countb_cons. by rewrite inBucket_not_casting.
    + rewrite length_insert in Hlc, Hll.
      assert (Hshadows : shadows l = true).
      { apply castsVSM_directional in Hc. tauto. }
      assert (Hk0lt : (k0 < length (textureSizeLayerCount b))%nat).
      { by eapply lookup_lt_Some. }
      split_and!; try done.
      * rewrite Hn, countb_cons, Hshadows. lia.
      * intros k c Hk. rewrite countb_cons, (inBucket_of_index _ _ _ Hc Hk0).
        case_bool_decide as Heq.
        -- subst k0. rewrite Hk in Hc0. injection Hc0 as <-.
           rewrite (Hcnt k (c + 1)).
           ++ f_equal. f_equal. lia.
           ++ rewrite list_lookup_insert_eq by done. by rewrite quint8_idemp.
        -- rewrite (Hcnt k c).
           ++ f_equal.
           ++ by rewrite list_lookup_insert_ne.
      * intros j Hj. rewrite Hkeep by lia. apply list_lookup_insert_ne. lia.
      * intros [|j] l' Hl' Hc'; cbn in Hl'.
        { injection Hl' as <-. exists k0. split_and!; try done.
          intros c Hlen Hkc. rewrite Nat.add_0_r in *.
          rewrite Hkeep by lia. rewrite list_lookup_insert_eq by done.
          rewrite Hkc in Hc0. injection Hc0 as <-.
          cbn. by rewrite Z.add_0_r. }
        destruct (Hlay _ _ Hl' Hc') as (k & Hk & Hlt & Hval).
        rewrite length_insert in Hlt.
        exists k. split_and!; [done|lia|]. intros c Hlen Hkc.
        replace (i + S j)%nat with (S i + j)%nat by lia.
        cbn [take]. rewrite countb_cons, (inBucket_of_index _ _ _ Hc Hk0).
        case_bool_decide as Heq.
        -- subst k0. rewrite Hkc in Hc0. injection Hc0 as <-.
           rewrite (Hval (c + 1)).
           ++ f_equal. f_equal. lia.
           ++ rewrite length_insert. lia.
           ++ rewrite list_lookup_insert_eq by done. by rewrite quint8_idemp.
        -- rewrite (Hval c).
           ++ f_equal.
           ++ rewrite length_insert. lia.
           ++ by rewrite list_lookup_insert_ne.
Qed.

(** The first loop ends well as soon as every light that takes a layer
    has a bucket among the counters. *)
Lemma countLights_total (lights : list QSSGShaderLight) :
  forall (i : nat) (b : Buckets),
  (forall l, l ∈ lights -> castsVSM l = true ->
     exists k, mapSizeToIndex (shadowMapRes l) = Ok (Z.of_nat k) /\
               (k < length (textureSizeLayerCount b))%nat) ->
  exists b', countLights i lights b = Ok b'.
Proof.
  induction lights as [|l rest IH]; intros i b Hok; [by eexists|].
  cbn [countLights].
  assert (Hstep : exists b1, countLight i l b = Ok b1 /\
            length (textureSizeLayerCount b1) = length (textureSizeLayerCount b)).
  { unfold countLight. rewrite <- (negb_involutive (_ || _)), <- castsVSM_cases.
    destruct (castsVSM l) eqn:Hc; cbn [negb]; [|by eexists].
    destruct (Hok l ltac:(set_solver) Hc) as (k & Hk & Hlt).
    rewrite Hk. cbn [rbind]. rewrite Nat2Z.id.
    destruct (lookup_lt_is_Some_2 _ _ Hlt) as [c Hcv]. rewrite Hcv.
    eexists. split; [done|]. cbn. by rewrite length_insert. }
  destruct Hstep as (b1 & -> & Hlen). cbn [rbind].
  apply IH. intros l' Hl' Hc'. rewrite Hlen. apply Hok; [set_solver|done].
Qed.


Lemma pow2_bucket_inj (k k' : nat) :
  2 ^ (Z.of_nat k + 8) = 2 ^ (Z.of_nat k' + 8) -> k = k'.
Proof.
  intros H. apply (Z.pow_inj_r 2) in H; lia.
Qed.

Lemma inBucket_sameRes (k : nat) (l : QSSGShaderLight) :
  (k <= 4)%nat -> inBucket k l = sameRes (2 ^ (Z.of_nat k + 8)) l.
Proof.
  intros Hk. unfold inBucket, sameRes. destruct (castsVSM l); [cbn [andb]|done].
  destruct (mapSizeToIndex (shadowMapRes l)) as [index|] eqn:Hidx.
  - destruct (shadowMapRes_index _ _ Hidx) as [Hrange Hres].
    rewrite Hres.
    destruct (Nat.eqb_spec (Z.to_nat index) k) as [<-|Hne].
    + rewrite Z2Nat.id by lia. symmetry. by apply Z.eqb_eq.
    + symmetry. apply Z.eqb_neq. intros Heq. apply Hne.
      apply pow2_bucket_inj. rewrite Z2Nat.id by lia. done.
  - symmetry. apply Z.eqb_neq. intros Heq.
    rewrite Heq, mapSizeToIndex_bucket in Hidx; done.
Qed.

Lemma supportedRes_bucket (l : QSSGShaderLight) :
  supportedRes l = true <->
  exists k, (k < 4)%nat /\ mapSizeToIndex (shadowMapRes l) = Ok (Z.of_nat k).
Proof.
  unfold supportedRes. rewrite bool_decide_eq_true. split.
  - intros Hin.
    repeat (apply elem_of_cons in Hin as [->|Hin];
      [first [by exists 0%nat; split; [lia|vm_compute]
             |by exists 1%nat; split; [lia|vm_compute]
             |by exists 2%nat; split; [lia|vm_compute]
             |by exists 3%nat; split; [lia|vm_compute]]|]).
    by apply elem_of_nil in Hin.
  - intros (k & Hk & Hidx).
    destruct (shadowMapRes_index _ _ Hidx) as [_ ->].
    do 4 (destruct k as [|k]; [set_solver|]). lia.
Qed.

Lemma supported_spec (lights : list QSSGShaderLight) :
  supported lights = true <->
  forall l, l ∈ lights -> castsVSM l = true -> supportedRes l = true.
Proof.
  unfold supported. rewrite forallb_forall. split.
  - intros H l Hl Hc. apply list_elem_of_In in Hl. specialize (H l Hl).
    rewrite Hc in H. done.
  - intros H l Hl. apply list_elem_of_In in Hl.
    destruct (castsVSM l) eqn:Hc; [|done]. cbn. by apply H.
Qed.

(** What the first loop leaves in the local variables. *)
Lemma bucketLights_spec (lights : list QSSGShaderLight) (b : Buckets) :
  bucketLights lights = Ok b ->
  numShadows b = Z.of_nat (countb shadows lights) /\
  length (textureSizeLayerCount b) = 4%nat /\
  length (lightIndexToLayerIndex b) = length lights /\
  (forall k, (k < 4)%nat ->
     textureSizeLayerCount b !! k
     = Some (quint8 (Z.of_nat (countb (inBucket k) lights)))) /\
  (forall j l, lights !! j = Some l -> castsVSM l = true ->
     exists k, (k < 4)%nat /\
       mapSizeToIndex (shadowMapRes l) = Ok (Z.of_nat k) /\
       layerIndexOf (lightIndexToLayerIndex b) j
       = quint8 (Z.of_nat (countb (inBucket k) (take j lights)))).
Proof.
  unfold bucketLights. intros Hrun.
  destruct (countLights_inv _ _ _ _ Hrun) as (Hn & Hlc & Hll & Hcnt & _ & Hlay).
  cbn [numShadows textureSizeLayerCount lightIndexToLayerIndex] in *.
  rewrite length_replicate in Hlc, Hll.
  split_and!; try done.
  - intros k Hk. rewrite (Hcnt k 0); [done|].
    by rewrite lookup_replicate_2.
  - intros j l Hl Hc. destruct (Hlay _ _ Hl Hc) as (k & Hk & Hlt & Hval).
    rewrite length_replicate in Hlt. exists k. split_and!; try done.
    specialize (Hval 0). cbn [Nat.add] in Hval.
    unfold layerIndexOf. rewrite Hval; try done.
    + rewrite length_replicate. by eapply lookup_lt_Some.
    + by rewrite lookup_replicate_2.
Qed.

Lemma bucketLights_total (lights : list QSSGShaderLight) :
  supported lights = true -> exists b, bucketLights lights = Ok b.
Proof.
  intros Hsup. apply countLights_total. intros l Hl Hc.
  cbn [textureSizeLayerCount]. rewrite length_replicate.
  destruct (proj1 (supportedRes_bucket l)) as (k & Hk & Hidx); [|by exists k].
  by apply (proj1 (supported_spec lights) Hsup).
Qed.

(** The first loop ends well only on supported resolutions. *)
Lemma bucketLights_supported (lights : list QSSGShaderLight) (b : Buckets) :
  bucketLights lights = Ok b -> supported lights = true.
Proof.
  intros Hrun. apply supported_spec. intros l Hl Hc.
  apply list_elem_of_lookup in Hl as [j Hj].
  destruct (bucketLights_spec _ _ Hrun) as (_ & _ & _ & _ & Hlay).
  destruct (Hlay _ _ Hj Hc) as (k & Hk & Hidx & _).
  apply supportedRes_bucket. eauto.
Qed.

Lemma sameRes_of_bucket (l : QSSGShaderLight) (k : nat) :
  mapSizeToIndex (shadowMapRes l) = Ok (Z.of_nat k) ->
  shadowMapRes l = 2 ^ (Z.of_nat k + 8).
Proof.
  intros Hidx. by destruct (shadowMapRes_index _ _ Hidx).
Qed.

(** C2, as the spec states it, fails on its own example: the spot light
    is routed to the cube path, takes no layer, and the array of
    resolution 1024 (bucket 2) gets one layer, not two. *)
Lemma example_spot_takes_no_layer :
  ~ (exists b, bucketLights example_lights = Ok b /\
       layerIndexOf (lightIndexToLayerIndex b) <$> [0; 1; 2]%nat = [0; 1; 0] /\
       textureSizeLayerCount b !! 2%nat = Some 2 /\
       textureSizeLayerCount b !! 1%nat = Some 1).
Proof.
  intros (b & Hb & Hlayers & Hbig & _).
  vm_compute in Hb. injection Hb as <-. vm_compute in Hbig. discriminate.
Qed.

(** C2, amended. On a list of fewer than 256 lights whose shadow-casting
    directional lights ask for 256, 512, 1024 or 2048, the first loop
    gives every shadow-casting directional light its 0-based rank, in
    list order, among the shadow-casting directional lights of the same
    resolution, and counts in every bucket the shadow-casting
    directional lights of its resolution. *)
Theorem layer_index_is_rank (lights : list QSSGShaderLight) :
  supported lights = true ->
  (length lights < 256)%nat ->
  exists b, bucketLights lights = Ok b /\
    (forall i l, lights !! i = Some l ->
       shadows l = true -> type (light l) = DirectionalLight ->
       layerIndexOf (lightIndexToLayerIndex b) i
       = rankInBucket lights i (shadowMapRes l)) /\
    (forall k, (k < 4)%nat ->
       textureSizeLayerCount b !! k
       = Some (Z.of_nat (countb (sameRes (2 ^ (Z.of_nat k + 8))) lights))).
Proof.
  intros Hsup Hlen.
  destruct (bucketLights_total _ Hsup) as [b Hb]. exists b. split; [done|].
  destruct (bucketLights_spec _ _ Hb) as (_ & _ & _ & Hcnt & Hlay).
  split.
  - intros i l Hl Hs Ht.
    destruct (Hlay i l Hl) as (k & Hk & Hidx & ->).
    { apply castsVSM_directional. done. }
    unfold rankInBucket. rewrite (sameRes_of_bucket _ _ Hidx).
    rewrite (countb_ext (inBucket k) (sameRes (2 ^ (Z.of_nat k + 8)))).
    + apply quint8_small.
      pose proof (countb_le (sameRes (2 ^ (Z.of_nat k + 8))) (take i lights)).
      rewrite length_take in H. lia.
    + intros x _. apply inBucket_sameRes. lia.
  - intros k Hk. rewrite (Hcnt k Hk). f_equal.
    rewrite (countb_ext (inBucket k) (sameRes (2 ^ (Z.of_nat k + 8)))).
    + apply quint8_small.
      pose proof (countb_le (sameRes (2 ^ (Z.of_nat k + 8))) lights). lia.
    + intros x _. apply inBucket_sameRes. lia.
Qed.

Lemma layer_index_is_rank_witness :
  exists b, bucketLights example_lights = Ok b /\
    (forall i l, example_lights !! i = Some l ->
       shadows l = true -> type (light l) = DirectionalLight ->
       layerIndexOf (lightIndexToLayerIndex b) i
       = rankInBucket example_lights i (shadowMapRes l)) /\
    (forall k, (k < 4)%nat ->
       textureSizeLayerCount b !! k
       = Some (Z.of_nat (countb (sameRes (2 ^ (Z.of_nat k + 8))) example_lights))).
Proof.
  apply (layer_index_is_rank example_lights).
  - vm_compute. reflexivity.
  - vm_compute. lia.
Defined.

(** C5. The resolution 4096 passes the assertions of [mapSizeToIndex]
    with bucket index 4, and the access to the four counters of
    [textureSizeLayerCount] at that index is outside of the array:
    reconciling a list with such a light stops there. *)
Theorem resolution_4096_out_of_range (rhi : QRhi) (st : State) :
  mapSizeToIndex (shadowMapRes light_4096) = Ok 4 /\
  bucketLights [light_4096] = Err OutOfRange /\
  addShadowMaps (Some rhi) [light_4096] st = Err OutOfRange.
Proof.
  split_and!; [by vm_compute|by vm_compute|].
  unfold addShadowMaps, bind, reads.
  replace (bucketLights [light_4096]) with (@Err Buckets OutOfRange) by by vm_compute.
  reflexivity.
Qed.


(** ** Tear-down: proofs *)

Lemma qDeleteAll_lookup (ps : list (option handle)) :
  forall (hp : gmap nat RhiObject) (h : handle),
  qDeleteAll ps hp !! h = if decide (Some h ∈ ps) then None else hp !! h.
Proof.
  unfold qDeleteAll.
  induction ps as [|p ps IH]; intros hp h; cbn [foldl].
  - rewrite decide_False; [done|]. apply not_elem_of_nil.
  - rewrite IH. destruct (decide (Some h ∈ ps)) as [Hin|Hnin].
    + rewrite decide_True; [done|]. apply elem_of_cons. by right.
    + destruct p as [h'|]; cbn [deletePtr].
      * destruct (decide (h' = h)) as [->|Hne].
        -- rewrite lookup_delete_eq, decide_True; [done|]. apply elem_of_cons. by left.
        -- rewrite lookup_delete_ne by done. rewrite decide_False; [done|].
           intros [Heq|Hin]%elem_of_cons; [congruence|done].
      * rewrite decide_False; [done|].
        intros [Heq|Hin]%elem_of_cons; [congruence|done].
Qed.

Lemma destroyRhiResources_heap (e : QSSGShadowMapEntry) (hp : gmap nat RhiObject) :
  snd (destroyRhiResources e hp) = qDeleteAll (ownedPointers e) hp.
Proof.
  unfold destroyRhiResources, ownedPointers, qDeleteAll.
  cbn [snd app foldl]. rewrite foldl_app. reflexivity.
Qed.

Lemma elem_of_ownedHandles (e : QSSGShadowMapEntry) (h : handle) :
  h ∈ ownedHandles e <-> Some h ∈ ownedPointers e.
Proof.
  unfold ownedHandles. rewrite list_elem_of_omap. split.
  - intros (p & Hp & Hid). cbn in Hid. by subst p.
  - intros Hin. by exists (Some h).
Qed.

(** C10. [destroyRhiResources] deletes every object the entry owns (the
    depth copy, both cube maps, the depth-stencil buffer, all render
    targets and both render-pass descriptors) and nulls those fields; of
    the shared texture array it only clears the reference: every object
    that is not owned by the entry, the shared array among them, is left
    in the store as it was. *)
Theorem destroyRhiResources_spec (e : QSSGShadowMapEntry) (hp : gmap nat RhiObject) :
  let r := destroyRhiResources e hp in
  m_rhiDepthTextureArray (fst r) = None /\
  ownedPointers (fst r) = replicate (length (ownedPointers e)) None /\
  (forall h, h ∈ ownedHandles e -> snd r !! h = None) /\
  (forall h, h ∉ ownedHandles e -> snd r !! h = hp !! h) /\
  (forall a, m_rhiDepthTextureArray e = Some a -> a ∉ ownedHandles e ->
     snd r !! a = hp !! a).
Proof.
  intros r. subst r. rewrite destroyRhiResources_heap.
  assert (Hkeep : forall h, h ∉ ownedHandles e ->
            qDeleteAll (ownedPointers e) hp !! h = hp !! h).
  { intros h Hh. rewrite qDeleteAll_lookup, decide_False; [done|].
    by rewrite <- elem_of_ownedHandles. }
  split_and!.
  - reflexivity.
  - unfold ownedPointers, destroyRhiResources. cbn [fst m_rhiDepthCopy
      m_rhiDepthCube m_rhiCubeCopy m_rhiDepthStencil m_rhiRenderTargets
      m_rhiRenderPassDesc m_rhiBlurRenderTarget0 m_rhiBlurRenderTarget1
      m_rhiBlurRenderPassDesc].
    rewrite !length_app. cbn [length app].
    cbn [Nat.add replicate]. rewrite replicate_add. reflexivity.
  - intros h Hh. rewrite qDeleteAll_lookup, decide_True; [done|].
    by rewrite <- elem_of_ownedHandles.
  - exact Hkeep.
  - intros a _. apply Hkeep.
Qed.

Lemma destroyRhiResources_spec_witness :
  snd (destroyRhiResources example_entry example_heap) !! 0%nat
  = example_heap !! 0%nat.
Proof.
  apply (destroyRhiResources_spec example_entry example_heap).
  - reflexivity.
  - vm_compute. intros H. repeat (apply elem_of_cons in H as [H|H]; [lia|]).
    by apply elem_of_nil in H.
Defined.

(** C7. After [releaseCachedResources] the list of entries and the map
    of shared texture arrays are empty; a second call right after
    changes nothing at all, so it releases nothing further; and the
    destructor of the registry is a call of [releaseCachedResources]. *)
Theorem releaseCachedResources_spec (st : State) :
  m_shadowMapList (releaseCachedResources st) = [] /\
  m_depthTextureArrays (releaseCachedResources st) = ∅ /\
  releaseCachedResources (releaseCachedResources st) = releaseCachedResources st /\
  QSSGRenderShadowMap_destructor st = releaseCachedResources st.
Proof.
  split_and!; [reflexivity|reflexivity| |reflexivity].
  unfold releaseCachedResources at 1.
  cbn [m_shadowMapList m_depthTextureArrays heap nextHandle messages warned
       releaseCachedResources foldl].
  rewrite map_fold_empty. reflexivity.
Qed.


(** ** The rebuild decision: proofs *)

Lemma shadowMapEntry_nat (i : nat) (st : State) :
  shadowMapEntry (Z.of_nat i) st
  = Ok (find (fun pEntry => m_lightIndex pEntry =? Z.of_nat i) (m_shadowMapList st)).
Proof.
  unfold shadowMapEntry, rbind, Q_ASSERT.
  destruct (0 <=? Z.of_nat i) eqn:H; [done|]. apply Z.leb_gt in H. lia.
Qed.

Lemma shadowMapEntry_None (i : nat) (st : State) :
  shadowMapEntry (Z.of_nat i) st = Ok None <->
  forall e, e ∈ m_shadowMapList st -> m_lightIndex e <> Z.of_nat i.
Proof.
  rewrite shadowMapEntry_nat. split.
  - intros [= Hfind] e He Heq. apply list_elem_of_In in He.
    pose proof (find_none _ _ Hfind e He) as Hne. cbn in Hne.
    apply Z.eqb_neq in Hne. done.
  - intros Hall. f_equal.
    destruct (find _ _) as [e|] eqn:Hfind; [exfalso|done].
    apply find_some in Hfind as [He Heq]. apply Z.eqb_eq in Heq.
    apply list_elem_of_In in He. by apply (Hall e).
Qed.

Lemma shadowMapEntry_Some (i : nat) (st : State) (e : QSSGShadowMapEntry) :
  shadowMapEntry (Z.of_nat i) st = Ok (Some e) ->
  e ∈ m_shadowMapList st /\ m_lightIndex e = Z.of_nat i.
Proof.
  rewrite shadowMapEntry_nat. intros [= Hfind].
  apply find_some in Hfind as [He Heq]. apply Z.eqb_eq in Heq.
  by apply list_elem_of_In in He.
Qed.

Lemma isTexture_Some (hp : gmap nat RhiObject) (p : option handle) :
  isTexture hp p = true ->
  exists h fmt s n fl, p = Some h /\ hp !! h = Some (RhiTexture fmt s n fl).
Proof.
  unfold isTexture. destruct p as [h|]; [|done].
  destruct (hp !! h) as [[fmt s n fl| | |]|] eqn:Hh; try done.
  intros _. by exists h, fmt, s, n, fl.
Qed.

Lemma derefOk_entry (st : State) (e : QSSGShadowMapEntry) :
  derefOk st = true -> e ∈ m_shadowMapList st ->
  match m_shadowMapMode e with
  | CUBE => isTexture (heap st) (m_rhiCubeCopy e)
  | VSM => isTexture (heap st) (m_rhiDepthTextureArray e)
  end = true.
Proof.
  unfold derefOk. rewrite forallb_forall. intros Hall He.
  apply Hall. by apply list_elem_of_In.
Qed.

(** [isCompatible] decides the predicate of the spec. *)
Lemma isCompatible_spec (st : State) (e : QSSGShadowMapEntry) (size : QSize)
    (layerIndex : Z) (mode : ShadowMapModes) :
  derefOk st = true -> e ∈ m_shadowMapList st ->
  layerIndex < 2147483648 ->
  exists r, isCompatible e size layerIndex mode (heap st) = Ok r /\
    (r = true <-> compatible st e size layerIndex mode).
Proof.
  intros Hok He Hint. pose proof (derefOk_entry _ _ Hok He) as Hderef.
  unfold isCompatible. rewrite (toInt_small _ Hint). revert Hderef.
  generalize layerIndex. clear layerIndex Hint. intros layerIndex Hderef.
  unfold compatible.
  case_bool_decide as Hmode.
  { exists false. split; [done|]. split; [done|]. intros [Heq _]. congruence. }
  assert (Heq : m_shadowMapMode e = mode) by (destruct (decide (m_shadowMapMode e = mode)); [done|exfalso; auto]).
  rewrite Heq in Hderef. destruct mode.
  - apply isTexture_Some in Hderef as (h & fmt & s & n & fl & Hp & Hh).
    rewrite Hp. cbn [texturePixelSize textureArraySize]. rewrite Hh. cbn [rbind].
    case_bool_decide as Hsize.
    { exists false. split; [done|]. split; [done|].
      intros (_ & h' & fmt' & n' & fl' & [= <-] & Hh' & _). congruence. }
    destruct (n <=? layerIndex) eqn:Hlayer.
    { exists false. split; [done|]. split; [done|].
      intros (_ & h' & fmt' & n' & fl' & [= <-] & Hh' & Hlt).
      apply Z.leb_le in Hlayer. rewrite Hh in Hh'. injection Hh' as -> -> -> ->. lia. }
    exists true. split; [done|]. split; [|done]. intros _. split; [done|].
    apply Z.leb_gt in Hlayer.
    assert (size = s) as -> by (destruct (decide (size = s)); [done|exfalso; auto]).
    by exists h, fmt, n, fl.
  - apply isTexture_Some in Hderef as (h & fmt & s & n & fl & Hp & Hh).
    rewrite Hp. cbn [texturePixelSize]. rewrite Hh. cbn [rbind].
    case_bool_decide as Hsize.
    { exists false. split; [done|]. split; [done|].
      intros (_ & h' & fmt' & n' & fl' & [= <-] & Hh'). congruence. }
    exists true. split; [done|]. split; [|done]. intros _. split; [done|].
    assert (size = s) as -> by (destruct (decide (size = s)); [done|exfalso; auto]).
    by exists h, fmt, n, fl.
Qed.

(** It comes to an answer whatever the candidate. *)
Lemma isCompatible_total (st : State) (e : QSSGShadowMapEntry) (size : QSize)
    (layerIndex : Z) (mode : ShadowMapModes) :
  derefOk st = true -> e ∈ m_shadowMapList st ->
  exists r, isCompatible e size layerIndex mode (heap st) = Ok r.
Proof.
  intros Hok He. pose proof (derefOk_entry _ _ Hok He) as Hderef.
  unfold isCompatible. case_bool_decide as Hmode; [by eexists|].
  assert (Heq : m_shadowMapMode e = mode)
    by (destruct (decide (m_shadowMapMode e = mode)); [done|exfalso; auto]).
  rewrite Heq in Hderef.
  destruct mode;
    apply isTexture_Some in Hderef as (h & fmt & s & n & fl & Hp & Hh);
    rewrite Hp; cbn [texturePixelSize textureArraySize]; rewrite Hh; cbn [rbind];
    case_bool_decide; try (by eexists).
  destruct (n <=? toInt layerIndex); by eexists.
Qed.

(** The second loop answers [true] exactly when some shadow-casting
    light has no entry or an incompatible one. *)
Lemma propertiesChanged_spec (st : State) (l2l : list Z)
    (lights : list QSSGShaderLight) :
  derefOk st = true ->
  Forall (fun c => 0 <= c < 256) l2l ->
  forall i, exists r, propertiesChanged l2l i lights st = Ok r /\
    (r = true <-> lightChanged st l2l i lights).
Proof.
  intros Hok Hlayers. induction lights as [|l rest IH]; intros i.
  - exists false. split; [done|]. split; [done|].
    intros (j & l & Hl & _). by rewrite lookup_nil in Hl.
  - cbn [propertiesChanged].
    destruct (IH (S i)) as (r & Hr & Hiff).
    assert (Htail : lightChanged st l2l (S i) rest ->
                    lightChanged st l2l i (l :: rest)).
    { intros (j & l' & Hl' & Hs & Hcause). exists (S j), l'.
      replace (i + S j)%nat with (S i + j)%nat by lia. done. }
    assert (Hsplit : lightChanged st l2l i (l :: rest) ->
              (shadows l = true /\
               ((forall e, e ∈ m_shadowMapList st -> m_lightIndex e <> Z.of_nat i) \/
                exists e, shadowMapEntry (Z.of_nat i) st = Ok (Some e) /\
                  ~ compatible st e (QSize_of (shadowMapRes l) (shadowMapRes l))
                      (candidateLayer l2l i l) (mapModeOf l))) \/
              lightChanged st l2l (S i) rest).
    { intros ([|j] & l' & Hl' & Hs & Hcause); cbn in Hl'.
      - injection Hl' as <-. rewrite Nat.add_0_r in Hcause. by left.
      - right. exists j, l'. replace (S i + j)%nat with (i + S j)%nat by lia. done. }
    destruct (shadows l) eqn:Hs; cbn [negb].
    + rewrite shadowMapEntry_nat. cbn [rbind].
      destruct (find _ _) as [e|] eqn:Hfind.
      * assert (Hentry : shadowMapEntry (Z.of_nat i) st = Ok (Some e)).
        { by rewrite shadowMapEntry_nat, Hfind. }
        destruct (shadowMapEntry_Some _ _ _ Hentry) as [He Hidx].
        destruct (isCompatible_spec st e (QSize_of (shadowMapRes l) (shadowMapRes l))
                    (candidateLayer l2l i l) (mapModeOf l) Hok He)
          as (c & Hc & Hciff).
        { pose proof (candidateLayer_bound l2l i l Hlayers). lia. }
        unfold candidateLayer in Hc. rewrite Hc. cbn [rbind].
        destruct c; cbn [negb].
        -- exists r. split; [done|]. rewrite Hiff. split; [done|].
           intros [(_ & [Hnone|(e' & He' & Hinc)])|Hrest]%Hsplit; [| |done].
           ++ exfalso. by apply (Hnone e).
           ++ exfalso. rewrite Hentry in He'. injection He' as <-.
              apply Hinc, Hciff. done.
        -- exists true. split; [done|]. split; [|done]. intros _.
           exists 0%nat, l. rewrite Nat.add_0_r. split_and!; [done|done|].
           right. exists e. split; [done|]. intros Hcompat.
           apply Hciff in Hcompat. done.
      * exists true. split; [done|]. split; [|done]. intros _.
        exists 0%nat, l. rewrite Nat.add_0_r. split_and!; [done|done|].
        left. apply shadowMapEntry_None. by rewrite shadowMapEntry_nat, Hfind.
    + exists r. split; [done|]. rewrite Hiff. split; [done|].
      intros [[? _]|Hrest]%Hsplit; done.
Qed.

(** What an answer [true] of [isCompatible], and an answer [false] of
    the second loop, tell. *)
Lemma isCompatible_true_mode (e : QSSGShadowMapEntry) (size : QSize) (layerIndex : Z)
    (mode : ShadowMapModes) (hp : gmap nat RhiObject) :
  isCompatible e size layerIndex mode hp = Ok true -> m_shadowMapMode e = mode.
Proof.
  unfold isCompatible. case_bool_decide as Hmode; [done|]. intros _.
  destruct (decide (mode = m_shadowMapMode e)); [done|]. exfalso. auto.
Qed.

Lemma propertiesChanged_settled (st : State) (l2l : list Z)
    (lights : list QSSGShaderLight) :
  forall i, propertiesChanged l2l i lights st = Ok false ->
  forall j l, lights !! j = Some l -> shadows l = true ->
  exists e, shadowMapEntry (Z.of_nat (i + j)) st = Ok (Some e) /\
    isCompatible e (QSize_of (shadowMapRes l) (shadowMapRes l))
      (candidateLayer l2l (i + j) l) (mapModeOf l) (heap st) = Ok true.
Proof.
  induction lights as [|l0 rest IH]; intros i Hrun j l Hj Hs.
  - by rewrite lookup_nil in Hj.
  - cbn [propertiesChanged] in Hrun.
    assert (Hrest : propertiesChanged l2l (S i) rest st = Ok false ->
              forall j', rest !! j' = Some l ->
              exists e, shadowMapEntry (Z.of_nat (i + S j')) st = Ok (Some e) /\
                isCompatible e (QSize_of (shadowMapRes l) (shadowMapRes l))
                  (candidateLayer l2l (i + S j') l) (mapModeOf l) (heap st) = Ok true).
    { intros Hrun' j' Hj'. replace (i + S j')%nat with (S i + j')%nat by lia.
      by apply IH. }
    destruct (shadows l0) eqn:Hs0; cbn [negb] in Hrun.
    + destruct (shadowMapEntry (Z.of_nat i) st) as [[e|]|] eqn:He; cbn [rbind] in Hrun;
        [|done|done].
      destruct (isCompatible e _ _ _ _) as [[|]|] eqn:Hc; cbn [rbind negb] in Hrun;
        [|done|done].
      destruct j as [|j]; cbn in Hj.
      * injection Hj as <-. rewrite Nat.add_0_r. by exists e.
      * by apply Hrest.
    + destruct j as [|j]; cbn in Hj; [congruence|]. by apply Hrest.
Qed.

(** The decision of [addShadowMaps], loop and count together. *)
Lemma needsRebuild_decides (lights : list QSSGShaderLight) (b : Buckets) (st : State) :
  bucketLights lights = Ok b ->
  derefOk st = true ->
  exists r, needsRebuild lights b st = Ok r /\
    (r = true <-> rebuildCause lights b st).
Proof.
  intros Hb Hok. unfold needsRebuild, rebuildCause.
  destruct (bucketLights_spec _ _ Hb) as (-> & _).
  destruct (Z.of_nat (countb shadows lights) =? shadowMapEntryCount st) eqn:Hcount;
    cbn [negb].
  - apply Z.eqb_eq in Hcount.
    destruct (propertiesChanged_spec st (lightIndexToLayerIndex b) lights Hok
                (bucketLights_layers _ _ Hb) 0%nat)
      as (r & Hr & Hiff).
    exists r. split; [done|]. rewrite Hiff. split; [by right|].
    intros [Hne|Hch]; done.
  - apply Z.eqb_neq in Hcount. exists true. split; [done|]. split; [|done].
    intros _. by left.
Qed.

(** C3. With the buckets of the first loop, and every entry pointing to
    its texture, [addShadowMaps] decides to rebuild exactly when the
    number of shadow-casting lights differs from the number of entries,
    or some shadow-casting light has no entry for its index, or the
    entry of that light is not compatible with the light's candidate
    size, layer index and mode. *)
Theorem needsRebuild_spec (lights : list QSSGShaderLight) (b : Buckets) (st : State) :
  bucketLights lights = Ok b ->
  derefOk st = true ->
  exists r, needsRebuild lights b st = Ok r /\
    (r = true <-> rebuildCause lights b st).
Proof. apply needsRebuild_decides. Qed.


(** ** Construction: symbolic execution of the member functions *)

Lemma alter_back_snoc {A} (f : A -> A) (l : list A) (x : A) :
  alter_back f (l ++ [x]) = l ++ [f x].
Proof.
  induction l as [|y l IH]; [reflexivity|].
  cbn [app alter_back]. rewrite IH. destruct l; reflexivity.
Qed.

(** Unfolds the monad, the primitives and the field updates, and leaves
    the operations on the store and on the list of entries in place. *)
Ltac run :=
  cbv beta iota zeta delta
    [bind ret reads modify gets assert Q_ASSERT rbind newObject updObject
     qWarning_if push_back pEntry_get pEntry_set allocateRhiShadowTexture
     allocateRhiShadowRenderBuffer hasFlag existsb TextureFlag_eqb orb negb isNull
     for_each cubeFaceTarget cubeAttachments QSSGRenderTextureCubeFaces map
     faceIndex withRhiDepthCubeMap withRhiDepthMap QSSGShadowMapEntry_default
     replicate renderTarget set_renderTarget set_renderTargets
     set_renderPassDesc set_blurRenderTarget0 set_blurRenderTarget1
     set_blurRenderPassDesc set_indices from_option id lookup insert
     list_lookup list_insert
     set_shadowMapList set_depthTextureArrays set_heap set_nextHandle
     set_messages set_warned
     m_shadowMapList m_depthTextureArrays heap nextHandle messages warned
     m_lightIndex m_shadowMapMode m_rhiDepthTextureArray m_rhiDepthCopy
     m_rhiDepthCube m_rhiCubeCopy m_rhiDepthStencil m_rhiRenderTargets
     m_rhiRenderPassDesc m_rhiBlurRenderTarget0 m_rhiBlurRenderTarget1
     m_rhiBlurRenderPassDesc m_depthArrayIndex].

Ltac proj :=
  cbv beta iota delta
    [m_shadowMapList m_depthTextureArrays heap nextHandle messages warned].

(** Runs until the next read or write through [pEntry]. *)
Ltac exec := run; repeat (first [rewrite last_snoc | rewrite alter_back_snoc]; run).

(** Looks an object up under the allocations and setters that followed. *)
Ltac heap_lookup :=
  unfold store;
  repeat first [rewrite lookup_alter_eq | rewrite lookup_alter_ne by lia
               | rewrite lookup_insert_eq | rewrite lookup_insert_ne by lia].

Lemma count_occ_snoc_other (ms : list Message) (c : bool) (m : Message) :
  m <> CubeNotBlurred ->
  count_occ Message_eq_dec (ms ++ (if c then [m] else [])) CubeNotBlurred
  = count_occ Message_eq_dec ms CubeNotBlurred.
Proof.
  intros Hne. rewrite count_occ_app.
  destruct c; cbn; [|lia]. destruct (Message_eq_dec m CubeNotBlurred); [done|lia].
Qed.

Lemma count_occ_snoc_shortfall (ms : list Message) :
  count_occ Message_eq_dec (ms ++ [CubeNotBlurred]) CubeNotBlurred
  = S (count_occ Message_eq_dec ms CubeNotBlurred).
Proof.
  rewrite count_occ_app. cbn.
  destruct (Message_eq_dec CubeNotBlurred CubeNotBlurred); [lia|done].
Qed.

Ltac count_msgs :=
  repeat first [rewrite count_occ_snoc_shortfall
               | rewrite count_occ_snoc_other by discriminate].

Ltac live_targets :=
  cbn [app cubeEntry vsmEntry m_rhiRenderTargets m_rhiBlurRenderTarget0
       m_rhiBlurRenderTarget1];
  repeat apply Forall_cons_2; try apply Forall_nil_2; unfold isRenderTarget;
  try done; heap_lookup; cbn; eauto.

(** What [addCubeShadowMap] does to a registry without an entry for the
    light. *)
Lemma addCubeShadowMap_spec (rhi : QRhi) (idx : Z) (size : QSize) (name : string)
    (st : State) :
  shadowMapEntry idx st = Ok None ->
  exists st', addCubeShadowMap rhi idx size name st = Ok (tt, st') /\
    m_shadowMapList st'
    = m_shadowMapList st ++ [cubeEntry (canBlur rhi) (nextHandle st) idx] /\
    m_depthTextureArrays st' = m_depthTextureArrays st /\
    nextHandle st' = ((if canBlur rhi then 13 else 10) + nextHandle st)%nat /\
    (forall h, (h < nextHandle st)%nat -> heap st' !! h = heap st !! h) /\
    heap st' !! (1 + nextHandle st)%nat
    = Some (RhiTexture (getShadowMapTextureFormat rhi) size 0 [RenderTarget; CubeMap]) /\
    liveTargets (heap st') (cubeEntry (canBlur rhi) (nextHandle st) idx) /\
    warned st' = (warned st || negb (canBlur rhi)) /\
    shortfalls st' = (shortfalls st + if canBlur rhi || warned st then 0 else 1)%nat.
Proof.
  intros Hfind. destruct st as [l arrs hp n msgs w].
  unfold canBlur.
  destruct (6 <=? MaxColorAttachments rhi) eqn:Hblur; [|destruct w];
    (eexists; split;
     [unfold addCubeShadowMap; unfold bind at 1; unfold reads at 1;
      rewrite Hfind; exec; rewrite Hblur; exec; reflexivity|]);
    unfold shortfalls, liveTargets; proj.
  all: split_and!; try reflexivity.
  all: try (intros h Hh; by heap_lookup).
  all: try (by heap_lookup).
  all: try (count_msgs; rewrite ?Nat.add_0_r, ?Nat.add_1_r; reflexivity).
  all: try (by destruct w).
  all: live_targets.
Qed.

(** What [addDirectionalShadowMap] does to a registry without an entry
    for the light and with a shared array of the requested size. *)
Lemma addDirectionalShadowMap_spec (rhi : QRhi) (idx : Z) (size : QSize)
    (layerIndex : Z) (name : string) (st : State) (tex : handle) :
  shadowMapEntry idx st = Ok None ->
  m_depthTextureArrays st !! size = Some tex ->
  exists st', addDirectionalShadowMap rhi idx size layerIndex name st = Ok (tt, st') /\
    m_shadowMapList st'
    = m_shadowMapList st ++ [vsmEntry (nextHandle st) idx (Some tex) layerIndex] /\
    m_depthTextureArrays st' = m_depthTextureArrays st /\
    nextHandle st' = (7 + nextHandle st)%nat /\
    (forall h, (h < nextHandle st)%nat -> heap st' !! h = heap st !! h) /\
    liveTargets (heap st') (vsmEntry (nextHandle st) idx (Some tex) layerIndex) /\
    warned st' = warned st /\
    shortfalls st' = shortfalls st.
Proof.
  intros Hfind Harr. destruct st as [l arrs hp n msgs w].
  cbn [m_depthTextureArrays] in Harr. unfold lookup in Harr.
  eexists. split.
  { unfold addDirectionalShadowMap. unfold bind at 1. unfold reads at 1.
    rewrite Hfind. exec. rewrite Harr. exec. reflexivity. }
  unfold shortfalls, liveTargets. proj.
  split_and!; try reflexivity.
  - intros h Hh. by heap_lookup.
  - live_targets.
  - count_msgs. reflexivity.
Qed.

(** The sizes of the buckets are far below 2^31. *)
Lemma QSize_of_bucket (i : nat) :
  (i <= 4)%nat ->
  QSize_of (2 ^ (Z.of_nat i + 8)) (2 ^ (Z.of_nat i + 8)) = bucketSize i.
Proof. intros Hi. do 5 (destruct i as [|i]; [by vm_compute|]). lia. Qed.

(** The [QSize] of a resolution that has a bucket is the bucket's size. *)
Lemma QSize_of_res (l : QSSGShaderLight) (k : nat) :
  mapSizeToIndex (shadowMapRes l) = Ok (Z.of_nat k) ->
  QSize_of (shadowMapRes l) (shadowMapRes l) = bucketSize k.
Proof.
  intros Hidx. destruct (shadowMapRes_index _ _ Hidx) as [Hrange ->].
  apply QSize_of_bucket. lia.
Qed.

(** What one iteration of the third loop does for a bucket in use. *)
Lemma createTextureArray_spec (rhi : QRhi) (i : nat) (numLayers : Z) (st : State) :
  (i <= 4)%nat -> numLayers <> 0 ->
  exists st', createTextureArray rhi i numLayers st = Ok (tt, st') /\
    m_shadowMapList st' = m_shadowMapList st /\
    m_depthTextureArrays st'
    = <[bucketSize i := nextHandle st]> (m_depthTextureArrays st) /\
    nextHandle st' = S (nextHandle st) /\
    (forall h, (h < nextHandle st)%nat -> heap st' !! h = heap st !! h) /\
    heap st' !! nextHandle st
    = Some (RhiTexture (getShadowMapTextureFormat rhi) (bucketSize i) numLayers
              [RenderTarget; TextureArray]) /\
    warned st' = warned st /\
    shortfalls st' = shortfalls st.
Proof.
  intros Hi Hn. destruct st as [l arrs hp n msgs w].
  eexists. split.
  { unfold createTextureArray. apply Z.eqb_neq in Hn. rewrite Hn.
    unfold bind at 1. unfold reads at 1. rewrite (indexToMapSize_bucket i Hi).
    cbn [rbind]. rewrite (QSize_of_bucket i Hi). exec. reflexivity. }
  unfold shortfalls. proj.
  split_and!; try reflexivity.
  - intros h Hh. by heap_lookup.
  - heap_lookup. reflexivity.
  - count_msgs. reflexivity.
Qed.


(** ** The third loop: one shared array per bucket in use *)

Lemma bucketSize_inj (k k' : nat) : bucketSize k = bucketSize k' -> k = k'.
Proof. unfold bucketSize. intros [= H _]. by apply pow2_bucket_inj. Qed.

Lemma createTextureArrays_spec (rhi : QRhi) (counts : list Z) :
  forall (i : nat) (st : State),
  (i + length counts <= 5)%nat ->
  exists st', for_each (createTextureArray rhi) i counts st = Ok (tt, st') /\
    m_shadowMapList st' = m_shadowMapList st /\
    warned st' = warned st /\
    shortfalls st' = shortfalls st /\
    nextHandle st' = (nextHandle st + usedBuckets counts)%nat /\
    (forall h, (h < nextHandle st)%nat -> heap st' !! h = heap st !! h) /\
    (forall k c, counts !! k = Some c -> c <> 0 ->
       exists h, m_depthTextureArrays st' !! bucketSize (i + k) = Some h /\
         (nextHandle st <= h < nextHandle st')%nat /\
         heap st' !! h
         = Some (RhiTexture (getShadowMapTextureFormat rhi) (bucketSize (i + k)) c
                   [RenderTarget; TextureArray])) /\
    (forall size,
       (forall k c, counts !! k = Some c -> c <> 0 -> size <> bucketSize (i + k)) ->
       m_depthTextureArrays st' !! size = m_depthTextureArrays st !! size).
Proof.
  induction counts as [|c rest IH]; intros i st Hlen.
  - exists st. cbn [for_each]. unfold usedBuckets, countb. cbn.
    split_and!; try done.
    all: try (by rewrite Nat.add_0_r).
    all: intros k c Hk; by rewrite lookup_nil in Hk.
  - cbn [for_each length] in *. unfold bind at 1.
    destruct (decide (c = 0)) as [->|Hc].
    + unfold createTextureArray at 1. cbn [Z.eqb ret].
      destruct (IH (S i) st ltac:(lia))
        as (st' & Hrun & Hl & Hw & Hs & Hn & Hframe & Harr & Hother).
      exists st'. unfold usedBuckets in *. rewrite countb_cons. cbn [Z.eqb negb].
      split_and!; try done.
      * intros [|k] c' Hk Hc'; cbn in Hk; [congruence|].
        replace (i + S k)%nat with (S i + k)%nat by lia. by apply Harr.
      * intros size Hsize. apply Hother. intros k c' Hk Hc'.
        replace (S i + k)%nat with (i + S k)%nat by lia. by apply (Hsize (S k) c').
    + destruct (createTextureArray_spec rhi i c st ltac:(lia) Hc)
        as (st1 & -> & Hl1 & Ha1 & Hn1 & Hframe1 & Hh1 & Hw1 & Hs1).
      destruct (IH (S i) st1 ltac:(lia))
        as (st' & Hrun & Hl & Hw & Hs & Hn & Hframe & Harr & Hother).
      exists st'. unfold usedBuckets in *. rewrite countb_cons.
      assert (Hnz : negb (c =? 0) = true).
      { apply negb_true_iff. by apply Z.eqb_neq. }
      rewrite Hnz.
      split_and!; try congruence.
      * lia.
      * intros h Hh. rewrite Hframe by lia. by apply Hframe1.
      * intros [|k] c' Hk Hc'; cbn in Hk.
        -- injection Hk as <-. rewrite Nat.add_0_r.
           exists (nextHandle st). split_and!; try lia.
           ++ rewrite Hother.
              ** rewrite Ha1. apply lookup_insert_eq.
              ** intros k c'' Hk Hc'' Heq. apply bucketSize_inj in Heq. lia.
           ++ rewrite Hframe by lia. done.
        -- replace (i + S k)%nat with (S i + k)%nat by lia.
           destruct (Harr k c' Hk Hc') as (h & Hh & Hrange & Hobj).
           exists h. split_and!; try done; lia.
      * intros size Hsize. rewrite Hother.
        -- rewrite Ha1. apply lookup_insert_ne. intros Heq.
           apply (Hsize 0%nat c); [done|done|]. by rewrite Nat.add_0_r.
        -- intros k c' Hk Hc'.
           replace (S i + k)%nat with (i + S k)%nat by lia. by apply (Hsize (S k) c').
Qed.

(** ** The fourth loop: one entry per shadow-casting light *)

Lemma mapModeOf_VSM_casts (l : QSSGShaderLight) :
  shadows l = true -> mapModeOf l = VSM -> castsVSM l = true.
Proof. unfold castsVSM. by intros -> ->. Qed.

Lemma mapModeOf_CUBE_casts (l : QSSGShaderLight) :
  shadows l = true -> mapModeOf l = CUBE -> castsCUBE l = true.
Proof. unfold castsCUBE. by intros -> ->. Qed.

Lemma castsCUBE_not_shadows (l : QSSGShaderLight) :
  shadows l = false -> castsCUBE l = false.
Proof. unfold castsCUBE. by intros ->. Qed.

Lemma castsCUBE_VSM (l : QSSGShaderLight) :
  mapModeOf l = VSM -> castsCUBE l = false.
Proof. unfold castsCUBE. intros ->. by destruct (shadows l). Qed.

Lemma liveTargets_frame (hp hp' : gmap nat RhiObject) (e : QSSGShadowMapEntry)
    (bound : handle) :
  (forall h, (h < bound)%nat -> hp' !! h = hp !! h) ->
  Forall (fun p => match p with Some h => (h < bound)%nat | None => True end)
    (m_rhiRenderTargets e ++ [m_rhiBlurRenderTarget0 e; m_rhiBlurRenderTarget1 e]) ->
  liveTargets hp e -> liveTargets hp' e.
Proof.
  intros Hframe Hbound. unfold liveTargets.
  induction Hbound as [|p ps Hp _ IH]; intros Hlive; [done|].
  apply Forall_cons in Hlive as [Hhead Htail].
  apply Forall_cons. split; [|by apply IH].
  destruct p as [h|]; [|done]. cbn in *. by rewrite Hframe.
Qed.

Lemma entryOf_frame (rhi : QRhi) (l2l : list Z) (arrays : gmap (Z * Z) nat)
    (hp hp' : gmap nat RhiObject) (lo lo' hi hi' : handle) (i : nat)
    (l : QSSGShaderLight) (e : QSSGShadowMapEntry) :
  (forall h, (h < hi)%nat -> hp' !! h = hp !! h) ->
  (lo' <= lo)%nat -> (hi <= hi')%nat ->
  entryOf rhi l2l arrays hp lo hi i l e ->
  entryOf rhi l2l arrays hp' lo' hi' i l e.
Proof.
  intros Hframe Hlo Hhi (n & Hn & Hspan & Hlive & Hshape).
  exists n. split_and!; [lia|lia| |]; unfold handleSpan in Hspan.
  - apply (liveTargets_frame hp hp' e hi Hframe); [|done].
    destruct (mapModeOf l).
    + destruct Hshape as (tex & _ & ->). cbn.
      repeat apply Forall_cons_2; try apply Forall_nil_2; try done; lia.
    + destruct Hshape as [-> _]. destruct (canBlur rhi); cbn;
        repeat apply Forall_cons_2; try apply Forall_nil_2; try done; lia.
  - destruct (mapModeOf l); [done|].
    destruct Hshape as [-> Hcopy]. split; [done|].
    rewrite Hframe; [done|]. destruct (canBlur rhi); lia.
Qed.

Lemma hitsFallback_cons (rhi : QRhi) (l : QSSGShaderLight)
    (rest : list QSSGShaderLight) :
  hitsFallback rhi (l :: rest)
  = (negb (canBlur rhi) && castsCUBE l) || hitsFallback rhi rest.
Proof.
  unfold hitsFallback. cbn [existsb].
  destruct (canBlur rhi), (castsCUBE l), (existsb castsCUBE rest); reflexivity.
Qed.

Lemma setupRenderTargets_spec (rhi : QRhi) (l2l : list Z)
    (lights : list QSSGShaderLight) :
  forall (i : nat) (st : State),
  (forall e, e ∈ m_shadowMapList st -> m_lightIndex e < Z.of_nat i) ->
  (forall l, l ∈ lights -> castsVSM l = true ->
     is_Some (m_depthTextureArrays st !! (QSize_of (shadowMapRes l) (shadowMapRes l)))) ->
  exists st' news,
    for_each (setupRenderTarget rhi l2l) i lights st = Ok (tt, st') /\
    m_shadowMapList st' = m_shadowMapList st ++ news /\
    m_depthTextureArrays st' = m_depthTextureArrays st /\
    (nextHandle st <= nextHandle st')%nat /\
    (forall h, (h < nextHandle st)%nat -> heap st' !! h = heap st !! h) /\
    Forall2 (fun jl e => entryOf rhi l2l (m_depthTextureArrays st) (heap st')
                           (nextHandle st) (nextHandle st') jl.1 jl.2 e)
            (shadowCasters i lights) news /\
    warned st' = (warned st || hitsFallback rhi lights) /\
    shortfalls st'
    = (shortfalls st + if negb (warned st) && hitsFallback rhi lights then 1 else 0)%nat.
Proof.
  induction lights as [|l rest IH]; intros i st Hidx Harr.
  - exists st, []. cbn [for_each shadowCasters]. unfold hitsFallback. cbn [existsb].
    rewrite !andb_false_r, orb_false_r, app_nil_r, Nat.add_0_r.
    split_and!; try done; constructor.
  - cbn [for_each shadowCasters]. unfold bind at 1.
    rewrite hitsFallback_cons.
    assert (Harr' : forall st1, m_depthTextureArrays st1 = m_depthTextureArrays st ->
              forall l', l' ∈ rest -> castsVSM l' = true ->
              is_Some (m_depthTextureArrays st1 !! (QSize_of (shadowMapRes l') (shadowMapRes l')))).
    { intros st1 -> l' Hl' Hc'. apply Harr; [set_solver|done]. }
    unfold setupRenderTarget at 1.
    destruct (shadows l) eqn:Hs; cbn [negb].
    2: { cbn [ret].
         destruct (IH (S i) st) as (st' & news & Hrun & Hrest).
         { intros e He. specialize (Hidx e He). lia. }
         { by apply Harr'. }
         exists st', news. rewrite (castsCUBE_not_shadows l Hs), andb_false_r.
         by split. }
    assert (Hnone : shadowMapEntry (Z.of_nat i) st = Ok None).
    { apply shadowMapEntry_None. intros e He. specialize (Hidx e He). lia. }
    destruct (mapModeOf l) eqn:Hmode.
    + (* a directional light *)
      destruct (Harr l ltac:(set_solver) (mapModeOf_VSM_casts l Hs Hmode)) as [tex Htex].
      destruct (addDirectionalShadowMap_spec rhi (Z.of_nat i)
                  (QSize_of (shadowMapRes l) (shadowMapRes l)) (layerIndexOf l2l i)
                  (debugObjectName (light l)) st tex Hnone Htex)
        as (st1 & -> & Hl1 & Ha1 & Hn1 & Hframe1 & Hlive1 & Hw1 & Hs1).
      destruct (IH (S i) st1)
        as (st' & news & Hrun & Hl & Ha & Hn & Hframe & Hall & Hw & Hsf).
      { intros e. rewrite Hl1, elem_of_app, list_elem_of_singleton.
        intros [He| ->]; [specialize (Hidx e He); lia|cbn; lia]. }
      { by apply Harr'. }
      exists st', (vsmEntry (nextHandle st) (Z.of_nat i) (Some tex) (layerIndexOf l2l i)
                   :: news).
      rewrite (castsCUBE_VSM l Hmode), andb_false_r, orb_false_l.
      split_and!; try done.
      * by rewrite Hl, Hl1, <- app_assoc.
      * congruence.
      * lia.
      * intros h Hh. rewrite Hframe by lia. by apply Hframe1.
      * constructor.
        -- cbn [fst snd].
           exists (nextHandle st). unfold handleSpan. rewrite Hmode.
           split_and!; [lia|lia| |by exists tex].
           apply (liveTargets_frame (heap st1) (heap st') _ (nextHandle st1));
             [done| |done].
           cbn. repeat apply Forall_cons_2; try apply Forall_nil_2; try done; lia.
        -- eapply Forall2_impl; [exact Hall|]. intros [j l'] e He. cbn [fst snd] in *.
           rewrite Ha1 in He.
           apply (entryOf_frame rhi l2l _ (heap st') (heap st') (nextHandle st1)
                    (nextHandle st) (nextHandle st') (nextHandle st') j l' e);
             [done|lia|lia|done].
      * by rewrite Hw, Hw1.
      * by rewrite Hsf, Hs1, Hw1.
    + (* a point or spot light *)
      destruct (addCubeShadowMap_spec rhi (Z.of_nat i)
                  (QSize_of (shadowMapRes l) (shadowMapRes l))
                  (debugObjectName (light l)) st Hnone)
        as (st1 & -> & Hl1 & Ha1 & Hn1 & Hframe1 & Hcopy1 & Hlive1 & Hw1 & Hs1).
      assert (Hspan1 : (nextHandle st < nextHandle st1)%nat)
        by (destruct (canBlur rhi); lia).
      destruct (IH (S i) st1)
        as (st' & news & Hrun & Hl & Ha & Hn & Hframe & Hall & Hw & Hsf).
      { intros e. rewrite Hl1, elem_of_app, list_elem_of_singleton.
        intros [He| ->]; [specialize (Hidx e He); lia|cbn; lia]. }
      { by apply Harr'. }
      exists st', (cubeEntry (canBlur rhi) (nextHandle st) (Z.of_nat i) :: news).
      rewrite (mapModeOf_CUBE_casts l Hs Hmode), andb_true_r.
      split_and!; try done.
      * by rewrite Hl, Hl1, <- app_assoc.
      * congruence.
      * lia.
      * intros h Hh. rewrite Hframe by lia. by apply Hframe1.
      * constructor.
        -- cbn [fst snd].
           exists (nextHandle st). unfold handleSpan. rewrite Hmode.
           split_and!; [lia|destruct (canBlur rhi); lia| |done|].
           ++ apply (liveTargets_frame (heap st1) (heap st') _ (nextHandle st1));
                [done| |done].
              destruct (canBlur rhi); cbn;
                repeat apply Forall_cons_2; try apply Forall_nil_2; try done; lia.
           ++ rewrite Hframe; [done|]. destruct (canBlur rhi); lia.
        -- eapply Forall2_impl; [exact Hall|]. intros [j l'] e He. cbn [fst snd] in *.
           rewrite Ha1 in He.
           apply (entryOf_frame rhi l2l _ (heap st') (heap st') (nextHandle st1)
                    (nextHandle st) (nextHandle st') (nextHandle st') j l' e);
             [done|lia|lia|done].
      * rewrite Hw, Hw1.
        destruct (warned st), (canBlur rhi), (hitsFallback rhi rest); reflexivity.
      * rewrite Hsf, Hs1, Hw1.
        destruct (warned st), (canBlur rhi), (hitsFallback rhi rest); cbn; lia.
Qed.


(** ** The rebuild as a whole *)

Lemma countb_take_lt {A} (f : A -> bool) (l : list A) (j : nat) (x : A) :
  l !! j = Some x -> f x = true -> (countb f (take j l) < countb f l)%nat.
Proof.
  intros Hj Hx. rewrite <- (take_drop_middle l j x Hj) at 2.
  rewrite countb_app, countb_cons, Hx. lia.
Qed.

Lemma countb_pos {A} (f : A -> bool) (l : list A) (x : A) :
  x ∈ l -> f x = true -> (0 < countb f l)%nat.
Proof.
  intros [j Hj]%list_elem_of_lookup Hx.
  pose proof (countb_take_lt f l j x Hj Hx). lia.
Qed.

Lemma length_shadowCasters (lights : list QSSGShaderLight) (i : nat) :
  length (shadowCasters i lights) = countb shadows lights.
Proof.
  revert i. induction lights as [|l rest IH]; intros i; [done|].
  cbn [shadowCasters]. rewrite countb_cons.
  destruct (shadows l); cbn [length]; by rewrite IH.
Qed.

(** The number of layers of bucket [k] on a list of fewer than 256
    lights. *)
Lemma bucket_count (lights : list QSSGShaderLight) (b : Buckets) (k : nat) :
  (length lights < 256)%nat -> bucketLights lights = Ok b -> (k < 4)%nat ->
  textureSizeLayerCount b !! k
  = Some (Z.of_nat (countb (sameRes (2 ^ (Z.of_nat k + 8))) lights)).
Proof.
  intros Hlen Hb Hk.
  destruct (bucketLights_spec _ _ Hb) as (_ & _ & _ & Hcnt & _).
  rewrite (Hcnt k Hk). f_equal.
  rewrite (countb_ext (inBucket k) (sameRes (2 ^ (Z.of_nat k + 8)))).
  - apply quint8_small.
    pose proof (countb_le (sameRes (2 ^ (Z.of_nat k + 8))) lights). lia.
  - intros x _. apply inBucket_sameRes. lia.
Qed.

(** The layer of a light that takes one, on a list of fewer than 256
    lights. *)
Lemma layer_index (lights : list QSSGShaderLight) (b : Buckets) (j : nat)
    (l : QSSGShaderLight) :
  (length lights < 256)%nat -> bucketLights lights = Ok b ->
  lights !! j = Some l -> castsVSM l = true ->
  exists k, (k < 4)%nat /\ shadowMapRes l = 2 ^ (Z.of_nat k + 8) /\
    layerIndexOf (lightIndexToLayerIndex b) j
    = Z.of_nat (countb (sameRes (shadowMapRes l)) (take j lights)).
Proof.
  intros Hlen Hb Hj Hc.
  destruct (bucketLights_spec _ _ Hb) as (_ & _ & _ & _ & Hlay).
  destruct (Hlay j l Hj Hc) as (k & Hk & Hidx & ->).
  exists k. split_and!; [done|by apply sameRes_of_bucket|].
  rewrite (sameRes_of_bucket _ _ Hidx).
  rewrite (countb_ext (inBucket k) (sameRes (2 ^ (Z.of_nat k + 8)))).
  - apply quint8_small.
    pose proof (countb_le (sameRes (2 ^ (Z.of_nat k + 8))) (take j lights)).
    rewrite length_take in H. lia.
  - intros x _. apply inBucket_sameRes. lia.
Qed.

Lemma sameRes_self (l : QSSGShaderLight) :
  castsVSM l = true -> sameRes (shadowMapRes l) l = true.
Proof. intros Hc. unfold sameRes. rewrite Hc. cbn. apply Z.eqb_refl. Qed.

(** What a rebuild leaves behind: the shared arrays of the buckets in
    use, allocated first, then one entry per shadow-casting light. *)
Lemma rebuild_spec (rhi : QRhi) (lights : list QSSGShaderLight) (b : Buckets)
    (st : State) :
  (length lights < 256)%nat ->
  bucketLights lights = Ok b ->
  exists sta st1,
    for_each (createTextureArray rhi) 0 (textureSizeLayerCount b)
      (releaseCachedResources st) = Ok (tt, sta) /\
    for_each (setupRenderTarget rhi (lightIndexToLayerIndex b)) 0 lights sta
    = Ok (tt, st1) /\
    rebuild rhi lights b st = Ok (tt, st1) /\
    nextHandle sta = (nextHandle st + usedBuckets (textureSizeLayerCount b))%nat /\
    (nextHandle sta <= nextHandle st1)%nat /\
    m_depthTextureArrays st1 = m_depthTextureArrays sta /\
    (forall k, (k < 4)%nat ->
       let c := countb (sameRes (2 ^ (Z.of_nat k + 8))) lights in
       (c = 0%nat -> m_depthTextureArrays sta !! bucketSize k = None) /\
       (c <> 0%nat -> exists h,
          m_depthTextureArrays sta !! bucketSize k = Some h /\
          (nextHandle st <= h < nextHandle sta)%nat /\
          heap st1 !! h
          = Some (RhiTexture (getShadowMapTextureFormat rhi) (bucketSize k)
                    (Z.of_nat c) [RenderTarget; TextureArray]))) /\
    Forall2 (fun jl e => entryOf rhi (lightIndexToLayerIndex b)
                           (m_depthTextureArrays sta) (heap st1)
                           (nextHandle sta) (nextHandle st1) jl.1 jl.2 e)
            (shadowCasters 0 lights) (m_shadowMapList st1) /\
    warned st1 = (warned st || hitsFallback rhi lights) /\
    shortfalls st1
    = (shortfalls st + if negb (warned st) && hitsFallback rhi lights then 1 else 0)%nat.
Proof.
  intros Hlen Hb.
  destruct (bucketLights_spec _ _ Hb) as (_ & Hlc & _ & _ & Hlay).
  set (st0 := releaseCachedResources st).
  destruct (createTextureArrays_spec rhi (textureSizeLayerCount b) 0 st0)
    as (sta & Hruna & Hla & Hwa & Hsa & Hna & Hframea & Harra & Hothera).
  { rewrite Hlc. lia. }
  assert (Hbucket : forall k, (k < 4)%nat ->
            let c := countb (sameRes (2 ^ (Z.of_nat k + 8))) lights in
            (c = 0%nat -> m_depthTextureArrays sta !! bucketSize k = None) /\
            (c <> 0%nat -> exists h,
               m_depthTextureArrays sta !! bucketSize k = Some h /\
               (nextHandle st <= h < nextHandle sta)%nat /\
               heap sta !! h
               = Some (RhiTexture (getShadowMapTextureFormat rhi) (bucketSize k)
                         (Z.of_nat c) [RenderTarget; TextureArray]))).
  { intros k Hk c. subst c.
    pose proof (bucket_count lights b k Hlen Hb Hk) as Hck. split.
    - intros Hzero. rewrite Hothera; [done|].
      intros k' c' Hk' Hc' Heq. apply bucketSize_inj in Heq.
      cbn [Nat.add] in Heq. subst k'.
      rewrite Hck in Hk'. injection Hk' as <-. lia.
    - intros Hpos. destruct (Harra k _ Hck) as (h & Hh & Hrange & Hobj); [lia|].
      exists h. done. }
  destruct (setupRenderTargets_spec rhi (lightIndexToLayerIndex b) lights 0 sta)
    as (st1 & news & Hrun1 & Hl1 & Ha1 & Hn1 & Hframe1 & Hall & Hw1 & Hs1).
  { intros e. rewrite Hla. intros He. by apply elem_of_nil in He. }
  { intros l Hl Hc. apply list_elem_of_lookup in Hl as [j Hj].
    destruct (Hlay j l Hj Hc) as (k & Hk & Hidx & _).
    destruct (Hbucket k Hk) as [_ Hsome].
    destruct Hsome as (h & Hh & _).
    - rewrite <- (sameRes_of_bucket _ _ Hidx).
      pose proof (countb_pos (sameRes (shadowMapRes l)) lights l
                    ltac:(by eapply list_elem_of_lookup_2) (sameRes_self l Hc)). lia.
    - rewrite (QSize_of_res l k Hidx). eauto. }
  exists sta, st1. rewrite Hla in Hl1. cbn [app] in Hl1. rewrite Hl1.
  split; [exact Hruna|]. split; [exact Hrun1|].
  split. { unfold rebuild, bind, modify. fold st0. by rewrite Hruna, Hrun1. }
  split; [exact Hna|]. split; [exact Hn1|]. split; [exact Ha1|].
  split.
  { intros k Hk. destruct (Hbucket k Hk) as [Hzero Hsome]. split; [done|].
    intros Hpos. destruct (Hsome Hpos) as (h & Hh & Hrange & Hobj).
    exists h. split; [done|]. split; [done|]. rewrite Hframe1 by lia. done. }
  split; [exact Hall|].
  split; [by rewrite Hw1, Hwa|]. by rewrite Hs1, Hsa, Hwa.
Qed.


(** ** The entries after a rebuild *)

Lemma entryOf_index (rhi : QRhi) (l2l : list Z) (arrays : gmap (Z * Z) nat)
    (hp : gmap nat RhiObject) (lo hi : handle) (i : nat) (l : QSSGShaderLight)
    (e : QSSGShadowMapEntry) :
  entryOf rhi l2l arrays hp lo hi i l e -> m_lightIndex e = Z.of_nat i.
Proof.
  intros (n & _ & _ & _ & Hshape). destruct (mapModeOf l).
  - by destruct Hshape as (tex & _ & ->).
  - by destruct Hshape as [-> _].
Qed.

Lemma entryOf_mode (rhi : QRhi) (l2l : list Z) (arrays : gmap (Z * Z) nat)
    (hp : gmap nat RhiObject) (lo hi : handle) (i : nat) (l : QSSGShaderLight)
    (e : QSSGShadowMapEntry) :
  entryOf rhi l2l arrays hp lo hi i l e -> m_shadowMapMode e = mapModeOf l.
Proof.
  intros (n & _ & _ & _ & Hshape). destruct (mapModeOf l).
  - by destruct Hshape as (tex & _ & ->).
  - by destruct Hshape as [-> _].
Qed.

Lemma shadowCasters_elem (lights : list QSSGShaderLight) :
  forall (i j : nat) (l : QSSGShaderLight),
  (j, l) ∈ shadowCasters i lights ->
  (i <= j)%nat /\ lights !! (j - i)%nat = Some l /\ shadows l = true.
Proof.
  induction lights as [|l0 rest IH]; intros i j l Hin; cbn [shadowCasters] in Hin.
  - by apply elem_of_nil in Hin.
  - assert (Htail : (j, l) ∈ shadowCasters (S i) rest ->
              (i <= j)%nat /\ (l0 :: rest) !! (j - i)%nat = Some l /\ shadows l = true).
    { intros Hin'. destruct (IH _ _ _ Hin') as (Hle & Hl & Hs).
      split_and!; [lia| |done].
      replace (j - i)%nat with (S (j - S i)) by lia. done. }
    destruct (shadows l0) eqn:Hs0; [|by apply Htail].
    apply elem_of_cons in Hin as [[= -> ->]|Hin]; [|by apply Htail].
    rewrite Nat.sub_diag. done.
Qed.

Lemma find_filter {A} (f : A -> bool) (l : list A) (x : A) :
  List.filter f l = [x] -> find f l = Some x.
Proof.
  induction l as [|y l IH]; cbn; [done|].
  destruct (f y); [by intros [= ->]|done].
Qed.

Lemma filter_none {A} (f : A -> bool) (l : list A) :
  (forall x, x ∈ l -> f x = false) -> List.filter f l = [].
Proof.
  induction l as [|y l IH]; intros Hall; cbn; [done|].
  rewrite (Hall y) by set_solver. apply IH. intros x Hx. apply Hall. set_solver.
Qed.

(** The entries built for the shadow casters, one by one: the light at
    position [i + j] has exactly one entry among them, its own. *)
Lemma shadowCasters_entry (R : nat -> QSSGShaderLight -> QSSGShadowMapEntry -> Prop)
    (lights : list QSSGShaderLight) :
  (forall j l e, R j l e -> m_lightIndex e = Z.of_nat j) ->
  forall (i : nat) (news : list QSSGShadowMapEntry),
  Forall2 (fun jl e => R jl.1 jl.2 e) (shadowCasters i lights) news ->
  forall j l, lights !! j = Some l -> shadows l = true ->
  exists e, List.filter (fun e => m_lightIndex e =? Z.of_nat (i + j)) news = [e] /\
            R (i + j)%nat l e.
Proof.
  intros Hindex. induction lights as [|l0 rest IH]; intros i news Hall j l Hj Hs.
  - by rewrite lookup_nil in Hj.
  - cbn [shadowCasters] in Hall.
    assert (Hlater : forall news', 
              Forall2 (fun jl e => R jl.1 jl.2 e) (shadowCasters (S i) rest) news' ->
              forall e, e ∈ news' -> (m_lightIndex e =? Z.of_nat i) = false).
    { intros news' Hall' e He.
      apply list_elem_of_lookup in He as [p Hp].
      destruct (Forall2_lookup_r _ _ _ _ _ Hall' Hp) as ([j' l'] & Hjl & HR).
      apply list_elem_of_lookup_2 in Hjl.
      destruct (shadowCasters_elem _ _ _ _ Hjl) as (Hle & _).
      rewrite (Hindex _ _ _ HR). cbn. apply Z.eqb_neq. lia. }
    destruct j as [|j]; cbn in Hj.
    + injection Hj as ->. rewrite Hs in Hall.
      apply Forall2_cons_inv_l in Hall as (e & news' & HR & Hall' & ->).
      cbn [fst snd] in HR. exists e. rewrite Nat.add_0_r. split; [|done].
      cbn [List.filter]. rewrite (Hindex _ _ _ HR), Z.eqb_refl.
      f_equal. apply filter_none. by apply Hlater.
    + replace (i + S j)%nat with (S i + j)%nat by lia.
      destruct (shadows l0).
      * apply Forall2_cons_inv_l in Hall as (e0 & news' & HR0 & Hall' & ->).
        destruct (IH (S i) news' Hall' j l Hj Hs) as (e & Hfilter & HR).
        exists e. split; [|done]. cbn [List.filter].
        cbn [fst snd] in HR0. rewrite (Hindex _ _ _ HR0).
        destruct (Z.eqb_spec (Z.of_nat i) (Z.of_nat (S i + j))); [lia|done].
      * by apply IH.
Qed.

(** Every entry built for the shadow casters belongs to one of them. *)
Lemma shadowCasters_light (R : nat -> QSSGShaderLight -> QSSGShadowMapEntry -> Prop)
    (lights : list QSSGShaderLight) (news : list QSSGShadowMapEntry)
    (e : QSSGShadowMapEntry) :
  Forall2 (fun jl e => R jl.1 jl.2 e) (shadowCasters 0 lights) news ->
  e ∈ news ->
  exists j l, lights !! j = Some l /\ shadows l = true /\ R j l e.
Proof.
  intros Hall He. apply list_elem_of_lookup in He as [p Hp].
  destruct (Forall2_lookup_r _ _ _ _ _ Hall Hp) as ([j l] & Hjl & HR).
  apply list_elem_of_lookup_2 in Hjl.
  destruct (shadowCasters_elem _ _ _ _ Hjl) as (_ & Hl & Hs).
  rewrite Nat.sub_0_r in Hl. by exists j, l.
Qed.

(** After a rebuild the entry of every shadow-casting light passes the
    compatibility check against the light's own candidate. *)
Lemma rebuild_compatible (rhi : QRhi) (lights : list QSSGShaderLight) (b : Buckets)
    (sta st1 : State) (j : nat) (l : QSSGShaderLight) (e : QSSGShadowMapEntry)
    (lo : handle) :
  (length lights < 256)%nat ->
  bucketLights lights = Ok b ->
  (forall k, (k < 4)%nat ->
     let c := countb (sameRes (2 ^ (Z.of_nat k + 8))) lights in
     (c = 0%nat -> m_depthTextureArrays sta !! bucketSize k = None) /\
     (c <> 0%nat -> exists h,
        m_depthTextureArrays sta !! bucketSize k = Some h /\
        (lo <= h < nextHandle sta)%nat /\
        heap st1 !! h
        = Some (RhiTexture (getShadowMapTextureFormat rhi) (bucketSize k)
                  (Z.of_nat c) [RenderTarget; TextureArray]))) ->
  lights !! j = Some l -> shadows l = true ->
  entryOf rhi (lightIndexToLayerIndex b) (m_depthTextureArrays sta) (heap st1)
    (nextHandle sta) (nextHandle st1) j l e ->
  isCompatible e (QSize_of (shadowMapRes l) (shadowMapRes l))
    (candidateLayer (lightIndexToLayerIndex b) j l) (mapModeOf l) (heap st1)
  = Ok true /\
  (m_shadowMapMode e = VSM -> exists h,
     m_rhiDepthTextureArray e = Some h /\ (lo <= h < nextHandle sta)%nat /\
     m_depthTextureArrays sta !! (QSize_of (shadowMapRes l) (shadowMapRes l)) = Some h).
Proof.
  intros Hlen Hb Hbucket Hj Hs He.
  pose proof (entryOf_mode _ _ _ _ _ _ _ _ _ He) as Hmode.
  destruct He as (n & Hn & Hspan & Hlive & Hshape).
  unfold isCompatible, candidateLayer. rewrite Hmode.
  rewrite bool_decide_eq_false_2 by (intros H; by apply H).
  destruct (mapModeOf l) eqn:Hm; cbn [isVSM].
  - destruct Hshape as (tex & Htex & ->).
    pose proof (mapModeOf_VSM_casts l Hs Hm) as Hc.
    destruct (layer_index lights b j l Hlen Hb Hj Hc) as (k & Hk & Hres & Hlayer).
    destruct (Hbucket k Hk) as [_ Hsome].
    pose proof (countb_take_lt (sameRes (shadowMapRes l)) lights j l Hj
                  (sameRes_self l Hc)) as Hrank.
    destruct Hsome as (h & Hh & Hrange & Hobj).
    { rewrite <- Hres. lia. }
    assert (Hsize : bucketSize k = QSize_of (shadowMapRes l) (shadowMapRes l)).
    { rewrite Hres. symmetry. apply QSize_of_bucket. lia. }
    rewrite Hsize in Hh, Hobj. rewrite <- Hres in Hobj.
    assert (tex = h) as -> by congruence.
    cbn [vsmEntry m_rhiDepthTextureArray texturePixelSize textureArraySize].
    rewrite Hobj. cbn [rbind].
    rewrite bool_decide_eq_false_2 by (intros H; by apply H).
    rewrite Hlayer, toInt_small
      by (pose proof (countb_le (sameRes (shadowMapRes l)) (take j lights)) as Hle;
          rewrite length_take in Hle; lia).
    destruct (Z.leb_spec (Z.of_nat (countb (sameRes (shadowMapRes l)) lights))
                (Z.of_nat (countb (sameRes (shadowMapRes l)) (take j lights))));
      [lia|].
    split; [done|]. intros _. by exists h.
  - destruct Hshape as [-> Hcopy].
    cbn [cubeEntry m_rhiCubeCopy texturePixelSize]. rewrite Hcopy. cbn [rbind].
    rewrite bool_decide_eq_false_2 by (intros H; by apply H).
    split; [done|]. intros Hvsm. discriminate.
Qed.


(** ** What a successful construction tells about the registry before *)

Lemma addDirectionalShadowMap_inv (rhi : QRhi) (idx : Z) (size : QSize)
    (layerIndex : Z) (name : string) (st : State) (r : unit * State) :
  addDirectionalShadowMap rhi idx size layerIndex name st = Ok r ->
  shadowMapEntry idx st = Ok None /\ is_Some (m_depthTextureArrays st !! size).
Proof.
  intros H.
  destruct (shadowMapEntry idx st) as [[e|]|] eqn:Hfind.
  - exfalso. revert H. unfold addDirectionalShadowMap. unfold bind at 1.
    unfold reads at 1. rewrite Hfind. run. discriminate.
  - split; [done|].
    destruct (m_depthTextureArrays st !! size) as [tex|] eqn:Harr; [by eexists|].
    exfalso. revert H. destruct st as [l arrs hp n msgs w].
    cbn [m_depthTextureArrays] in Harr. unfold lookup in Harr.
    unfold addDirectionalShadowMap. unfold bind at 1. unfold reads at 1.
    rewrite Hfind. run. rewrite Harr. run. discriminate.
  - exfalso. revert H. unfold addDirectionalShadowMap. unfold bind at 1.
    unfold reads at 1. rewrite Hfind. run. discriminate.
Qed.

Lemma addCubeShadowMap_inv (rhi : QRhi) (idx : Z) (size : QSize)
    (name : string) (st : State) (r : unit * State) :
  addCubeShadowMap rhi idx size name st = Ok r ->
  shadowMapEntry idx st = Ok None.
Proof.
  intros H.
  destruct (shadowMapEntry idx st) as [[e|]|] eqn:Hfind; [exfalso|done|exfalso];
    revert H; unfold addCubeShadowMap; unfold bind at 1; unfold reads at 1;
    rewrite Hfind; run; discriminate.
Qed.

(** When the fourth loop ends well, every light that takes a layer
    found the shared array of its size. *)
Lemma setupRenderTargets_arrays (rhi : QRhi) (l2l : list Z)
    (lights : list QSSGShaderLight) :
  forall (i : nat) (st : State) (r : unit * State),
  for_each (setupRenderTarget rhi l2l) i lights st = Ok r ->
  forall l, l ∈ lights -> castsVSM l = true ->
    is_Some (m_depthTextureArrays st !! (QSize_of (shadowMapRes l) (shadowMapRes l))).
Proof.
  induction lights as [|l0 rest IH]; intros i st r Hrun l Hl Hc.
  - by apply elem_of_nil in Hl.
  - cbn [for_each] in Hrun. unfold bind at 1 in Hrun.
    destruct (setupRenderTarget rhi l2l i l0 st) as [[[] st1]|] eqn:Hstep; [|done].
    assert (Harr1 : m_depthTextureArrays st1 = m_depthTextureArrays st /\
              (castsVSM l0 = true ->
               is_Some (m_depthTextureArrays st !! (QSize_of (shadowMapRes l0) (shadowMapRes l0))))).
    { unfold setupRenderTarget in Hstep. unfold castsVSM.
      destruct (shadows l0); cbn [negb andb] in *.
      2: { injection Hstep as <-. done. }
      destruct (mapModeOf l0); cbn [isVSM].
      - destruct (addDirectionalShadowMap_inv _ _ _ _ _ _ _ Hstep) as [Hnone [tex Htex]].
        destruct (addDirectionalShadowMap_spec rhi (Z.of_nat i)
                    (QSize_of (shadowMapRes l0) (shadowMapRes l0)) (layerIndexOf l2l i)
                    (debugObjectName (light l0)) st tex Hnone Htex)
          as (st1' & Hrun1 & _ & Ha1 & _).
        rewrite Hstep in Hrun1. injection Hrun1 as <-. split; [done|by eexists].
      - pose proof (addCubeShadowMap_inv _ _ _ _ _ _ Hstep) as Hnone.
        destruct (addCubeShadowMap_spec rhi (Z.of_nat i)
                    (QSize_of (shadowMapRes l0) (shadowMapRes l0))
                    (debugObjectName (light l0)) st Hnone)
          as (st1' & Hrun1 & _ & Ha1 & _).
        rewrite Hstep in Hrun1. injection Hrun1 as <-. split; [done|discriminate]. }
    destruct Harr1 as [Ha1 Hhead].
    apply elem_of_cons in Hl as [->|Hl]; [by apply Hhead|].
    rewrite <- Ha1. by eapply IH.
Qed.

(** ** Reconciliation as a whole *)

Lemma addShadowMaps_inv (rhi : QRhi) (lights : list QSSGShaderLight)
    (st st1 : State) :
  addShadowMaps (Some rhi) lights st = Ok (tt, st1) ->
  exists b r, bucketLights lights = Ok b /\ needsRebuild lights b st = Ok r /\
    if r then rebuild rhi lights b st = Ok (tt, st1) else st1 = st.
Proof.
  unfold addShadowMaps, bind, reads.
  destruct (bucketLights lights) as [b|] eqn:Hb; [|done].
  destruct (needsRebuild lights b st) as [r|] eqn:Hr; [|done].
  intros H. exists b, r. split_and!; [done|done|].
  destruct r; cbn [negb] in H; [done|]. by injection H as <-.
Qed.

Lemma addShadowMaps_unfold (rhi : QRhi) (lights : list QSSGShaderLight)
    (b : Buckets) (r : bool) (st : State) :
  bucketLights lights = Ok b -> needsRebuild lights b st = Ok r ->
  addShadowMaps (Some rhi) lights st
  = if r then rebuild rhi lights b st else Ok (tt, st).
Proof.
  intros Hb Hr. unfold addShadowMaps, bind, reads. rewrite Hb, Hr.
  by destruct r.
Qed.

Lemma propertiesChanged_false (st : State) (l2l : list Z)
    (lights : list QSSGShaderLight) :
  forall i,
  (forall j l, lights !! j = Some l -> shadows l = true ->
     exists e, shadowMapEntry (Z.of_nat (i + j)) st = Ok (Some e) /\
       isCompatible e (QSize_of (shadowMapRes l) (shadowMapRes l))
         (candidateLayer l2l (i + j) l) (mapModeOf l) (heap st) = Ok true) ->
  propertiesChanged l2l i lights st = Ok false.
Proof.
  induction lights as [|l rest IH]; intros i Hall; [done|].
  cbn [propertiesChanged].
  assert (Hrest : propertiesChanged l2l (S i) rest st = Ok false).
  { apply IH. intros j l' Hj Hs.
    replace (S i + j)%nat with (i + S j)%nat by lia. by apply Hall. }
  destruct (shadows l) eqn:Hs; cbn [negb]; [|done].
  destruct (Hall 0%nat l eq_refl Hs) as (e & He & Hcompat).
  rewrite Nat.add_0_r in He, Hcompat. rewrite He. cbn [rbind].
  unfold candidateLayer in Hcompat. rewrite Hcompat. cbn [rbind negb]. done.
Qed.

(** After a rebuild nothing tells the entries from the lights. *)
Lemma rebuild_settled (rhi : QRhi) (lights : list QSSGShaderLight) (b : Buckets)
    (st st1 : State) :
  (length lights < 256)%nat ->
  bucketLights lights = Ok b ->
  rebuild rhi lights b st = Ok (tt, st1) ->
  needsRebuild lights b st1 = Ok false.
Proof.
  intros Hlen Hb Hrun.
  destruct (rebuild_spec rhi lights b st Hlen Hb)
    as (sta & st1' & _ & _ & Hrun' & _ & _ & _ & Hbucket & Hall & _).
  rewrite Hrun in Hrun'. injection Hrun' as <-.
  destruct (bucketLights_spec _ _ Hb) as (Hn & _).
  unfold needsRebuild, shadowMapEntryCount.
  rewrite Hn, <- (Forall2_length _ _ _ Hall), length_shadowCasters, Z.eqb_refl.
  cbn [negb]. apply propertiesChanged_false. intros j l Hj Hs. cbn [Nat.add].
  destruct (shadowCasters_entry
              (entryOf rhi (lightIndexToLayerIndex b) (m_depthTextureArrays sta)
                 (heap st1) (nextHandle sta) (nextHandle st1))
              lights (entryOf_index _ _ _ _ _ _) 0 _ Hall j l Hj Hs)
    as (e & Hfilter & He).
  cbn [Nat.add] in *. exists e. split.
  - rewrite shadowMapEntry_nat. f_equal. by apply find_filter.
  - by destruct (rebuild_compatible rhi lights b sta st1 j l e (nextHandle st)
                   Hlen Hb Hbucket Hj Hs He).
Qed.

Lemma many_lights_allocate_again : allocatesAgain example_rhi many_lights = true.
Proof. vm_compute. reflexivity. Qed.

(** C4, as the spec states it, fails on a list of 257 directional
    lights that cast shadows at 256: the [quint8] counter of their
    bucket wraps around to 1, the shared array gets a single layer, the
    entries sit on the layers 0 to 255 and 0, and the second call finds
    the entry of the second light on a layer the array does not have,
    rebuilds and allocates again. *)
Lemma second_call_rebuilds_257_lights :
  exists st1 st2,
    addShadowMaps (Some example_rhi) many_lights initial = Ok (tt, st1) /\
    addShadowMaps (Some example_rhi) many_lights st1 = Ok (tt, st2) /\
    (nextHandle st1 < nextHandle st2)%nat.
Proof.
  pose proof many_lights_allocate_again as H. unfold allocatesAgain in H.
  destruct (addShadowMaps (Some example_rhi) many_lights initial)
    as [[[] st1]|] eqn:Hfirst; [|discriminate].
  destruct (addShadowMaps (Some example_rhi) many_lights st1)
    as [[[] st2]|] eqn:Hsecond; [|discriminate].
  exists st1, st2. split_and!; [done|done|]. by apply Nat.ltb_lt.
Qed.

(** C4, amended. If reconciling a list of fewer than 256 lights ends
    well, a second call with the same list changes nothing: no entry,
    no shared array, no object of the store, no allocation counter, no
    message. *)
Theorem addShadowMaps_twice (rhi : option QRhi) (lights : list QSSGShaderLight)
    (st st1 : State) :
  (length lights < 256)%nat ->
  addShadowMaps rhi lights st = Ok (tt, st1) ->
  addShadowMaps rhi lights st1 = Ok (tt, st1).
Proof.
  intros Hlen Hrun. destruct rhi as [rhi|]; [|done].
  destruct (addShadowMaps_inv _ _ _ _ Hrun) as (b & r & Hb & Hr & Hcase).
  destruct r.
  - rewrite (addShadowMaps_unfold rhi lights b false st1 Hb); [done|].
    by apply (rebuild_settled rhi lights b st).
  - subst st1. done.
Qed.

Lemma addShadowMaps_twice_witness :
  addShadowMaps (Some example_rhi) example_lights example_state
  = Ok (tt, example_state).
Proof.
  apply (addShadowMaps_twice (Some example_rhi) example_lights initial).
  - vm_compute. lia.
  - vm_compute. reflexivity.
Defined.


Lemma needsRebuild_spec_witness :
  exists r, needsRebuild changed_lights changed_buckets example_state = Ok r /\
    (r = true <-> rebuildCause changed_lights changed_buckets example_state).
Proof.
  apply (needsRebuild_spec changed_lights changed_buckets example_state).
  - vm_compute. reflexivity.
  - vm_compute. reflexivity.
Defined.

Lemma cube_faces_NoDup (n : nat) :
  NoDup [3 + n; 5 + n; 6 + n; 7 + n; 8 + n; 9 + n]%nat.
Proof.
  repeat (apply NoDup_cons; split;
          [rewrite ?elem_of_cons, elem_of_nil; lia|]).
  apply NoDup_nil_2.
Qed.

(** C1, as the spec states it, fails for a spot light: its entry is a
    CUBE entry, not a VSM entry. *)
Lemma spot_light_gets_no_vsm_entry :
  ~ (exists st e,
       addShadowMaps (Some example_rhi) [example_spot] initial = Ok (tt, st) /\
       e ∈ m_shadowMapList st /\ m_lightIndex e = 0 /\ m_shadowMapMode e = VSM).
Proof.
  intros (st & e & Hrun & He & _ & Hmode).
  vm_compute in Hrun. injection Hrun as <-.
  cbn [m_shadowMapList] in He. apply list_elem_of_singleton in He. subst e.
  discriminate.
Qed.

(** C1, amended. When reconciling a list of fewer than 256 lights
    rebuilds, every shadow-casting light has exactly one entry under its
    index, with all its render targets in the store: a directional light
    a VSM entry with one main render target in slot 0, the other slots
    null, and two blur render targets; a point or spot light a CUBE
    entry with six distinct face render targets. *)
Theorem rebuild_mode_routing (rhi : QRhi) (lights : list QSSGShaderLight)
    (b : Buckets) (st : State) :
  (length lights < 256)%nat ->
  bucketLights lights = Ok b ->
  needsRebuild lights b st = Ok true ->
  exists st1, addShadowMaps (Some rhi) lights st = Ok (tt, st1) /\
    forall i l, lights !! i = Some l -> shadows l = true ->
      exists e,
        List.filter (fun e => m_lightIndex e =? Z.of_nat i) (m_shadowMapList st1) = [e] /\
        liveTargets (heap st1) e /\
        match type (light l) with
        | DirectionalLight =>
            m_shadowMapMode e = VSM /\
            exists rt blur0 blur1,
              m_rhiRenderTargets e = [Some rt; None; None; None; None; None] /\
              m_rhiBlurRenderTarget0 e = Some blur0 /\
              m_rhiBlurRenderTarget1 e = Some blur1
        | PointLight | SpotLight =>
            m_shadowMapMode e = CUBE /\
            exists faces,
              m_rhiRenderTargets e = Some <$> faces /\
              length faces = 6%nat /\ NoDup faces
        end.
Proof.
  intros Hlen Hb Hr.
  destruct (rebuild_spec rhi lights b st Hlen Hb)
    as (sta & st1 & _ & _ & Hrun & _ & _ & _ & _ & Hall & _).
  exists st1. split.
  { by rewrite (addShadowMaps_unfold rhi lights b true st Hb Hr). }
  intros i l Hl Hs.
  destruct (shadowCasters_entry
              (entryOf rhi (lightIndexToLayerIndex b) (m_depthTextureArrays sta)
                 (heap st1) (nextHandle sta) (nextHandle st1))
              lights (entryOf_index _ _ _ _ _ _) 0 _ Hall i l Hl Hs)
    as (e & Hfilter & He).
  cbn [Nat.add] in *. exists e. split; [done|].
  destruct He as (n & _ & _ & Hlive & Hshape). split; [done|].
  unfold mapModeOf in Hshape.
  destruct (type (light l)); cbn in Hshape.
  - destruct Hshape as (tex & _ & ->). split; [done|]. by eexists _, _, _.
  - destruct Hshape as [-> _]. split; [done|].
    exists [3 + n; 5 + n; 6 + n; 7 + n; 8 + n; 9 + n]%nat.
    split_and!; [done|done|].
    apply cube_faces_NoDup.
  - destruct Hshape as [-> _]. split; [done|].
    exists [3 + n; 5 + n; 6 + n; 7 + n; 8 + n; 9 + n]%nat.
    split_and!; [done|done|].
    apply cube_faces_NoDup.
Qed.

Lemma rebuild_mode_routing_witness :
  exists st1, addShadowMaps (Some example_rhi) changed_lights example_state
              = Ok (tt, st1) /\
    forall i l, changed_lights !! i = Some l -> shadows l = true ->
      exists e,
        List.filter (fun e => m_lightIndex e =? Z.of_nat i) (m_shadowMapList st1) = [e] /\
        liveTargets (heap st1) e /\
        match type (light l) with
        | DirectionalLight =>
            m_shadowMapMode e = VSM /\
            exists rt blur0 blur1,
              m_rhiRenderTargets e = [Some rt; None; None; None; None; None] /\
              m_rhiBlurRenderTarget0 e = Some blur0 /\
              m_rhiBlurRenderTarget1 e = Some blur1
        | PointLight | SpotLight =>
            m_shadowMapMode e = CUBE /\
            exists faces,
              m_rhiRenderTargets e = Some <$> faces /\
              length faces = 6%nat /\ NoDup faces
        end.
Proof.
  apply (rebuild_mode_routing example_rhi changed_lights changed_buckets example_state).
  - vm_compute. lia.
  - vm_compute. reflexivity.
  - vm_compute. reflexivity.
Defined.


(** ** Shared arrays come first *)

Lemma ownedHandles_cubeEntry (blur : bool) (n : handle) (idx : Z) (h : handle) :
  h ∈ ownedHandles (cubeEntry blur n idx) -> (n <= h)%nat.
Proof.
  unfold ownedHandles, ownedPointers. destruct blur; cbn;
    rewrite ?elem_of_cons, elem_of_nil; lia.
Qed.

Lemma ownedHandles_vsmEntry (n : handle) (idx : Z) (tex : option handle)
    (layerIndex : Z) (h : handle) :
  h ∈ ownedHandles (vsmEntry n idx tex layerIndex) -> (n <= h)%nat.
Proof.
  unfold ownedHandles, ownedPointers. cbn.
  rewrite ?elem_of_cons, elem_of_nil; lia.
Qed.

(** C6, as the spec states it, fails for a spot light: it casts shadows
    at 1024, and no shared array of that resolution is allocated. *)
Lemma spot_light_gets_no_shared_array :
  ~ (exists st h,
       addShadowMaps (Some example_rhi) [example_spot] initial = Ok (tt, st) /\
       m_depthTextureArrays st !! (1024, 1024) = Some h).
Proof.
  intros (st & h & Hrun & Harr).
  vm_compute in Hrun. injection Hrun as <-. vm_compute in Harr. discriminate.
Qed.

(** C6, amended. When reconciling a list of fewer than 256 lights
    rebuilds, the third loop allocates, before any entry exists, one
    shared texture array for each of the buckets 256, 512, 1024 and 2048
    that holds a shadow-casting directional light, and no other object;
    the array has the bucket's resolution and as many layers as the
    bucket has shadow-casting directional lights; the fourth loop leaves
    the map of arrays alone, every object an entry owns is allocated
    after the arrays, and the array pointer of every VSM entry is one of
    the arrays of the map. *)
Theorem rebuild_shared_arrays (rhi : QRhi) (lights : list QSSGShaderLight)
    (b : Buckets) (st : State) :
  (length lights < 256)%nat ->
  bucketLights lights = Ok b ->
  needsRebuild lights b st = Ok true ->
  exists sta st1,
    for_each (createTextureArray rhi) 0 (textureSizeLayerCount b)
      (releaseCachedResources st) = Ok (tt, sta) /\
    for_each (setupRenderTarget rhi (lightIndexToLayerIndex b)) 0 lights sta
    = Ok (tt, st1) /\
    addShadowMaps (Some rhi) lights st = Ok (tt, st1) /\
    m_shadowMapList sta = [] /\
    nextHandle sta = (nextHandle st + usedBuckets (textureSizeLayerCount b))%nat /\
    m_depthTextureArrays st1 = m_depthTextureArrays sta /\
    (forall k, (k < 4)%nat ->
       let c := countb (sameRes (2 ^ (Z.of_nat k + 8))) lights in
       textureSizeLayerCount b !! k = Some (Z.of_nat c) /\
       (c = 0%nat -> m_depthTextureArrays st1 !! bucketSize k = None) /\
       (c <> 0%nat -> exists h,
          m_depthTextureArrays st1 !! bucketSize k = Some h /\
          (nextHandle st <= h < nextHandle sta)%nat /\
          heap st1 !! h
          = Some (RhiTexture (getShadowMapTextureFormat rhi) (bucketSize k)
                    (Z.of_nat c) [RenderTarget; TextureArray]))) /\
    (forall e, e ∈ m_shadowMapList st1 ->
       (forall h, h ∈ ownedHandles e -> (nextHandle sta <= h)%nat) /\
       (m_shadowMapMode e = VSM -> exists h size,
          m_rhiDepthTextureArray e = Some h /\
          m_depthTextureArrays st1 !! size = Some h /\
          (h < nextHandle sta)%nat)).
Proof.
  intros Hlen Hb Hr.
  destruct (rebuild_spec rhi lights b st Hlen Hb)
    as (sta & st1 & Hruna & Hrun1 & Hrun & Hna & Hn1 & Ha1 & Hbucket & Hall & _).
  exists sta, st1.
  split; [done|]. split; [done|].
  split. { by rewrite (addShadowMaps_unfold rhi lights b true st Hb Hr). }
  split.
  { destruct (bucketLights_spec _ _ Hb) as (_ & Hlc & _).
    destruct (createTextureArrays_spec rhi (textureSizeLayerCount b) 0
                (releaseCachedResources st)) as (sta' & Hruna' & Hla & _).
    { rewrite Hlc. lia. }
    rewrite Hruna in Hruna'. injection Hruna' as <-. done. }
  split; [done|]. split; [done|].
  split.
  { intros k Hk c. rewrite Ha1. split; [by apply bucket_count|].
    apply (Hbucket k Hk). }
  intros e He.
  destruct (shadowCasters_light _ _ _ _ Hall He) as (j & l & Hj & Hs & Hentry).
  split.
  - intros h Hh. destruct Hentry as (n & Hn & _ & _ & Hshape).
    destruct (mapModeOf l).
    + destruct Hshape as (tex & _ & ->). apply ownedHandles_vsmEntry in Hh. lia.
    + destruct Hshape as [-> _]. apply ownedHandles_cubeEntry in Hh. lia.
  - intros Hvsm.
    destruct (rebuild_compatible rhi lights b sta st1 j l e (nextHandle st)
                Hlen Hb Hbucket Hj Hs Hentry) as [_ Harr].
    destruct (Harr Hvsm) as (h & Hh & Hrange & Hmap).
    exists h, (QSize_of (shadowMapRes l) (shadowMapRes l)). rewrite Ha1. split_and!; [done|done|lia].
Qed.

Lemma rebuild_shared_arrays_witness :
  exists sta st1,
    for_each (createTextureArray example_rhi) 0 (textureSizeLayerCount changed_buckets)
      (releaseCachedResources example_state) = Ok (tt, sta) /\
    for_each (setupRenderTarget example_rhi (lightIndexToLayerIndex changed_buckets))
      0 changed_lights sta = Ok (tt, st1) /\
    addShadowMaps (Some example_rhi) changed_lights example_state = Ok (tt, st1) /\
    m_shadowMapList sta = [] /\
    nextHandle sta
    = (nextHandle example_state
       + usedBuckets (textureSizeLayerCount changed_buckets))%nat /\
    m_depthTextureArrays st1 = m_depthTextureArrays sta /\
    (forall k, (k < 4)%nat ->
       let c := countb (sameRes (2 ^ (Z.of_nat k + 8))) changed_lights in
       textureSizeLayerCount changed_buckets !! k = Some (Z.of_nat c) /\
       (c = 0%nat -> m_depthTextureArrays st1 !! bucketSize k = None) /\
       (c <> 0%nat -> exists h,
          m_depthTextureArrays st1 !! bucketSize k = Some h /\
          (nextHandle example_state <= h < nextHandle sta)%nat /\
          heap st1 !! h
          = Some (RhiTexture (getShadowMapTextureFormat example_rhi) (bucketSize k)
                    (Z.of_nat c) [RenderTarget; TextureArray]))) /\
    (forall e, e ∈ m_shadowMapList st1 ->
       (forall h, h ∈ ownedHandles e -> (nextHandle sta <= h)%nat) /\
       (m_shadowMapMode e = VSM -> exists h size,
          m_rhiDepthTextureArray e = Some h /\
          m_depthTextureArrays st1 !! size = Some h /\
          (h < nextHandle sta)%nat)).
Proof.
  apply (rebuild_shared_arrays example_rhi changed_lights changed_buckets example_state).
  - vm_compute. lia.
  - vm_compute. reflexivity.
  - vm_compute. reflexivity.
Defined.


(** ** A rebuild that ends well, whatever the length of the list *)

(** The map of shared arrays after the third loop holds what it held
    before and the texture arrays the loop allocated. *)
Lemma createTextureArrays_textures (rhi : QRhi) (counts : list Z) :
  forall (i : nat) (st st' : State),
  (i + length counts <= 5)%nat ->
  for_each (createTextureArray rhi) i counts st = Ok (tt, st') ->
  forall size h, m_depthTextureArrays st' !! size = Some h ->
    m_depthTextureArrays st !! size = Some h \/
    ((nextHandle st <= h < nextHandle st')%nat /\
     isTexture (heap st') (Some h) = true).
Proof.
  induction counts as [|c rest IH]; intros i st st' Hlen Hrun size h Hsize.
  - cbn in Hrun. injection Hrun as <-. by left.
  - cbn [for_each length] in *. unfold bind at 1 in Hrun.
    destruct (decide (c = 0)) as [->|Hc].
    + unfold createTextureArray at 1 in Hrun. cbn [Z.eqb ret] in Hrun.
      apply (IH (S i) st st'); [lia|done|done].
    + destruct (createTextureArray_spec rhi i c st ltac:(lia) Hc)
        as (st1 & Hstep & _ & Ha1 & Hn1 & _ & Hh1 & _).
      rewrite Hstep in Hrun.
      destruct (createTextureArrays_spec rhi rest (S i) st1 ltac:(lia))
        as (st2 & Hrun2 & _ & _ & _ & Hn & Hframe & _).
      rewrite Hrun in Hrun2. injection Hrun2 as <-.
      destruct (IH (S i) st1 st' ltac:(lia) Hrun size h Hsize)
        as [Hold|[Hrange Htex]].
      * rewrite Ha1 in Hold.
        apply lookup_insert_Some in Hold as [[<- <-]|[_ Hold]]; [right|by left].
        split; [lia|]. unfold isTexture. rewrite Hframe by lia. by rewrite Hh1.
      * right. split; [lia|done].
Qed.

Lemma rebuild_inv (rhi : QRhi) (lights : list QSSGShaderLight) (b : Buckets)
    (st st1 : State) :
  bucketLights lights = Ok b ->
  rebuild rhi lights b st = Ok (tt, st1) ->
  exists sta,
    m_shadowMapList sta = [] /\
    warned sta = warned st /\
    shortfalls sta = shortfalls st /\
    m_depthTextureArrays st1 = m_depthTextureArrays sta /\
    (forall size h, m_depthTextureArrays sta !! size = Some h ->
       isTexture (heap st1) (Some h) = true) /\
    Forall2 (fun jl e => entryOf rhi (lightIndexToLayerIndex b)
                           (m_depthTextureArrays sta) (heap st1)
                           (nextHandle sta) (nextHandle st1) jl.1 jl.2 e)
            (shadowCasters 0 lights) (m_shadowMapList st1) /\
    warned st1 = (warned sta || hitsFallback rhi lights) /\
    shortfalls st1
    = (shortfalls sta + if negb (warned sta) && hitsFallback rhi lights then 1 else 0)%nat.
Proof.
  intros Hb Hrun.
  destruct (bucketLights_spec _ _ Hb) as (_ & Hlc & _).
  destruct (createTextureArrays_spec rhi (textureSizeLayerCount b) 0
              (releaseCachedResources st))
    as (sta & Hruna & Hla & Hwa & Hsa & _).
  { rewrite Hlc. lia. }
  unfold rebuild, bind, modify in Hrun. rewrite Hruna in Hrun.
  destruct (setupRenderTargets_spec rhi (lightIndexToLayerIndex b) lights 0 sta)
    as (st1' & news & Hrun1 & Hl1 & Ha1 & _ & Hframe1 & Hall & Hw1 & Hs1).
  { intros e. rewrite Hla. intros He. by apply elem_of_nil in He. }
  { by apply (setupRenderTargets_arrays rhi (lightIndexToLayerIndex b) lights 0 sta
                (tt, st1)). }
  rewrite Hrun in Hrun1. injection Hrun1 as <-.
  rewrite Hla in Hl1.
  change (m_shadowMapList (releaseCachedResources st))
    with (@nil QSSGShadowMapEntry) in Hl1, Hla.
  cbn [app] in Hl1. rewrite Hl1.
  exists sta. split_and!; try done.
  intros size h Hsize.
  destruct (createTextureArrays_textures rhi (textureSizeLayerCount b) 0
              (releaseCachedResources st) sta ltac:(rewrite Hlc; lia) Hruna
              size h Hsize) as [Hold|[Hrange Htex]].
  - cbn in Hold. by rewrite lookup_empty in Hold.
  - unfold isTexture in *. by rewrite Hframe1 by lia.
Qed.

Lemma isTexture_of_object (hp : gmap nat RhiObject) (h : handle) (fmt : Format)
    (s : QSize) (n : Z) (fl : list TextureFlag) :
  hp !! h = Some (RhiTexture fmt s n fl) -> isTexture hp (Some h) = true.
Proof. intros H. unfold isTexture. by rewrite H. Qed.

(** The pointers [isCompatible] follows are good in a fresh registry,
    after a release and after every reconciliation that ends well. *)
Lemma initial_derefOk : derefOk initial = true.
Proof. reflexivity. Qed.

Lemma releaseCachedResources_derefOk (st : State) :
  derefOk (releaseCachedResources st) = true.
Proof. reflexivity. Qed.

Lemma addShadowMaps_derefOk (rhi : option QRhi) (lights : list QSSGShaderLight)
    (st st1 : State) :
  derefOk st = true ->
  addShadowMaps rhi lights st = Ok (tt, st1) ->
  derefOk st1 = true.
Proof.
  intros Hok Hrun. destruct rhi as [rhi|]; [|by injection Hrun as <-].
  destruct (addShadowMaps_inv _ _ _ _ Hrun) as (b & r & Hb & Hr & Hcase).
  destruct r; [|by subst st1].
  destruct (rebuild_inv rhi lights b st st1 Hb Hcase)
    as (sta & _ & _ & _ & _ & Htex & Hall & _).
  unfold derefOk. apply forallb_forall. intros e He. apply list_elem_of_In in He.
  destruct (shadowCasters_light _ _ _ _ Hall He) as (j & l & Hj & Hs & Hentry).
  rewrite (entryOf_mode _ _ _ _ _ _ _ _ _ Hentry).
  destruct Hentry as (n & _ & _ & _ & Hshape).
  destruct (mapModeOf l).
  - destruct Hshape as (tex & Harr & ->). by apply (Htex _ _ Harr).
  - destruct Hshape as [-> Hcopy]. by apply (isTexture_of_object _ _ _ _ _ _ Hcopy).
Qed.

(** Reconciling a list of fewer than 256 lights with supported
    resolutions ends well. *)
Lemma addShadowMaps_total (rhi : option QRhi) (lights : list QSSGShaderLight)
    (st : State) :
  supported lights = true ->
  (length lights < 256)%nat ->
  derefOk st = true ->
  exists st1, addShadowMaps rhi lights st = Ok (tt, st1) /\ derefOk st1 = true.
Proof.
  intros Hsup Hlen Hok.
  assert (Hex : exists st1, addShadowMaps rhi lights st = Ok (tt, st1)).
  { destruct rhi as [rhi|]; [|by exists st].
    destruct (bucketLights_total lights Hsup) as [b Hb].
    destruct (needsRebuild_decides lights b st Hb Hok) as (r & Hr & _).
    rewrite (addShadowMaps_unfold rhi lights b r st Hb Hr).
    destruct r; [|by exists st].
    destruct (rebuild_spec rhi lights b st Hlen Hb) as (_ & st1 & _ & _ & Hrun & _).
    by exists st1. }
  destruct Hex as [st1 Hrun]. exists st1. split; [done|].
  by apply (addShadowMaps_derefOk rhi lights st st1).
Qed.

(** Along any sequence of calls of a fresh process that end well, the
    entries point to their textures. *)
Lemma runCalls_derefOk (rhi : QRhi) (calls : list Call) :
  forall (st : State) (sts : list State),
  derefOk st = true ->
  runCalls rhi calls st = Ok sts ->
  Forall (fun st' => derefOk st' = true) sts.
Proof.
  induction calls as [|c rest IH]; intros st sts Hok Hrun.
  - injection Hrun as <-. constructor.
  - cbn [runCalls] in Hrun.
    destruct (call rhi c st) as [[[] st1]|] eqn:Hcall; [|done].
    destruct (runCalls rhi rest st1) as [sts'|] eqn:Hrest; [|done].
    injection Hrun as <-.
    assert (Hok1 : derefOk st1 = true).
    { destruct c as [lights|]; cbn [call] in Hcall.
      - by apply (addShadowMaps_derefOk (Some rhi) lights st st1).
      - unfold modify in Hcall. by injection Hcall as <-. }
    constructor; [done|]. by apply (IH st1).
Qed.

(** ** The fallback of devices with fewer than six colour attachments *)

(** What a rebuild that ends well does about the warning, whatever the
    length of the list. *)
Lemma rebuild_fallback (rhi : QRhi) (lights : list QSSGShaderLight) (b : Buckets)
    (st st1 : State) :
  bucketLights lights = Ok b ->
  rebuild rhi lights b st = Ok (tt, st1) ->
  warned st1 = (warned st || hitsFallback rhi lights) /\
  shortfalls st1
  = (shortfalls st + if negb (warned st) && hitsFallback rhi lights then 1 else 0)%nat /\
  (forall e, e ∈ m_shadowMapList st1 -> m_shadowMapMode e = CUBE ->
     existsb castsCUBE lights = true /\
     (canBlur rhi = false ->
      m_rhiBlurRenderTarget0 e = None /\ m_rhiBlurRenderTarget1 e = None)) /\
  (existsb castsCUBE lights = true -> hasCube st1 = true).
Proof.
  intros Hb Hrun.
  destruct (rebuild_inv rhi lights b st st1 Hb Hrun)
    as (sta & _ & Hwa & Hsa & _ & _ & Hall & Hw1 & Hs1).
  split; [by rewrite Hw1, Hwa|]. split; [by rewrite Hs1, Hsa, Hwa|].
  split.
  - intros e He Hcube.
    destruct (shadowCasters_light _ _ _ _ Hall He) as (j & l & Hj & Hs & Hentry).
    pose proof (entryOf_mode _ _ _ _ _ _ _ _ _ Hentry) as Hmode.
    rewrite Hcube in Hmode. split.
    + apply existsb_exists. exists l. split.
      * apply list_elem_of_In. by eapply list_elem_of_lookup_2.
      * by apply mapModeOf_CUBE_casts.
    + intros Hblur. destruct Hentry as (n & _ & _ & _ & Hshape).
      rewrite <- Hmode in Hshape. destruct Hshape as [-> _]. by rewrite Hblur.
  - intros [l [Hl Hc]]%existsb_exists.
    apply list_elem_of_In, list_elem_of_lookup in Hl as [j Hj].
    unfold castsCUBE in Hc. apply andb_true_iff in Hc as [Hs Hcube].
    destruct (shadowCasters_entry
                (entryOf rhi (lightIndexToLayerIndex b) (m_depthTextureArrays sta)
                   (heap st1) (nextHandle sta) (nextHandle st1))
                lights (entryOf_index _ _ _ _ _ _) 0 _ Hall j l Hj Hs)
      as (e & Hfilter & He).
    unfold hasCube. apply existsb_exists. exists e. split.
    + assert (Hin : In e (List.filter
                (fun e => m_lightIndex e =? Z.of_nat (0 + j)) (m_shadowMapList st1))).
      { rewrite Hfilter. by left. }
      by apply filter_In in Hin as [Hin _].
    + by rewrite (entryOf_mode _ _ _ _ _ _ _ _ _ He).
Qed.

Lemma hasCube_spec (st : State) :
  hasCube st = true <->
  exists e, e ∈ m_shadowMapList st /\ m_shadowMapMode e = CUBE.
Proof.
  unfold hasCube. rewrite existsb_exists. split.
  - intros (e & He & Hm). exists e. split; [by apply list_elem_of_In|].
    by destruct (m_shadowMapMode e).
  - intros (e & He & Hm). exists e. split; [by apply list_elem_of_In|].
    by rewrite Hm.
Qed.

(** Every call keeps the account of the warning, and sets the flag
    exactly when it leaves a CUBE entry behind. *)
Lemma call_warnedOnce (rhi : QRhi) (c : Call) (st st1 : State) :
  canBlur rhi = false ->
  warnedOnce st ->
  call rhi c st = Ok (tt, st1) ->
  warnedOnce st1 /\ warned st1 = (warned st || hasCube st1).
Proof.
  intros Hblur (Hcount & Hflag & Hnoblur) Hrun.
  assert (Hsame : warnedOnce st /\ warned st = (warned st || hasCube st)).
  { split; [done|]. destruct (hasCube st); [|by rewrite orb_false_r].
    by rewrite Hflag. }
  destruct c as [lights|]; cbn [call] in Hrun.
  - destruct (addShadowMaps_inv _ _ _ _ Hrun) as (b & r & Hb & Hr & Hcase).
    destruct r; [|by subst st1].
    destruct (rebuild_fallback rhi lights b st st1 Hb Hcase)
      as (Hw & Hs & Hcube & Hex).
    unfold hitsFallback in Hw, Hs. rewrite Hblur in Hw, Hs. cbn [negb andb] in Hw, Hs.
    assert (Hhas : hasCube st1 = existsb castsCUBE lights).
    { destruct (existsb castsCUBE lights) eqn:Hany; [by apply Hex|].
      destruct (hasCube st1) eqn:Hhas; [|done].
      apply hasCube_spec in Hhas as (e & He & Hm).
      destruct (Hcube e He Hm) as [Hany' _]. congruence. }
    rewrite Hhas. split; [|done]. split_and!.
    + rewrite Hs, Hw, Hcount.
      destruct (warned st), (existsb castsCUBE lights); reflexivity.
    + intros Hh. rewrite Hhas in Hh. rewrite Hw, Hh. apply orb_true_r.
    + intros e He Hm. by apply (Hcube e He Hm).
  - unfold modify in Hrun. injection Hrun as <-.
    split; [|by rewrite orb_false_r]. split_and!; [done|done|].
    intros e He. by apply elem_of_nil in He.
Qed.

(** A reconciliation that does not rebuild found a CUBE entry for every
    shadow-casting point or spot light. *)
Lemma settled_hasCube (lights : list QSSGShaderLight) (b : Buckets) (st : State) :
  needsRebuild lights b st = Ok false ->
  existsb castsCUBE lights = true -> hasCube st = true.
Proof.
  unfold needsRebuild. intros Hr [l [Hl Hc]]%existsb_exists.
  destruct (negb _); [done|].
  apply list_elem_of_In, list_elem_of_lookup in Hl as [j Hj].
  unfold castsCUBE in Hc. apply andb_true_iff in Hc as [Hs Hcube].
  destruct (propertiesChanged_settled st _ lights 0 Hr j l Hj Hs)
    as (e & He & Hcompat).
  apply shadowMapEntry_Some in He as [He _].
  apply isCompatible_true_mode in Hcompat.
  apply hasCube_spec. exists e. split; [done|].
  rewrite Hcompat. by destruct (mapModeOf l).
Qed.

(** A call that reconciles a shadow-casting point or spot light leaves
    a CUBE entry behind and the flag set, whether it rebuilds or not;
    every other call leaves the flag as it was. *)
Lemma call_reconcilesCube (rhi : QRhi) (c : Call) (st st1 : State) :
  canBlur rhi = false ->
  warnedOnce st ->
  call rhi c st = Ok (tt, st1) ->
  warnedOnce st1 /\
  warned st1 = (warned st || reconcilesCube c) /\
  (reconcilesCube c = true -> hasCube st1 = true /\ shortfalls st1 = 1%nat).
Proof.
  intros Hblur Hinv Hrun.
  destruct (call_warnedOnce rhi c st st1 Hblur Hinv Hrun) as [Hinv1 _].
  destruct Hinv as (_ & Hflag & _).
  assert (Hw : warned st1 = (warned st || reconcilesCube c) /\
               (reconcilesCube c = true -> hasCube st1 = true)).
  { destruct c as [lights|]; cbn [call reconcilesCube] in *.
    - destruct (addShadowMaps_inv _ _ _ _ Hrun) as (b & r & Hb & Hr & Hcase).
      destruct r.
      + destruct (rebuild_fallback rhi lights b st st1 Hb Hcase)
          as (Hw & _ & _ & Hex).
        unfold hitsFallback in Hw. rewrite Hblur in Hw. by cbn [negb andb] in Hw.
      + subst st1. destruct (existsb castsCUBE lights) eqn:Hany.
        * pose proof (settled_hasCube lights b st Hr Hany) as Hhas.
          split; [|done]. by rewrite (Hflag Hhas).
        * split; [by rewrite orb_false_r|done].
    - unfold modify in Hrun. injection Hrun as <-.
      split; [by rewrite orb_false_r|done]. }
  destruct Hw as [Hw Hhas]. split_and!; [done|done|].
  intros Hc. split; [by apply Hhas|].
  destruct Hinv1 as (Hcount & _). rewrite Hcount, Hw, Hc.
  by rewrite orb_true_r.
Qed.

Lemma finalState_cons (st st1 : State) (sts : list State) :
  finalState st (st1 :: sts) = finalState st1 sts.
Proof. unfold finalState. rewrite last_cons. by destruct (last sts). Qed.

Lemma runCalls_reconcilesCube (rhi : QRhi) (calls : list Call) :
  canBlur rhi = false ->
  forall (st : State) (sts : list State),
  warnedOnce st ->
  runCalls rhi calls st = Ok sts ->
  Forall warnedOnce sts /\
  Forall2 (fun c st1 => reconcilesCube c = true ->
                        hasCube st1 = true /\ shortfalls st1 = 1%nat) calls sts /\
  warnedOnce (finalState st sts) /\
  warned (finalState st sts) = (warned st || existsb reconcilesCube calls).
Proof.
  intros Hblur. induction calls as [|c rest IH]; intros st sts Hinv Hrun.
  - injection Hrun as <-. unfold finalState. cbn.
    split_and!; [done|constructor|done|by rewrite orb_false_r].
  - cbn [runCalls] in Hrun.
    destruct (call rhi c st) as [[[] st1]|] eqn:Hcall; [|done].
    destruct (runCalls rhi rest st1) as [sts'|] eqn:Hrest; [|done].
    injection Hrun as <-.
    destruct (call_reconcilesCube rhi c st st1 Hblur Hinv Hcall)
      as (Hinv1 & Hw1 & Hcube).
    destruct (IH st1 sts' Hinv1 Hrest) as (Hall & Hper & Hfinal & Hw).
    rewrite finalState_cons.
    split_and!; [by constructor|by constructor|done|].
    rewrite Hw, Hw1. cbn [existsb]. by rewrite orb_assoc.
Qed.

(** C9. On a device with fewer than six colour attachments, along any
    sequence of reconcile and release calls of a fresh process that end
    well: no CUBE entry ever has a blur render target and the warning
    is never in the log more than once; every call that reconciles a
    list with a shadow-casting point or spot light leaves a CUBE entry
    behind and the warning in the log, exactly once; and at the end the
    warning is in the log exactly once if some call reconciled such a
    light, however many of them and however often, and not at all
    otherwise. *)
Theorem cube_fallback_warns_once (rhi : QRhi) (calls : list Call) (sts : list State) :
  MaxColorAttachments rhi < 6 ->
  runCalls rhi calls initial = Ok sts ->
  Forall (fun st =>
            (shortfalls st <= 1)%nat /\
            forall e, e ∈ m_shadowMapList st -> m_shadowMapMode e = CUBE ->
              m_rhiBlurRenderTarget0 e = None /\ m_rhiBlurRenderTarget1 e = None)
         sts /\
  Forall2 (fun c st => reconcilesCube c = true ->
                       hasCube st = true /\ shortfalls st = 1%nat) calls sts /\
  shortfalls (finalState initial sts)
  = (if existsb reconcilesCube calls then 1 else 0)%nat.
Proof.
  intros Hlimit Hrun.
  assert (Hblur : canBlur rhi = false).
  { unfold canBlur. apply Z.leb_gt. done. }
  assert (Hinit : warnedOnce initial).
  { split_and!; [done|done|]. intros e He. by apply elem_of_nil in He. }
  destruct (runCalls_reconcilesCube rhi calls Hblur initial sts Hinit Hrun)
    as (Hall & Hper & (Hcount & _) & Hw).
  split_and!.
  - eapply Forall_impl; [exact Hall|]. intros st (Hc & _ & Hnoblur).
    split; [|done]. rewrite Hc. destruct (warned st); lia.
  - exact Hper.
  - rewrite Hcount, Hw. done.
Qed.

Lemma cube_fallback_warns_once_witness :
  Forall (fun st =>
            (shortfalls st <= 1)%nat /\
            forall e, e ∈ m_shadowMapList st -> m_shadowMapMode e = CUBE ->
              m_rhiBlurRenderTarget0 e = None /\ m_rhiBlurRenderTarget1 e = None)
         example_run /\
  Forall2 (fun c st => reconcilesCube c = true ->
                       hasCube st = true /\ shortfalls st = 1%nat)
          example_calls example_run /\
  shortfalls (finalState initial example_run) = 1%nat.
Proof.
  apply (cube_fallback_warns_once small_rhi example_calls example_run).
  - vm_compute. reflexivity.
  - vm_compute. reflexivity.
Defined.


(** ** The resolution buckets, in full *)

(** [mapSizeToIndex] fails by a failed assertion only. *)
Lemma mapSizeToIndex_Err (r : Z) (f : fault) :
  mapSizeToIndex r = Err f -> f = AssertFailed.
Proof.
  unfold mapSizeToIndex, rbind, Q_ASSERT.
  repeat match goal with |- context [if ?c then _ else _] => destruct c end;
    congruence.
Qed.

(** X1. [mapSizeToIndex] accepts exactly the five resolutions 256, 512,
    1024, 2048 and 4096 and answers the binary logarithm less 8; on
    every other [quint32] value, 0 and the values that are not a power
    of two among them, one of its assertions fails. *)
Theorem mapSizeToIndex_accepts (r : Z) :
  0 <= r < 4294967296 ->
  mapSizeToIndex r
  = if bool_decide (r ∈ [256; 512; 1024; 2048; 4096]) then Ok (Z.log2 r - 8)
    else Err AssertFailed.
Proof.
  intros Hr. case_bool_decide as Hin.
  - repeat (apply elem_of_cons in Hin as [->|Hin]; [vm_compute; reflexivity|]).
    by apply elem_of_nil in Hin.
  - destruct (mapSizeToIndex r) as [i|f] eqn:Hi.
    + exfalso. apply Hin.
      destruct (mapSizeToIndex_inv r i Hr Hi) as [Hrange ->].
      assert (Hcases : i = 0 \/ i = 1 \/ i = 2 \/ i = 3 \/ i = 4) by lia.
      destruct Hcases as [->|[->|[->|[->| ->]]]];
        apply (bool_decide_unpack _); vm_compute; exact I.
    + f_equal. by apply (mapSizeToIndex_Err r).
Qed.

Lemma mapSizeToIndex_accepts_witness :
  mapSizeToIndex 1000
  = if bool_decide (1000 ∈ [256; 512; 1024; 2048; 4096]) then Ok (Z.log2 1000 - 8)
    else Err AssertFailed.
Proof. apply (mapSizeToIndex_accepts 1000). lia. Defined.

(** X2. Decoding a bucket index with [indexToMapSize] and encoding the
    size again with [mapSizeToIndex] gives the index back for the
    indices 0 to 4; on every other [quint8] index the assertion of
    [indexToMapSize] fails. *)
Theorem index_round_trip (index : Z) :
  0 <= index < 256 ->
  rbind (indexToMapSize index) mapSizeToIndex
  = if index <=? 4 then Ok index else Err AssertFailed.
Proof.
  intros Hi. destruct (index <=? 4) eqn:Hle.
  - apply Z.leb_le in Hle.
    assert (Hcases : index = 0 \/ index = 1 \/ index = 2 \/ index = 3 \/ index = 4) by lia.
    destruct Hcases as [->|[->|[->|[->| ->]]]]; vm_compute; reflexivity.
  - unfold indexToMapSize, rbind, Q_ASSERT. by rewrite Hle.
Qed.

Lemma index_round_trip_witness :
  rbind (indexToMapSize 3) mapSizeToIndex = if 3 <=? 4 then Ok 3 else Err AssertFailed.
Proof. apply (index_round_trip 3). lia. Defined.


(** ** When a reconciliation ends well *)

(** X3. On a registry whose entries point to their textures,
    reconciling a list of fewer than 256 lights ends well exactly when
    every shadow-casting directional light asks for 256, 512, 1024 or
    2048; the resolutions of point and spot lights, and of lights that
    cast no shadow, are not looked at. *)
Theorem addShadowMaps_ends_well_iff (rhi : QRhi) (lights : list QSSGShaderLight)
    (st : State) :
  (length lights < 256)%nat ->
  derefOk st = true ->
  (exists st1, addShadowMaps (Some rhi) lights st = Ok (tt, st1)) <->
  supported lights = true.
Proof.
  intros Hlen Hok. split.
  - intros [st1 Hrun].
    destruct (addShadowMaps_inv _ _ _ _ Hrun) as (b & r & Hb & _).
    by apply (bucketLights_supported lights b).
  - intros Hsup.
    destruct (addShadowMaps_total (Some rhi) lights st Hsup Hlen Hok) as (st1 & Hrun & _).
    by exists st1.
Qed.

Lemma addShadowMaps_ends_well_iff_witness :
  (exists st1, addShadowMaps (Some example_rhi) example_lights initial = Ok (tt, st1)) <->
  supported example_lights = true.
Proof.
  apply (addShadowMaps_ends_well_iff example_rhi example_lights initial).
  - vm_compute. lia.
  - reflexivity.
Defined.

(** The loops of [addShadowMaps] on a list without shadow casters. *)
Lemma countLights_no_shadows (lights : list QSSGShaderLight) :
  existsb shadows lights = false ->
  forall (i : nat) (b : Buckets), countLights i lights b = Ok b.
Proof.
  induction lights as [|l rest IH]; intros Hno i b; [done|].
  cbn [existsb] in Hno. apply orb_false_elim in Hno as [Hl Hrest].
  cbn [countLights]. unfold countLight. rewrite Hl. cbn [negb orb rbind].
  destruct b. by apply IH.
Qed.

Lemma propertiesChanged_no_shadows (l2l : list Z) (lights : list QSSGShaderLight)
    (st : State) :
  existsb shadows lights = false ->
  forall i, propertiesChanged l2l i lights st = Ok false.
Proof.
  induction lights as [|l rest IH]; intros Hno i; [done|].
  cbn [existsb] in Hno. apply orb_false_elim in Hno as [Hl Hrest].
  cbn [propertiesChanged]. rewrite Hl. cbn [negb]. by apply IH.
Qed.

Lemma setupRenderTargets_no_shadows (rhi : QRhi) (l2l : list Z)
    (lights : list QSSGShaderLight) (st : State) :
  existsb shadows lights = false ->
  forall i, for_each (setupRenderTarget rhi l2l) i lights st = Ok (tt, st).
Proof.
  induction lights as [|l rest IH]; intros Hno i; [done|].
  cbn [existsb] in Hno. apply orb_false_elim in Hno as [Hl Hrest].
  cbn [for_each]. unfold bind, setupRenderTarget. rewrite Hl. cbn [negb ret].
  by apply IH.
Qed.

(** X4. Reconciling a list in which no light casts a shadow ends well
    on every registry: it releases everything when the registry has
    entries, and changes nothing when it has none. *)
Theorem addShadowMaps_no_shadows (rhi : QRhi) (lights : list QSSGShaderLight)
    (st : State) :
  existsb shadows lights = false ->
  addShadowMaps (Some rhi) lights st
  = Ok (tt, match m_shadowMapList st with
            | [] => st
            | _ :: _ => releaseCachedResources st
            end).
Proof.
  intros Hno. unfold addShadowMaps, bind, reads, bucketLights.
  rewrite (countLights_no_shadows lights Hno).
  unfold needsRebuild, shadowMapEntryCount. cbn [numShadows lightIndexToLayerIndex].
  destruct (m_shadowMapList st) as [|e entries] eqn:Hl.
  - cbn [length Z.of_nat Z.eqb negb].
    by rewrite (propertiesChanged_no_shadows _ lights st Hno).
  - cbn [length]. destruct (0 =? Z.of_nat (S (length entries))) eqn:Hz;
      [apply Z.eqb_eq in Hz; lia|].
    cbn [negb]. unfold rebuild, bind, modify. cbn [textureSizeLayerCount].
    cbn [replicate for_each]. unfold bind, createTextureArray. cbn [Z.eqb ret].
    by rewrite (setupRenderTargets_no_shadows rhi _ lights _ Hno).
Qed.

Lemma addShadowMaps_no_shadows_witness :
  addShadowMaps (Some example_rhi) [dark_light] example_state
  = Ok (tt, match m_shadowMapList example_state with
            | [] => example_state
            | _ :: _ => releaseCachedResources example_state
            end).
Proof.
  apply (addShadowMaps_no_shadows example_rhi [dark_light] example_state).
  reflexivity.
Defined.

(** X5. Along every sequence of reconcile and release calls of a fresh
    registry that end well, [isCompatible] comes to an answer on every
    entry, whatever the candidate: the pointer it follows is never null
    or dangling; and the rebuild decision of [addShadowMaps] comes to an
    answer for every light list that passes the first loop. *)
Theorem isCompatible_never_faults (rhi : QRhi) (calls : list Call) (sts : list State) :
  runCalls rhi calls initial = Ok sts ->
  Forall (fun st =>
            (forall e size layerIndex mode, e ∈ m_shadowMapList st ->
               exists r, isCompatible e size layerIndex mode (heap st) = Ok r) /\
            (forall lights b, bucketLights lights = Ok b ->
               exists r, needsRebuild lights b st = Ok r))
         sts.
Proof.
  intros Hrun.
  eapply Forall_impl; [exact (runCalls_derefOk rhi calls initial sts initial_derefOk Hrun)|].
  intros st Hok. split.
  - intros e size layerIndex mode He.
    by apply isCompatible_total.
  - intros lights b Hb.
    destruct (needsRebuild_decides lights b st Hb Hok) as (r & Hr & _). by exists r.
Qed.

Lemma isCompatible_never_faults_witness :
  Forall (fun st =>
            (forall e size layerIndex mode, e ∈ m_shadowMapList st ->
               exists r, isCompatible e size layerIndex mode (heap st) = Ok r) /\
            (forall lights b, bucketLights lights = Ok b ->
               exists r, needsRebuild lights b st = Ok r))
         frames_run.
Proof.
  apply (isCompatible_never_faults example_rhi frames frames_run).
  vm_compute. reflexivity.
Defined.

Lemma countb_mono {A} (f g : A -> bool) (l : list A) :
  (forall x, f x = true -> g x = true) -> (countb f l <= countb g l)%nat.
Proof.
  intros Hfg. induction l as [|x l IH]; [done|].
  rewrite !countb_cons. specialize (Hfg x).
  destruct (f x), (g x); first [lia|by specialize (Hfg eq_refl)].
Qed.

(** Without a shared array of the size, [Q_ASSERT(texture)] fails. *)
Lemma addDirectionalShadowMap_no_array (rhi : QRhi) (idx : Z) (size : QSize)
    (layerIndex : Z) (name : string) (st : State) :
  shadowMapEntry idx st = Ok None ->
  m_depthTextureArrays st !! size = None ->
  addDirectionalShadowMap rhi idx size layerIndex name st = Err AssertFailed.
Proof.
  intros Hfind Harr. destruct st as [l arrs hp n msgs w].
  cbn [m_depthTextureArrays] in Harr. unfold lookup in Harr.
  unfold addDirectionalShadowMap. unfold bind at 1. unfold reads at 1.
  rewrite Hfind. run. rewrite Harr. run. reflexivity.
Qed.

Lemma setupRenderTargets_no_array (rhi : QRhi) (l2l : list Z)
    (lights : list QSSGShaderLight) :
  forall (i : nat) (st : State),
  (forall e, e ∈ m_shadowMapList st -> m_lightIndex e < Z.of_nat i) ->
  (exists l, l ∈ lights /\ castsVSM l = true /\
     m_depthTextureArrays st !! (QSize_of (shadowMapRes l) (shadowMapRes l)) = None) ->
  for_each (setupRenderTarget rhi l2l) i lights st = Err AssertFailed.
Proof.
  induction lights as [|l0 rest IH]; intros i st Hidx (l & Hl & Hc & Hnone).
  - by apply elem_of_nil in Hl.
  - cbn [for_each]. unfold bind at 1.
    assert (Hrest : forall st1,
              m_depthTextureArrays st1 = m_depthTextureArrays st ->
              (forall e, e ∈ m_shadowMapList st1 -> m_lightIndex e < Z.of_nat (S i)) ->
              l <> l0 ->
              for_each (setupRenderTarget rhi l2l) (S i) rest st1 = Err AssertFailed).
    { intros st1 Ha Hidx1 Hne. apply IH; [done|]. exists l. rewrite Ha.
      split_and!; [|done|done]. apply elem_of_cons in Hl as [Heq|Hin]; done. }
    assert (Hentry : shadowMapEntry (Z.of_nat i) st = Ok None).
    { apply shadowMapEntry_None. intros e He. specialize (Hidx e He). lia. }
    unfold setupRenderTarget at 1.
    destruct (shadows l0) eqn:Hs; cbn [negb ret].
    2: { apply Hrest; [done| |].
         - intros e He. specialize (Hidx e He). lia.
         - intros ->. unfold castsVSM in Hc. by rewrite Hs in Hc. }
    destruct (mapModeOf l0) eqn:Hmode.
    + destruct (m_depthTextureArrays st !! (QSize_of (shadowMapRes l0) (shadowMapRes l0)))
        as [tex|] eqn:Htex.
      * destruct (addDirectionalShadowMap_spec rhi (Z.of_nat i)
                    (QSize_of (shadowMapRes l0) (shadowMapRes l0)) (layerIndexOf l2l i)
                    (debugObjectName (light l0)) st tex Hentry Htex)
          as (st1 & -> & Hl1 & Ha1 & _).
        apply Hrest; [done| |congruence].
        intros e. rewrite Hl1, elem_of_app, list_elem_of_singleton.
        intros [He| ->]; [specialize (Hidx e He); lia|cbn; lia].
      * by rewrite addDirectionalShadowMap_no_array.
    + destruct (addCubeShadowMap_spec rhi (Z.of_nat i)
                  (QSize_of (shadowMapRes l0) (shadowMapRes l0))
                  (debugObjectName (light l0)) st Hentry)
        as (st1 & -> & Hl1 & Ha1 & _).
      apply Hrest; [done| |].
      * intros e. rewrite Hl1, elem_of_app, list_elem_of_singleton.
        intros [He| ->]; [specialize (Hidx e He); lia|cbn; lia].
      * intros ->. unfold castsVSM in Hc. rewrite Hmode in Hc.
        by rewrite andb_false_r in Hc.
Qed.

(** X6. When the number of shadow-casting directional lights of one
    of the resolutions 256 to 2048 is a positive multiple of 256, the
    [quint8] counter of the bucket is back at 0 after the first loop, no
    shared array is allocated for the bucket, and reconciling on a
    registry without entries stops at a failed assertion (the one of
    [addDirectionalShadowMap] on the shared array). *)
Theorem bucket_overflow_fails (rhi : QRhi) (lights : list QSSGShaderLight)
    (st : State) (k : nat) :
  supported lights = true ->
  m_shadowMapList st = [] ->
  (k < 4)%nat ->
  (0 < countb (sameRes (2 ^ (Z.of_nat k + 8))) lights)%nat ->
  (countb (sameRes (2 ^ (Z.of_nat k + 8))) lights mod 256 = 0)%nat ->
  addShadowMaps (Some rhi) lights st = Err AssertFailed.
Proof.
  intros Hsup Hempty Hk Hpos Hmod.
  destruct (bucketLights_total lights Hsup) as [b Hb].
  destruct (bucketLights_spec _ _ Hb) as (Hn & Hlc & _ & Hcnt & _).
  assert (Hcount : countb (inBucket k) lights
                   = countb (sameRes (2 ^ (Z.of_nat k + 8))) lights).
  { apply countb_ext. intros x _. apply inBucket_sameRes. lia. }
  assert (Hr : needsRebuild lights b st = Ok true).
  { unfold needsRebuild, shadowMapEntryCount. rewrite Hn, Hempty. cbn [length].
    destruct (Z.of_nat (countb shadows lights) =? Z.of_nat 0) eqn:Hz; [|done].
    apply Z.eqb_eq in Hz. exfalso.
    assert (Hle : (countb (sameRes (2 ^ (Z.of_nat k + 8))) lights
                   <= countb shadows lights)%nat).
    { apply countb_mono. intros l. unfold sameRes, castsVSM.
      by destruct (shadows l). }
    lia. }
  rewrite (addShadowMaps_unfold rhi lights b true st Hb Hr).
  unfold rebuild, bind, modify.
  destruct (createTextureArrays_spec rhi (textureSizeLayerCount b) 0
              (releaseCachedResources st))
    as (sta & -> & Hla & _ & _ & _ & _ & _ & Hother).
  { rewrite Hlc. lia. }
  apply setupRenderTargets_no_array.
  { intros e. rewrite Hla. intros He. by apply elem_of_nil in He. }
  assert (Hex : exists l, l ∈ lights /\ sameRes (2 ^ (Z.of_nat k + 8)) l = true).
  { clear -Hpos. induction lights as [|l rest IH]; [cbn in Hpos; lia|].
    rewrite countb_cons in Hpos.
    destruct (sameRes (2 ^ (Z.of_nat k + 8)) l) eqn:Hl.
    - exists l. split; [by left|done].
    - destruct IH as (l' & Hin & Hl'); [lia|]. exists l'. split; [by right|done]. }
  destruct Hex as (l & Hin & Hl). unfold sameRes in Hl.
  apply andb_true_iff in Hl as [Hc Hres]. apply Z.eqb_eq in Hres.
  exists l. split_and!; [done|done|]. rewrite Hres.
  rewrite (QSize_of_bucket k) by lia.
  rewrite Hother; [apply lookup_empty|].
  intros k' c Hk' Hc' Heq. cbn [Nat.add] in Heq. apply bucketSize_inj in Heq. subst k'.
  rewrite (Hcnt k Hk), Hcount in Hk'. injection Hk' as <-. apply Hc'.
  unfold quint8. rewrite <- (Nat2Z.inj_mod _ 256), Hmod. done.
Qed.

Lemma bucket_overflow_fails_witness :
  addShadowMaps (Some example_rhi) overflow_lights initial = Err AssertFailed.
Proof.
  apply (bucket_overflow_fails example_rhi overflow_lights initial 0).
  - vm_compute. reflexivity.
  - reflexivity.
  - lia.
  - vm_compute. lia.
  - vm_compute. reflexivity.
Defined.


(** ** What the tear-down deletes *)

(** The store after the first loop of [releaseCachedResources]. *)
Lemma destroy_entries_lookup (l : list QSSGShadowMapEntry) :
  forall (hp : gmap nat RhiObject) (h : handle),
  foldl (fun hp entry => snd (destroyRhiResources entry hp)) hp l !! h
  = if decide (h ∈ concat (ownedHandles <$> l)) then None else hp !! h.
Proof.
  induction l as [|e l IH]; intros hp h; cbn [foldl fmap list_fmap concat].
  - rewrite decide_False; [done|]. apply not_elem_of_nil.
  - rewrite IH, destroyRhiResources_heap, qDeleteAll_lookup.
    destruct (decide (h ∈ concat (ownedHandles <$> l))) as [Hin|Hnin].
    + rewrite decide_True; [done|]. apply elem_of_app. by right.
    + destruct (decide (Some h ∈ ownedPointers e)) as [Hown|Hown].
      * rewrite decide_True; [done|]. apply elem_of_app. left.
        by apply elem_of_ownedHandles.
      * rewrite decide_False; [done|].
        intros [Hin|Hin]%elem_of_app; [|done].
        by apply elem_of_ownedHandles in Hin.
Qed.

(** The store after its second loop. *)
Lemma delete_arrays_lookup (l : list (Z * Z * nat)) :
  forall (hp : gmap nat RhiObject) (h : handle),
  foldr (uncurry (fun (_ : Z * Z) textureArray hp => delete textureArray hp)) hp l !! h
  = if decide (h ∈ l.*2) then None else hp !! h.
Proof.
  induction l as [|[k a] l IH]; intros hp h; cbn [foldr fmap list_fmap uncurry snd].
  - rewrite decide_False; [done|]. apply not_elem_of_nil.
  - destruct (decide (a = h)) as [->|Hne].
    + rewrite lookup_delete_eq, decide_True; [done|]. apply elem_of_cons. by left.
    + rewrite lookup_delete_ne, IH by done.
      destruct (decide (h ∈ l.*2)) as [Hin|Hnin].
      * rewrite decide_True; [done|]. apply elem_of_cons. by right.
      * rewrite decide_False; [done|].
        intros [Heq|Hin]%elem_of_cons; [congruence|done].
Qed.

Lemma releaseCachedResources_lookup (st : State) (h : handle) :
  heap (releaseCachedResources st) !! h
  = if decide (h ∈ registryHandles st) then None else heap st !! h.
Proof.
  unfold releaseCachedResources, registryHandles, arrayHandles. cbn [heap].
  rewrite map_fold_foldr, delete_arrays_lookup, destroy_entries_lookup.
  repeat case_decide; try done; exfalso;
    rewrite elem_of_app in *; tauto.
Qed.

(** X7. [releaseCachedResources] deletes the objects the registry is
    responsible for, the shared arrays of the map and what the entries
    own, and leaves every other object of the store, the allocation
    counter and the log as they were. *)
Theorem releaseCachedResources_frees (st : State) :
  (forall h, h ∈ registryHandles st -> heap (releaseCachedResources st) !! h = None) /\
  (forall h, h ∉ registryHandles st ->
     heap (releaseCachedResources st) !! h = heap st !! h) /\
  nextHandle (releaseCachedResources st) = nextHandle st /\
  messages (releaseCachedResources st) = messages st.
Proof.
  split_and!; try reflexivity.
  - intros h Hh. by rewrite releaseCachedResources_lookup, decide_True.
  - intros h Hh. by rewrite releaseCachedResources_lookup, decide_False.
Qed.


(** ** Relations that the construction code keeps *)

Section Keeps.
Variable R : State -> State -> Prop.
Hypothesis R_refl : forall st, R st st.
Hypothesis R_trans : forall st1 st2 st3, R st1 st2 -> R st2 st3 -> R st1 st3.

Lemma keeps_ret {A} (a : A) : keeps R (ret a).
Proof. intros st a' st' [= _ <-]. apply R_refl. Qed.

Lemma keeps_gets {A} (f : State -> A) : keeps R (gets f).
Proof. intros st a' st' [= _ <-]. apply R_refl. Qed.

Lemma keeps_reads {A} (f : State -> result A) : keeps R (reads f).
Proof.
  intros st a st'. unfold reads. destruct (f st); [|done].
  intros [= _ <-]. apply R_refl.
Qed.

Lemma keeps_assert (b : bool) : keeps R (assert b).
Proof. apply keeps_reads. Qed.

Lemma keeps_bind {A B} (m : M A) (k : A -> M B) :
  keeps R m -> (forall a, keeps R (k a)) -> keeps R (bind m k).
Proof.
  intros Hm Hk st b st'. unfold bind.
  destruct (m st) as [[a st1]|] eqn:Hrun; [|done].
  intros Hrest. apply (R_trans st st1 st'); [by eapply Hm|by eapply Hk].
Qed.

Lemma keeps_if {A} (c : bool) (m1 m2 : M A) :
  keeps R m1 -> keeps R m2 -> keeps R (if c then m1 else m2).
Proof. by destruct c. Qed.

Lemma keeps_modify (f : State -> State) :
  (forall st, R st (f st)) -> keeps R (modify f).
Proof. intros Hf st a st' [= _ <-]. apply Hf. Qed.

Lemma keeps_for_each {A} (body : nat -> A -> M unit) (l : list A) :
  (forall i x, keeps R (body i x)) -> forall i, keeps R (for_each body i l).
Proof.
  intros Hbody. induction l as [|x l IH]; intros i; cbn [for_each].
  - apply keeps_ret.
  - apply keeps_bind; [apply Hbody|intros _; apply IH].
Qed.

(** The relation is kept by the two allocation helpers and by the
    other steps of the construction code: a new render target or
    render-pass descriptor, a setter that leaves the kind and the size
    of the object alone, an update of the list of entries or of the
    map of arrays, the warning about a render target and the warning
    of the fallback. *)
Variable rhi : QRhi.
Hypothesis R_texture : forall fmt size n flags,
  keeps R (allocateRhiShadowTexture rhi fmt size n flags).
Hypothesis R_buffer : forall size, keeps R (allocateRhiShadowRenderBuffer rhi size).
Hypothesis R_target : forall d rp name,
  keeps R (newObject (RhiTextureRenderTarget d rp name)).
Hypothesis R_pass : keeps R (newObject RhiRenderPassDescriptor).
Hypothesis R_upd : forall h f,
  (forall o, failureOf (f o) = failureOf o) -> keeps R (updObject h f).
Hypothesis R_list : forall f st, R st (set_shadowMapList f st).
Hypothesis R_arrays : forall f st, R st (set_depthTextureArrays f st).
Hypothesis R_create : forall h,
  keeps R (qWarning_if (negb (createSucceeds rhi h)) FailedRenderTarget).
Hypothesis R_fallback :
  canBlur rhi = false ->
  keeps R (modify (set_warned true);; qWarning_if true CubeNotBlurred).

Ltac keeps_prog :=
  cbv zeta;
  lazymatch goal with
  | |- keeps _ (bind _ _) => apply keeps_bind; [keeps_prog|intros ?; keeps_prog]
  | |- keeps _ (ret _) => apply keeps_ret
  | |- keeps _ (gets _) => apply keeps_gets
  | |- keeps _ (reads _) => apply keeps_reads
  | |- keeps _ (assert _) => apply keeps_assert
  | |- keeps _ pEntry_get => apply keeps_reads
  | |- keeps _ (pEntry_set _) => apply keeps_modify, R_list
  | |- keeps _ (push_back _) => apply keeps_modify, R_list
  | |- keeps _ (modify (set_depthTextureArrays _)) => apply keeps_modify, R_arrays
  | |- keeps _ (allocateRhiShadowTexture _ _ _ _ _) => apply R_texture
  | |- keeps _ (allocateRhiShadowRenderBuffer _ _) => apply R_buffer
  | |- keeps _ (newObject (RhiTextureRenderTarget _ _ _)) => apply R_target
  | |- keeps _ (newObject RhiRenderPassDescriptor) => apply R_pass
  | |- keeps _ (updObject _ _) => apply R_upd; by intros []
  | |- keeps _ (qWarning_if (negb (createSucceeds _ _)) _) => apply R_create
  | |- keeps _ (if 6 <=? _ then _ else _) => idtac
  | |- keeps _ (if _ then _ else _) => apply keeps_if; keeps_prog
  | |- _ => idtac
  end.

Lemma keeps_addDirectionalShadowMap idx size layer name :
  keeps R (addDirectionalShadowMap rhi idx size layer name).
Proof. unfold addDirectionalShadowMap. keeps_prog. Qed.

Lemma keeps_cubeFaceTarget name i face :
  keeps R (cubeFaceTarget rhi name i face).
Proof. unfold cubeFaceTarget. keeps_prog. Qed.

Lemma keeps_addCubeShadowMap idx size name :
  keeps R (addCubeShadowMap rhi idx size name).
Proof.
  unfold addCubeShadowMap. keeps_prog;
    try (apply keeps_for_each; intros; apply keeps_cubeFaceTarget).
  fold (canBlur rhi). destruct (canBlur rhi) eqn:Hblur; [keeps_prog|].
  apply keeps_bind; [apply keeps_gets|intros w].
  destruct (negb w); [by apply R_fallback|apply keeps_ret].
Qed.

Lemma keeps_createTextureArray i n : keeps R (createTextureArray rhi i n).
Proof. unfold createTextureArray. keeps_prog. Qed.

Lemma keeps_setupRenderTarget l2l i l : keeps R (setupRenderTarget rhi l2l i l).
Proof.
  unfold setupRenderTarget. apply keeps_if; [apply keeps_ret|].
  destruct (mapModeOf l);
    [apply keeps_addDirectionalShadowMap|apply keeps_addCubeShadowMap].
Qed.

Lemma keeps_createTextureArrays counts i :
  keeps R (for_each (createTextureArray rhi) i counts).
Proof. apply keeps_for_each. intros j n. apply keeps_createTextureArray. Qed.

Lemma keeps_setupRenderTargets l2l lights i :
  keeps R (for_each (setupRenderTarget rhi l2l) i lights).
Proof. apply keeps_for_each. intros j l. apply keeps_setupRenderTarget. Qed.

(** Relations that are kept by the tear-down as well. *)
Hypothesis R_release : forall st, R st (releaseCachedResources st).

Lemma keeps_rebuild lights b : keeps R (rebuild rhi lights b).
Proof.
  unfold rebuild. apply keeps_bind; [by apply keeps_modify|intros _].
  apply keeps_bind; [apply keeps_createTextureArrays|intros _].
  apply keeps_setupRenderTargets.
Qed.

Lemma keeps_addShadowMaps lights : keeps R (addShadowMaps (Some rhi) lights).
Proof.
  unfold addShadowMaps. apply keeps_bind; [apply keeps_reads|intros b].
  apply keeps_bind; [apply keeps_reads|intros r].
  apply keeps_if; [apply keeps_ret|apply keeps_rebuild].
Qed.

Lemma keeps_call c : keeps R (call rhi c).
Proof.
  destruct c as [lights|]; cbn [call];
    [apply keeps_addShadowMaps|by apply keeps_modify].
Qed.
End Keeps.

(** The allocation helpers keep a relation that every allocation, every
  setter and the warning about a failed [create()] keep. *)
Section KeepsAllocation.
Variable R : State -> State -> Prop.
Hypothesis R_refl : forall st, R st st.
Hypothesis R_trans : forall st1 st2 st3, R st1 st2 -> R st2 st3 -> R st1 st3.
Variable rhi : QRhi.
Hypothesis R_new : forall o, keeps R (newObject o).
Hypothesis R_upd : forall h f, keeps R (updObject h f).
Hypothesis R_create : forall h msg,
  keeps R (qWarning_if (negb (createSucceeds rhi h)) msg).

Lemma keeps_allocateRhiShadowTexture fmt size n flags :
  keeps R (allocateRhiShadowTexture rhi fmt size n flags).
Proof.
  unfold allocateRhiShadowTexture.
  apply keeps_bind; [done|apply R_new|intros texture].
  apply keeps_bind; [done| |intros _].
  { apply keeps_if; [apply R_upd|by apply keeps_ret]. }
  apply keeps_bind; [done|apply R_create|intros _]. by apply keeps_ret.
Qed.

Lemma keeps_allocateRhiShadowRenderBuffer size :
  keeps R (allocateRhiShadowRenderBuffer rhi size).
Proof.
  unfold allocateRhiShadowRenderBuffer.
  apply keeps_bind; [done|apply R_new|intros renderBuffer].
  apply keeps_bind; [done|apply R_create|intros _]. by apply keeps_ret.
Qed.
End KeepsAllocation.


(** ** Who owns the objects of the store *)

Lemma allocated_refl (st : State) : allocated st st.
Proof. split; [lia|]. intros h. split; [by left|]. intros [H|H]; [done|lia]. Qed.

Lemma allocated_trans (st1 st2 st3 : State) :
  allocated st1 st2 -> allocated st2 st3 -> allocated st1 st3.
Proof.
  intros [Hle1 H1] [Hle2 H2]. split; [lia|]. intros h.
  rewrite H2, H1. split.
  - intros [[H|H]|H]; [by left|right; lia|right; lia].
  - intros [H|H]; [by left; left|].
    destruct (decide (h < nextHandle st2)%nat); [left; right; lia|right; lia].
Qed.

Lemma allocated_same (st st' : State) :
  heap st' = heap st -> nextHandle st' = nextHandle st -> allocated st st'.
Proof. intros Hh Hn. unfold allocated. rewrite Hh, Hn. apply allocated_refl. Qed.

Lemma allocated_newObject (o : RhiObject) : keeps allocated (newObject o).
Proof.
  intros st a st' [= _ <-]. split; cbn; [lia|]. intros h. unfold store.
  rewrite lookup_insert_is_Some'. split.
  - intros [<-|H]; [right; lia|by left].
  - intros [H|H]; [by right|left; lia].
Qed.

Lemma allocated_updObject (h : handle) (f : RhiObject -> RhiObject) :
  keeps allocated (updObject h f).
Proof.
  intros st a st' [= _ <-]. split; cbn; [lia|]. intros h'.
  rewrite lookup_alter_is_Some. split; [by left|]. intros [H|H]; [done|lia].
Qed.

Lemma allocated_qWarning_if (c : bool) (msg : Message) :
  keeps allocated (qWarning_if c msg).
Proof. intros st a st' [= _ <-]. by apply allocated_same. Qed.

Lemma allocated_fallback :
  keeps allocated (modify (set_warned true);; qWarning_if true CubeNotBlurred).
Proof. intros st a st' [= _ <-]. by apply allocated_same. Qed.

Lemma allocated_allocateRhiShadowTexture (rhi : QRhi) (fmt : Format) (size : QSize)
    (n : Z) (flags : list TextureFlag) :
  keeps allocated (allocateRhiShadowTexture rhi fmt size n flags).
Proof.
  apply keeps_allocateRhiShadowTexture;
    eauto using allocated_refl, allocated_trans, allocated_newObject,
      allocated_updObject, allocated_qWarning_if.
Qed.

Lemma allocated_allocateRhiShadowRenderBuffer (rhi : QRhi) (size : QSize) :
  keeps allocated (allocateRhiShadowRenderBuffer rhi size).
Proof.
  apply keeps_allocateRhiShadowRenderBuffer;
    eauto using allocated_refl, allocated_trans, allocated_newObject,
      allocated_qWarning_if.
Qed.

Ltac allocated_rules :=
  eauto using allocated_refl, allocated_trans, allocated_newObject,
    allocated_updObject, allocated_qWarning_if, allocated_fallback, allocated_same,
    allocated_allocateRhiShadowTexture, allocated_allocateRhiShadowRenderBuffer.

Lemma allocated_setupRenderTarget (rhi : QRhi) (l2l : list Z) (i : nat)
    (l : QSSGShaderLight) :
  keeps allocated (setupRenderTarget rhi l2l i l).
Proof. apply keeps_setupRenderTarget; allocated_rules. Qed.

Lemma allocated_createTextureArray (rhi : QRhi) (i : nat) (n : Z) :
  keeps allocated (createTextureArray rhi i n).
Proof. apply keeps_createTextureArray; allocated_rules. Qed.

Lemma allocated_createTextureArrays (rhi : QRhi) (counts : list Z) (i : nat) :
  keeps allocated (for_each (createTextureArray rhi) i counts).
Proof.
  apply keeps_for_each; [apply allocated_refl|apply allocated_trans|].
  intros j n. apply allocated_createTextureArray.
Qed.

Lemma allocated_setupRenderTargets (rhi : QRhi) (l2l : list Z)
    (lights : list QSSGShaderLight) (i : nat) :
  keeps allocated (for_each (setupRenderTarget rhi l2l) i lights).
Proof.
  apply keeps_for_each; [apply allocated_refl|apply allocated_trans|].
  intros j l. apply allocated_setupRenderTarget.
Qed.

Lemma registryHandles_snoc (st st' : State) (e : QSSGShadowMapEntry) :
  m_depthTextureArrays st' = m_depthTextureArrays st ->
  m_shadowMapList st' = m_shadowMapList st ++ [e] ->
  registryHandles st' = registryHandles st ++ ownedHandles e.
Proof.
  intros Ha Hl. unfold registryHandles, arrayHandles.
  rewrite Ha, Hl, fmap_app, concat_app. cbn. by rewrite app_nil_r, app_assoc.
Qed.

(** A new entry that owns exactly the objects allocated for it. *)
Lemma owns_snoc (st st' : State) (e : QSSGShadowMapEntry) (k : nat) :
  m_depthTextureArrays st' = m_depthTextureArrays st ->
  m_shadowMapList st' = m_shadowMapList st ++ [e] ->
  nextHandle st' = (k + nextHandle st)%nat ->
  allocated st st' ->
  NoDup (ownedHandles e) ->
  (forall h, h ∈ ownedHandles e <-> (nextHandle st <= h < k + nextHandle st)%nat) ->
  owns st -> owns st'.
Proof.
  intros Ha Hl Hn [_ Hdom] Hnodup Hown (Hnd & Hlive & Hbound).
  unfold owns. rewrite (registryHandles_snoc st st' e Ha Hl). split_and!.
  - apply NoDup_app. split_and!; [done| |done].
    intros h Hh Hh'. apply Hbound in Hh. apply Hown in Hh'. lia.
  - intros h. rewrite Hdom, elem_of_app, Hlive, Hown, Hn. done.
  - intros h [Hh|Hh]%elem_of_app; [apply Hbound in Hh|apply Hown in Hh]; lia.
Qed.

Lemma ownedHandles_cubeEntry_range (blur : bool) (n : handle) (idx : Z) :
  NoDup (ownedHandles (cubeEntry blur n idx)) /\
  forall h, h ∈ ownedHandles (cubeEntry blur n idx) <->
            (n <= h < (if blur then 13 else 10) + n)%nat.
Proof.
  unfold ownedHandles, ownedPointers. destruct blur; cbn; split.
  1,3: repeat (apply NoDup_cons; split;
               [rewrite ?elem_of_cons, elem_of_nil; lia|]); apply NoDup_nil_2.
  all: intros h; rewrite ?elem_of_cons, elem_of_nil; lia.
Qed.

Lemma ownedHandles_vsmEntry_range (n : handle) (idx : Z) (tex : option handle)
    (layerIndex : Z) :
  NoDup (ownedHandles (vsmEntry n idx tex layerIndex)) /\
  forall h, h ∈ ownedHandles (vsmEntry n idx tex layerIndex) <->
            (n <= h < 7 + n)%nat.
Proof.
  unfold ownedHandles, ownedPointers. cbn. split.
  - repeat (apply NoDup_cons; split;
            [rewrite ?elem_of_cons, elem_of_nil; lia|]); apply NoDup_nil_2.
  - intros h; rewrite ?elem_of_cons, elem_of_nil; lia.
Qed.

Lemma owns_setupRenderTarget (rhi : QRhi) (l2l : list Z) (i : nat)
    (l : QSSGShaderLight) :
  keeps (fun st st' => owns st -> owns st') (setupRenderTarget rhi l2l i l).
Proof.
  intros st [] st' Hrun Hown.
  pose proof (allocated_setupRenderTarget rhi l2l i l st tt st' Hrun) as Halloc.
  unfold setupRenderTarget in Hrun.
  destruct (shadows l); cbn [negb] in Hrun; [|by injection Hrun as <-].
  destruct (mapModeOf l).
  - destruct (addDirectionalShadowMap_inv _ _ _ _ _ _ _ Hrun) as [Hnone [tex Htex]].
    destruct (addDirectionalShadowMap_spec rhi (Z.of_nat i)
                (QSize_of (shadowMapRes l) (shadowMapRes l)) (layerIndexOf l2l i)
                (debugObjectName (light l)) st tex Hnone Htex)
      as (st1 & Hrun1 & Hl1 & Ha1 & Hn1 & _).
    rewrite Hrun in Hrun1. injection Hrun1 as <-.
    destruct (ownedHandles_vsmEntry_range (nextHandle st) (Z.of_nat i) (Some tex)
                (layerIndexOf l2l i)) as [Hnd Hrange].
    by apply (owns_snoc st st' _ 7 Ha1 Hl1 Hn1 Halloc Hnd Hrange).
  - pose proof (addCubeShadowMap_inv _ _ _ _ _ _ Hrun) as Hnone.
    destruct (addCubeShadowMap_spec rhi (Z.of_nat i)
                (QSize_of (shadowMapRes l) (shadowMapRes l))
                (debugObjectName (light l)) st Hnone)
      as (st1 & Hrun1 & Hl1 & Ha1 & Hn1 & _).
    rewrite Hrun in Hrun1. injection Hrun1 as <-.
    destruct (ownedHandles_cubeEntry_range (canBlur rhi) (nextHandle st) (Z.of_nat i))
      as [Hnd Hrange].
    by apply (owns_snoc st st' _ _ Ha1 Hl1 Hn1 Halloc Hnd Hrange).
Qed.

Lemma owns_createTextureArray (rhi : QRhi) (i : nat) (c : Z) (st st' : State) :
  (i <= 4)%nat -> c <> 0 ->
  m_depthTextureArrays st !! bucketSize i = None ->
  createTextureArray rhi i c st = Ok (tt, st') ->
  owns st -> owns st'.
Proof.
  intros Hi Hc Hfresh Hrun (Hnd & Hlive & Hbound).
  destruct (allocated_createTextureArray rhi i c st tt st' Hrun) as [_ Hdom].
  destruct (createTextureArray_spec rhi i c st Hi Hc)
    as (st1 & Hrun1 & Hl1 & Ha1 & Hn1 & _).
  rewrite Hrun in Hrun1. injection Hrun1 as <-.
  assert (Hperm : registryHandles st' ≡ₚ nextHandle st :: registryHandles st).
  { unfold registryHandles, arrayHandles. rewrite Ha1, Hl1.
    rewrite (map_to_list_insert _ _ _ Hfresh). done. }
  unfold owns. split_and!.
  - rewrite Hperm. apply NoDup_cons. split; [|done].
    intros Hin. apply Hbound in Hin. lia.
  - intros h. rewrite Hdom, Hperm, elem_of_cons, Hlive, Hn1. split.
    + intros [H|H]; [by right|left; lia].
    + intros [->|H]; [right; lia|by left].
  - intros h. rewrite Hperm, elem_of_cons, Hn1.
    intros [->|H]; [lia|]. apply Hbound in H. lia.
Qed.

(** How a property of the registry that the tear-down, the allocation of
  a shared array under a new key and the construction of an entry
  keep is kept by a rebuild, by every call and along every sequence of
  calls. *)
Section Invariant.
Variable rhi : QRhi.
Variable Inv : State -> Prop.
Hypothesis Inv_release : forall st, Inv st -> Inv (releaseCachedResources st).
Hypothesis Inv_array : forall i c st st',
  (i <= 4)%nat -> c <> 0 ->
  m_depthTextureArrays st !! bucketSize i = None ->
  createTextureArray rhi i c st = Ok (tt, st') -> Inv st -> Inv st'.
Hypothesis Inv_entry : forall l2l i l,
  keeps (fun st st' => Inv st -> Inv st') (setupRenderTarget rhi l2l i l).

Lemma inv_createTextureArrays (counts : list Z) :
  forall (i : nat) (st st' : State),
  (i + length counts <= 5)%nat ->
  (forall k, (i <= k)%nat -> m_depthTextureArrays st !! bucketSize k = None) ->
  for_each (createTextureArray rhi) i counts st = Ok (tt, st') ->
  Inv st -> Inv st'.
Proof.
  induction counts as [|c rest IH]; intros i st st' Hlen Hfresh Hrun Hinv.
  - by injection Hrun as <-.
  - cbn [for_each length] in *. unfold bind at 1 in Hrun.
    destruct (decide (c = 0)) as [->|Hc].
    + unfold createTextureArray at 1 in Hrun. cbn [Z.eqb ret] in Hrun.
      apply (IH (S i) st st'); [lia| |done|done].
      intros k Hk. apply Hfresh. lia.
    + destruct (createTextureArray_spec rhi i c st ltac:(lia) Hc)
        as (st1 & Hstep & _ & Ha1 & _).
      rewrite Hstep in Hrun.
      apply (IH (S i) st1 st'); [lia| |done|].
      * intros k Hk. rewrite Ha1, lookup_insert_ne; [apply Hfresh; lia|].
        intros Heq. apply bucketSize_inj in Heq. lia.
      * apply (Inv_array i c st st1); [lia|done| |done|done].
        apply Hfresh. lia.
Qed.

Lemma inv_setupRenderTargets (l2l : list Z) (lights : list QSSGShaderLight)
    (i : nat) :
  keeps (fun st st' => Inv st -> Inv st') (for_each (setupRenderTarget rhi l2l) i lights).
Proof. apply keeps_for_each; [tauto|tauto|]. intros j l. apply Inv_entry. Qed.

Lemma inv_rebuild (lights : list QSSGShaderLight) (b : Buckets) (st st1 : State) :
  length (textureSizeLayerCount b) = 4%nat ->
  rebuild rhi lights b st = Ok (tt, st1) ->
  Inv st -> Inv st1.
Proof.
  intros Hlc Hrun Hinv. unfold rebuild, bind, modify in Hrun.
  destruct (for_each (createTextureArray rhi) 0 (textureSizeLayerCount b)
              (releaseCachedResources st)) as [[[] sta]|] eqn:Hruna; [|done].
  apply (inv_setupRenderTargets (lightIndexToLayerIndex b) lights 0 sta tt st1 Hrun).
  apply (inv_createTextureArrays (textureSizeLayerCount b) 0
           (releaseCachedResources st) sta); [rewrite Hlc; lia| |done|].
  - intros k _. cbn. apply lookup_empty.
  - by apply Inv_release.
Qed.

Lemma inv_addShadowMaps (lights : list QSSGShaderLight) (st st1 : State) :
  addShadowMaps (Some rhi) lights st = Ok (tt, st1) -> Inv st -> Inv st1.
Proof.
  intros Hrun Hinv.
  destruct (addShadowMaps_inv _ _ _ _ Hrun) as (b & r & Hb & Hr & Hcase).
  destruct r; [|by subst st1].
  destruct (bucketLights_spec _ _ Hb) as (_ & Hlc & _).
  by apply (inv_rebuild lights b st st1).
Qed.

Lemma inv_call (c : Call) (st st1 : State) :
  call rhi c st = Ok (tt, st1) -> Inv st -> Inv st1.
Proof.
  intros Hrun Hinv. destruct c as [lights|]; cbn [call] in Hrun.
  - by apply (inv_addShadowMaps lights st st1).
  - unfold modify in Hrun. injection Hrun as <-. by apply Inv_release.
Qed.

Lemma inv_runCalls (calls : list Call) :
  forall (st : State) (sts : list State),
  Inv st -> runCalls rhi calls st = Ok sts ->
  Forall Inv sts /\ Inv (finalState st sts).
Proof.
  induction calls as [|c rest IH]; intros st sts Hinv Hrun.
  - injection Hrun as <-. split; [constructor|done].
  - cbn [runCalls] in Hrun.
    destruct (call rhi c st) as [[[] st1]|] eqn:Hcall; [|done].
    destruct (runCalls rhi rest st1) as [sts'|] eqn:Hrest; [|done].
    injection Hrun as <-.
    pose proof (inv_call c st st1 Hcall Hinv) as Hinv1.
    destruct (IH st1 sts' Hinv1 Hrest) as [Hall Hfinal].
    rewrite finalState_cons. split; [by constructor|done].
Qed.
End Invariant.

Lemma owns_initial : owns initial.
Proof.
  split_and!.
  - apply NoDup_nil_2.
  - intros h. cbn. rewrite lookup_empty. split; [by intros [? ?]|].
    intros H. by apply elem_of_nil in H.
  - intros h H. by apply elem_of_nil in H.
Qed.

Lemma registryHandles_release (st : State) :
  registryHandles (releaseCachedResources st) = [].
Proof.
  unfold registryHandles, arrayHandles. cbn. by rewrite map_to_list_empty.
Qed.

Lemma owns_release (st : State) : owns st -> owns (releaseCachedResources st).
Proof.
  intros (Hnd & Hlive & Hbound). unfold owns. rewrite registryHandles_release.
  split_and!.
  - apply NoDup_nil_2.
  - intros h. rewrite releaseCachedResources_lookup. split.
    + destruct (decide (h ∈ registryHandles st)) as [Hin|Hnin]; [by intros [? ?]|].
      intros H. by apply Hlive in H.
    + intros H. by apply elem_of_nil in H.
  - intros h H. by apply elem_of_nil in H.
Qed.

Lemma owns_release_empty (st : State) :
  owns st -> heap (releaseCachedResources st) = ∅.
Proof.
  intros Hown. apply map_empty. intros h.
  destruct (owns_release st Hown) as (_ & Hlive & _).
  rewrite registryHandles_release in Hlive.
  destruct (heap (releaseCachedResources st) !! h) eqn:Hh; [|done].
  exfalso. assert (His : is_Some (heap (releaseCachedResources st) !! h)) by by eexists.
  apply Hlive in His. by apply elem_of_nil in His.
Qed.

Lemma owns_runCalls (rhi : QRhi) (calls : list Call) (sts : list State) :
  runCalls rhi calls initial = Ok sts ->
  Forall owns sts /\ owns (finalState initial sts).
Proof.
  apply (inv_runCalls rhi owns owns_release); [| |exact owns_initial].
  - apply owns_createTextureArray.
  - apply owns_setupRenderTarget.
Qed.

(** X8. Along every sequence of reconcile and release calls of a fresh
    registry that end well, the objects the registry is responsible for
    are pairwise distinct, and they are exactly the objects of the
    store: nothing is leaked, no owning pointer dangles, and the
    tear-down deletes nothing twice. *)
Theorem registry_owns_every_object (rhi : QRhi) (calls : list Call)
    (sts : list State) :
  runCalls rhi calls initial = Ok sts ->
  Forall (fun st =>
            NoDup (registryHandles st) /\
            forall h, is_Some (heap st !! h) <-> h ∈ registryHandles st)
         sts.
Proof.
  intros Hrun.
  eapply Forall_impl; [exact (proj1 (owns_runCalls rhi calls sts Hrun))|].
  intros st (Hnd & Hlive & _). done.
Qed.

Lemma registry_owns_every_object_witness :
  Forall (fun st =>
            NoDup (registryHandles st) /\
            forall h, is_Some (heap st !! h) <-> h ∈ registryHandles st)
         frames_run.
Proof.
  apply (registry_owns_every_object example_rhi frames frames_run).
  vm_compute. reflexivity.
Defined.

(** X9. After every sequence of reconcile and release calls of a fresh
    registry that end well, and at every point in between, the
    destructor leaves the store empty. *)
Theorem destructor_frees_everything (rhi : QRhi) (calls : list Call)
    (sts : list State) :
  runCalls rhi calls initial = Ok sts ->
  Forall (fun st => heap (QSSGRenderShadowMap_destructor st) = ∅) sts.
Proof.
  intros Hrun.
  eapply Forall_impl; [exact (proj1 (owns_runCalls rhi calls sts Hrun))|].
  intros st Hown. by apply owns_release_empty.
Qed.

Lemma destructor_frees_everything_witness :
  Forall (fun st => heap (QSSGRenderShadowMap_destructor st) = ∅) frames_run.
Proof.
  apply (destructor_frees_everything example_rhi frames frames_run).
  vm_compute. reflexivity.
Defined.

(** The allocation counter after the fourth loop. *)
Lemma setupRenderTargets_nextHandle (rhi : QRhi) (l2l : list Z)
    (lights : list QSSGShaderLight) :
  forall (i : nat) (st st' : State),
  for_each (setupRenderTarget rhi l2l) i lights st = Ok (tt, st') ->
  nextHandle st' = (nextHandle st + entryObjects rhi lights)%nat.
Proof.
  unfold entryObjects.
  induction lights as [|l rest IH]; intros i st st' Hrun.
  - injection Hrun as <-. cbn. lia.
  - cbn [for_each] in Hrun. unfold bind at 1 in Hrun.
    destruct (setupRenderTarget rhi l2l i l st) as [[[] st1]|] eqn:Hstep; [|done].
    rewrite (IH _ _ _ Hrun). cbn [List.filter].
    unfold setupRenderTarget in Hstep.
    destruct (shadows l); cbn [negb] in Hstep; [|by injection Hstep as <-].
    cbn [fmap list_fmap sum_list sum_list_with]. unfold id. unfold handleSpan at 2.
    destruct (mapModeOf l).
    + destruct (addDirectionalShadowMap_inv _ _ _ _ _ _ _ Hstep) as [Hnone [tex Htex]].
      destruct (addDirectionalShadowMap_spec rhi (Z.of_nat i)
                  (QSize_of (shadowMapRes l) (shadowMapRes l)) (layerIndexOf l2l i)
                  (debugObjectName (light l)) st tex Hnone Htex)
        as (st2 & Hrun2 & _ & _ & Hn & _).
      rewrite Hstep in Hrun2. injection Hrun2 as <-. rewrite Hn. lia.
    + pose proof (addCubeShadowMap_inv _ _ _ _ _ _ Hstep) as Hnone.
      destruct (addCubeShadowMap_spec rhi (Z.of_nat i)
                  (QSize_of (shadowMapRes l) (shadowMapRes l))
                  (debugObjectName (light l)) st Hnone)
        as (st2 & Hrun2 & _ & _ & Hn & _).
      rewrite Hstep in Hrun2. injection Hrun2 as <-. rewrite Hn. lia.
Qed.

(** X10. A reconciliation that rebuilds replaces every object: after
    it, the store holds exactly the objects this call allocated, one per
    bucket in use and, per shadow-casting light, 7 for a directional
    light and 13 for a point or spot light (10 on a device with fewer
    than six colour attachments). *)
Theorem rebuild_replaces_every_object (rhi : QRhi) (calls : list Call)
    (sts : list State) (lights : list QSSGShaderLight) (b : Buckets) (st1 : State) :
  runCalls rhi calls initial = Ok sts ->
  bucketLights lights = Ok b ->
  needsRebuild lights b (finalState initial sts) = Ok true ->
  addShadowMaps (Some rhi) lights (finalState initial sts) = Ok (tt, st1) ->
  nextHandle st1
  = (nextHandle (finalState initial sts) + usedBuckets (textureSizeLayerCount b)
     + entryObjects rhi lights)%nat /\
  forall h, is_Some (heap st1 !! h) <->
            (nextHandle (finalState initial sts) <= h < nextHandle st1)%nat.
Proof.
  intros Hcalls Hb Hr Hrun. set (st := finalState initial sts) in *.
  destruct (owns_runCalls rhi calls sts Hcalls) as [_ Hown]. fold st in Hown.
  rewrite (addShadowMaps_unfold rhi lights b true st Hb Hr) in Hrun.
  unfold rebuild, bind, modify in Hrun.
  destruct (bucketLights_spec _ _ Hb) as (_ & Hlc & _).
  destruct (createTextureArrays_spec rhi (textureSizeLayerCount b) 0
              (releaseCachedResources st))
    as (sta & Hruna & _ & _ & _ & Hna & _).
  { rewrite Hlc. lia. }
  rewrite Hruna in Hrun.
  pose proof (setupRenderTargets_nextHandle rhi _ lights 0 sta st1 Hrun) as Hn1.
  destruct (allocated_createTextureArrays rhi _ 0 _ tt sta Hruna) as [_ Hdoma].
  destruct (allocated_setupRenderTargets rhi _ lights 0 sta tt st1 Hrun) as [_ Hdom1].
  cbn [nextHandle releaseCachedResources] in Hna, Hdoma.
  split; [lia|]. intros h. rewrite Hdom1, Hdoma.
  change (heap {| m_shadowMapList := []; m_depthTextureArrays := ∅;
                  heap := _; nextHandle := _; messages := _; warned := _ |})
    with (heap (releaseCachedResources st)).
  rewrite (owns_release_empty st Hown), lookup_empty.
  split.
  - intros [[[? ?]|?]|?]; [done|lia|lia].
  - intros Hh. destruct (decide (h < nextHandle sta)%nat); [left; right; lia|right; lia].
Qed.

Lemma rebuild_replaces_every_object_witness :
  nextHandle changed_state
  = (nextHandle (finalState initial [example_state])
     + usedBuckets (textureSizeLayerCount changed_buckets)
     + entryObjects example_rhi changed_lights)%nat /\
  forall h, is_Some (heap changed_state !! h) <->
            (nextHandle (finalState initial [example_state]) <= h
             < nextHandle changed_state)%nat.
Proof.
  apply (rebuild_replaces_every_object example_rhi [Reconcile example_lights]
           [example_state] changed_lights changed_buckets changed_state).
  - vm_compute. reflexivity.
  - vm_compute. reflexivity.
  - vm_compute. reflexivity.
  - vm_compute. reflexivity.
Defined.


(** ** Looking up the entry of a light *)

Lemma shadowCasters_lookup (lights : list QSSGShaderLight) :
  forall (i j : nat) (l : QSSGShaderLight),
  lights !! j = Some l -> shadows l = true -> ((i + j)%nat, l) ∈ shadowCasters i lights.
Proof.
  induction lights as [|l0 rest IH]; intros i j l Hj Hs.
  - by rewrite lookup_nil in Hj.
  - cbn [shadowCasters]. destruct j as [|j]; cbn in Hj.
    + injection Hj as ->. rewrite Hs, Nat.add_0_r. by left.
    + replace (i + S j)%nat with (S i + j)%nat by lia.
      destruct (shadows l0); [right|]; by apply IH.
Qed.

Lemma shadowCasters_NoDup (lights : list QSSGShaderLight) (i : nat) :
  NoDup ((fun jl => Z.of_nat jl.1) <$> shadowCasters i lights).
Proof.
  revert i. induction lights as [|l0 rest IH]; intros i; cbn [shadowCasters].
  - constructor.
  - destruct (shadows l0); [|apply IH].
    cbn [fmap list_fmap]. apply NoDup_cons. split; [|apply IH].
    intros Hin. apply list_elem_of_fmap in Hin as ([j l] & Heq & Hin).
    apply shadowCasters_elem in Hin as [Hle _]. cbn in *. lia.
Qed.

Lemma elem_of_casterIndices (lights : list QSSGShaderLight) (i : nat) :
  Z.of_nat i ∈ casterIndices lights <->
  exists l, lights !! i = Some l /\ shadows l = true.
Proof.
  unfold casterIndices. rewrite list_elem_of_fmap. split.
  - intros ([j l] & Heq & Hin). cbn in Heq. apply Nat2Z.inj in Heq. subst j.
    apply shadowCasters_elem in Hin as (_ & Hl & Hs).
    rewrite Nat.sub_0_r in Hl. by exists l.
  - intros (l & Hl & Hs). exists (i, l). split; [done|].
    by apply (shadowCasters_lookup lights 0 i l).
Qed.

(** Where the indices of the entries are the positions of the shadow casters, the lookup finds an entry exactly for them. *)
Lemma shadowMapEntry_casters (lights : list QSSGShaderLight) (st : State) (i : nat) :
  entryIndices st ≡ₚ casterIndices lights ->
  (forall l, lights !! i = Some l -> shadows l = true ->
     exists e, shadowMapEntry (Z.of_nat i) st = Ok (Some e)) /\
  ((forall l, lights !! i = Some l -> shadows l = false) ->
     shadowMapEntry (Z.of_nat i) st = Ok None).
Proof.
  intros Hperm. split.
  - intros l Hl Hs.
    assert (Hin : Z.of_nat i ∈ entryIndices st).
    { rewrite Hperm. apply elem_of_casterIndices. by exists l. }
    rewrite shadowMapEntry_nat.
    destruct (find _ _) as [e|] eqn:Hfind; [by exists e|exfalso].
    apply list_elem_of_fmap in Hin as (e & Heq & He).
    apply list_elem_of_In in He.
    pose proof (find_none _ _ Hfind e He) as Hne. cbn in Hne.
    apply Z.eqb_neq in Hne. done.
  - intros Hnot. apply shadowMapEntry_None. intros e He Heq.
    assert (Hin : Z.of_nat i ∈ casterIndices lights).
    { rewrite <- Hperm, <- Heq. apply list_elem_of_fmap. by exists e. }
    apply elem_of_casterIndices in Hin as (l & Hl & Hs).
    rewrite (Hnot l Hl) in Hs. done.
Qed.

Lemma entryIndices_rebuild (rhi : QRhi) (lights : list QSSGShaderLight) (b : Buckets)
    (st st1 : State) :
  bucketLights lights = Ok b ->
  rebuild rhi lights b st = Ok (tt, st1) ->
  entryIndices st1 = casterIndices lights.
Proof.
  intros Hb Hrun.
  destruct (rebuild_inv rhi lights b st st1 Hb Hrun)
    as (sta & _ & _ & _ & _ & _ & Hall & _).
  unfold entryIndices, casterIndices.
  induction Hall as [|[j l] e casters entries He _ IH]; [done|].
  cbn [fmap list_fmap]. f_equal; [|exact IH].
  by apply entryOf_index in He.
Qed.

Lemma entryIndices_settled (lights : list QSSGShaderLight) (b : Buckets) (st : State) :
  bucketLights lights = Ok b ->
  needsRebuild lights b st = Ok false ->
  NoDup (entryIndices st) ->
  casterIndices lights ≡ₚ entryIndices st.
Proof.
  intros Hb Hr Hnd. unfold needsRebuild in Hr.
  destruct (bucketLights_spec _ _ Hb) as (Hn & _).
  destruct (numShadows b =? shadowMapEntryCount st) eqn:Hcount; cbn [negb] in Hr;
    [|done].
  apply Z.eqb_eq in Hcount. rewrite Hn in Hcount. unfold shadowMapEntryCount in Hcount.
  apply submseteq_length_Permutation.
  - apply NoDup_submseteq; [apply shadowCasters_NoDup|].
    intros x Hx. unfold casterIndices in Hx.
    apply list_elem_of_fmap in Hx as ([j l] & -> & Hin). cbn.
    apply shadowCasters_elem in Hin as (_ & Hl & Hs). rewrite Nat.sub_0_r in Hl.
    destruct (propertiesChanged_settled st _ lights 0 Hr j l Hl Hs) as (e & He & _).
    apply shadowMapEntry_Some in He as [He Hidx].
    apply list_elem_of_fmap. by exists e.
  - unfold entryIndices, casterIndices. rewrite !length_fmap, length_shadowCasters. lia.
Qed.

(** X11. After a reconciliation that ends well on a registry whose
    entries have distinct light indices, the entries have distinct light
    indices again, there are as many entries as shadow-casting lights,
    and [shadowMapEntry] finds an entry, of the light's mode, at the
    position of every shadow-casting light and [nullptr] at every other
    position. *)
Theorem shadowMapEntry_after_addShadowMaps (rhi : QRhi)
    (lights : list QSSGShaderLight) (st st1 : State) :
  NoDup (entryIndices st) ->
  addShadowMaps (Some rhi) lights st = Ok (tt, st1) ->
  NoDup (entryIndices st1) /\
  shadowMapEntryCount st1 = Z.of_nat (countb shadows lights) /\
  forall i : nat,
    match lights !! i with
    | Some l =>
        if shadows l
        then exists e, shadowMapEntry (Z.of_nat i) st1 = Ok (Some e) /\
                       m_shadowMapMode e = mapModeOf l
        else shadowMapEntry (Z.of_nat i) st1 = Ok None
    | None => shadowMapEntry (Z.of_nat i) st1 = Ok None
    end.
Proof.
  intros Hnd Hrun.
  destruct (addShadowMaps_inv _ _ _ _ Hrun) as (b & r & Hb & Hr & Hcase).
  assert (Hperm : entryIndices st1 ≡ₚ casterIndices lights).
  { destruct r.
    - by rewrite (entryIndices_rebuild rhi lights b st st1 Hb Hcase).
    - subst st1. symmetry. by apply (entryIndices_settled lights b st). }
  split.
  { rewrite Hperm. apply shadowCasters_NoDup. }
  split.
  { unfold shadowMapEntryCount. f_equal.
    rewrite <- (length_fmap m_lightIndex). fold (entryIndices st1).
    rewrite Hperm. unfold casterIndices.
    by rewrite length_fmap, length_shadowCasters. }
  intros i. destruct (shadowMapEntry_casters lights st1 i Hperm) as [Hsome Hnone].
  destruct (lights !! i) as [l|] eqn:Hl; [|by apply Hnone].
  destruct (shadows l) eqn:Hs; [|apply Hnone; by intros l' [= <-]].
  destruct (Hsome l eq_refl Hs) as [e He]. exists e. split; [done|].
  destruct r.
  - destruct (rebuild_inv rhi lights b st st1 Hb Hcase)
      as (sta & _ & _ & _ & _ & _ & Hall & _).
    destruct (shadowCasters_entry
                (entryOf rhi (lightIndexToLayerIndex b) (m_depthTextureArrays sta)
                   (heap st1) (nextHandle sta) (nextHandle st1))
                lights (entryOf_index _ _ _ _ _ _) 0 _ Hall i l Hl Hs)
      as (e' & Hfilter & He').
    cbn [Nat.add] in *. apply find_filter in Hfilter.
    rewrite shadowMapEntry_nat in He. assert (e' = e) as -> by congruence.
    by apply entryOf_mode in He'.
  - subst st1. unfold needsRebuild in Hr.
    destruct (numShadows b =? shadowMapEntryCount st); cbn [negb] in Hr; [|done].
    destruct (propertiesChanged_settled st _ lights 0 Hr i l Hl Hs) as (e' & He' & Hc).
    cbn [Nat.add] in *. assert (e' = e) as -> by congruence.
    by apply isCompatible_true_mode in Hc.
Qed.

Lemma shadowMapEntry_after_addShadowMaps_witness :
  NoDup (entryIndices changed_state) /\
  shadowMapEntryCount changed_state = Z.of_nat (countb shadows changed_lights) /\
  forall i : nat,
    match changed_lights !! i with
    | Some l =>
        if shadows l
        then exists e, shadowMapEntry (Z.of_nat i) changed_state = Ok (Some e) /\
                       m_shadowMapMode e = mapModeOf l
        else shadowMapEntry (Z.of_nat i) changed_state = Ok None
    | None => shadowMapEntry (Z.of_nat i) changed_state = Ok None
    end.
Proof.
  apply (shadowMapEntry_after_addShadowMaps example_rhi changed_lights example_state).
  - apply (bool_decide_unpack _). vm_compute. exact I.
  - vm_compute. reflexivity.
Defined.


(** ** The log *)

Lemma appended_refl (st : State) : appended st st.
Proof. by unfold appended. Qed.

Lemma appended_trans (st1 st2 st3 : State) :
  appended st1 st2 -> appended st2 st3 -> appended st1 st3.
Proof. unfold appended. intros H1 H2. by etrans. Qed.

Lemma appended_same (st st' : State) : messages st' = messages st -> appended st st'.
Proof. unfold appended. by intros ->. Qed.

Lemma appended_qWarning_if (c : bool) (msg : Message) : keeps appended (qWarning_if c msg).
Proof. intros st a st' [= _ <-]. by apply prefix_app_r. Qed.

Lemma appended_addShadowMaps (rhi : QRhi) (lights : list QSSGShaderLight) :
  keeps appended (addShadowMaps (Some rhi) lights).
Proof.
  assert (Hnew : forall o, keeps appended (newObject o)).
  { intros o st a st' [= _ <-]. by apply appended_same. }
  assert (Hupd : forall h f, keeps appended (updObject h f)).
  { intros h f st a st' [= _ <-]. by apply appended_same. }
  apply keeps_addShadowMaps;
    eauto using appended_refl, appended_trans, appended_same, appended_qWarning_if.
  - intros fmt size n flags. apply keeps_allocateRhiShadowTexture;
      eauto using appended_refl, appended_trans, appended_qWarning_if.
  - intros size. apply keeps_allocateRhiShadowRenderBuffer;
      eauto using appended_refl, appended_trans, appended_qWarning_if.
  - intros _ st a st' [= _ <-]. by apply prefix_app_r.
Qed.

Lemma silent_addShadowMaps (rhi : QRhi) (lights : list QSSGShaderLight) :
  (forall h, createSucceeds rhi h = true) ->
  6 <= MaxColorAttachments rhi ->
  keeps silent (addShadowMaps (Some rhi) lights).
Proof.
  intros Hcreate Hblur.
  assert (Hrefl : forall st, silent st st) by done.
  assert (Htrans : forall st1 st2 st3, silent st1 st2 -> silent st2 st3 -> silent st1 st3).
  { unfold silent. congruence. }
  assert (Hnew : forall o, keeps silent (newObject o)).
  { by intros o st a st' [= _ <-]. }
  assert (Hupd : forall h f, keeps silent (updObject h f)).
  { by intros h f st a st' [= _ <-]. }
  assert (Hwarn : forall h msg,
            keeps silent (qWarning_if (negb (createSucceeds rhi h)) msg)).
  { intros h msg st a st' [= _ <-]. unfold silent. rewrite Hcreate. cbn.
    apply app_nil_r. }
  apply keeps_addShadowMaps; eauto.
  - intros fmt size n flags. by apply keeps_allocateRhiShadowTexture.
  - intros size. by apply keeps_allocateRhiShadowRenderBuffer.
  - unfold canBlur. intros Hno. apply Z.leb_gt in Hno. lia.
Qed.

(** X12. A reconciliation that ends well removes nothing from the log,
    and on a device on which every [create()] succeeds and that has at
    least six colour attachments it logs nothing. *)
Theorem addShadowMaps_messages (rhi : QRhi) (lights : list QSSGShaderLight)
    (st st1 : State) :
  addShadowMaps (Some rhi) lights st = Ok (tt, st1) ->
  messages st `prefix_of` messages st1 /\
  ((forall h, createSucceeds rhi h = true) -> 6 <= MaxColorAttachments rhi ->
   messages st1 = messages st).
Proof.
  intros Hrun. split.
  - by apply (appended_addShadowMaps rhi lights st tt st1).
  - intros Hcreate Hblur. by apply (silent_addShadowMaps rhi lights Hcreate Hblur st tt st1).
Qed.

Lemma addShadowMaps_messages_witness :
  messages initial `prefix_of` messages example_state /\
  ((forall h, createSucceeds example_rhi h = true) ->
   6 <= MaxColorAttachments example_rhi ->
   messages example_state = messages initial).
Proof.
  apply (addShadowMaps_messages example_rhi example_lights initial example_state).
  vm_compute. reflexivity.
Defined.

Lemma reported_same (rhi : QRhi) (st st' : State) :
  heap st' = heap st -> messages st `prefix_of` messages st' ->
  reported rhi st -> reported rhi st'.
Proof.
  intros Hh [new Hm] Hrep h o msg. rewrite Hh, Hm. intros Ho Hc Hf.
  apply elem_of_app. left. by apply (Hrep h o).
Qed.

(** A new texture or buffer and the warning about it. *)
Lemma reported_allocate (rhi : QRhi) (st : State) (o : RhiObject) (msg : Message)
    (f : RhiObject -> RhiObject) :
  failureOf o = Some msg ->
  (forall o', failureOf (f o') = failureOf o') ->
  reported rhi st ->
  reported rhi
    (set_messages
       (fun ms => ms ++ (if negb (createSucceeds rhi (nextHandle st)) then [msg] else []))
       (set_heap (alter f (nextHandle st))
          (set_nextHandle (S (nextHandle st))
             (set_heap (store (nextHandle st) o) st)))).
Proof.
  intros Ho Hf Hrep h o' msg'. cbn. unfold store.
  destruct (decide (h = nextHandle st)) as [->|Hne].
  - rewrite lookup_alter_eq, lookup_insert_eq. cbn. intros [= <-] Hc.
    rewrite Hf, Ho. intros [= <-]. rewrite Hc. cbn. apply elem_of_app. right. by left.
  - rewrite lookup_alter_ne, lookup_insert_ne by done. intros Ho' Hc Hf'.
    apply elem_of_app. left. by apply (Hrep h o').
Qed.

Lemma reported_allocateRhiShadowTexture (rhi : QRhi) (fmt : Format) (size : QSize)
    (n : Z) (flags : list TextureFlag) :
  keeps (fun st st' => reported rhi st -> reported rhi st')
    (allocateRhiShadowTexture rhi fmt size n flags).
Proof.
  intros st a st' Hrun Hrep. revert Hrun.
  unfold allocateRhiShadowTexture, bind, newObject, updObject, qWarning_if, modify, ret.
  destruct (hasFlag flags TextureArray); intros [= _ <-].
  - apply (reported_allocate rhi st _ (FailedShadowTexture size) (setArraySize n));
      [done|by intros []|done].
  - pose proof (reported_allocate rhi st (RhiTexture fmt size 0 flags)
                  (FailedShadowTexture size) id eq_refl ltac:(done) Hrep) as H.
    intros h o msg Ho. apply (H h o msg). revert Ho. cbn. unfold store.
    destruct (decide (h = nextHandle st)) as [->|Hne].
    + by rewrite lookup_alter_eq, lookup_insert_eq, option_fmap_id.
    + by rewrite lookup_alter_ne by done.
Qed.

Lemma reported_allocateRhiShadowRenderBuffer (rhi : QRhi) (size : QSize) :
  keeps (fun st st' => reported rhi st -> reported rhi st')
    (allocateRhiShadowRenderBuffer rhi size).
Proof.
  intros st a st' Hrun Hrep. revert Hrun.
  unfold allocateRhiShadowRenderBuffer, bind, newObject, qWarning_if, modify, ret.
  intros [= _ <-].
  pose proof (reported_allocate rhi st (RhiRenderBuffer size)
                (FailedDepthStencil size) id eq_refl ltac:(done) Hrep) as H.
  intros h o msg Ho. apply (H h o msg). revert Ho. cbn. unfold store.
  destruct (decide (h = nextHandle st)) as [->|Hne].
  - by rewrite lookup_alter_eq, lookup_insert_eq, option_fmap_id.
  - by rewrite lookup_alter_ne by done.
Qed.

Lemma reported_newObject (rhi : QRhi) (o : RhiObject) :
  failureOf o = None ->
  keeps (fun st st' => reported rhi st -> reported rhi st') (newObject o).
Proof.
  intros Ho st a st' [= _ <-] Hrep h o' msg. cbn. unfold store.
  destruct (decide (h = nextHandle st)) as [->|Hne].
  - rewrite lookup_insert_eq. intros [= <-] _. by rewrite Ho.
  - rewrite lookup_insert_ne by done. apply Hrep.
Qed.

Lemma reported_updObject (rhi : QRhi) (h : handle) (f : RhiObject -> RhiObject) :
  (forall o, failureOf (f o) = failureOf o) ->
  keeps (fun st st' => reported rhi st -> reported rhi st') (updObject h f).
Proof.
  intros Hf st a st' [= _ <-] Hrep h' o msg. cbn.
  destruct (decide (h' = h)) as [->|Hne].
  - rewrite lookup_alter_eq. destruct (heap st !! h) as [o0|] eqn:Ho0; [|done].
    cbn. intros [= <-] Hc. rewrite Hf. by apply (Hrep h o0).
  - rewrite lookup_alter_ne by done. apply Hrep.
Qed.

Lemma reported_release (rhi : QRhi) (st : State) :
  reported rhi st -> reported rhi (releaseCachedResources st).
Proof.
  intros Hrep h o msg. rewrite releaseCachedResources_lookup.
  destruct (decide (h ∈ registryHandles st)); [done|]. apply Hrep.
Qed.

Lemma reported_call (rhi : QRhi) (c : Call) :
  keeps (fun st st' => reported rhi st -> reported rhi st') (call rhi c).
Proof.
  apply keeps_call; try tauto.
  - apply reported_allocateRhiShadowTexture.
  - apply reported_allocateRhiShadowRenderBuffer.
  - intros d rp name. by apply reported_newObject.
  - by apply reported_newObject.
  - apply reported_updObject.
  - intros h st a st' [= _ <-]. apply reported_same; [done|by apply prefix_app_r].
  - intros _ st a st' [= _ <-]. apply reported_same; [done|by apply prefix_app_r].
  - apply reported_release.
Qed.

Lemma reported_runCalls (rhi : QRhi) (calls : list Call) :
  forall (st : State) (sts : list State),
  reported rhi st -> runCalls rhi calls st = Ok sts -> Forall (reported rhi) sts.
Proof.
  induction calls as [|c rest IH]; intros st sts Hinv Hrun.
  - injection Hrun as <-. constructor.
  - cbn [runCalls] in Hrun.
    destruct (call rhi c st) as [[[] st1]|] eqn:Hcall; [|done].
    destruct (runCalls rhi rest st1) as [sts'|] eqn:Hrest; [|done].
    injection Hrun as <-.
    pose proof (reported_call rhi c st tt st1 Hcall Hinv) as Hinv1.
    constructor; [done|]. by apply (IH st1).
Qed.

(** X13. Along every sequence of reconcile and release calls of a
    fresh registry that end well, every texture and every depth-stencil
    buffer of the store whose [create()] failed has its warning in the
    log, with its size. *)
Theorem failed_creates_are_reported (rhi : QRhi) (calls : list Call)
    (sts : list State) :
  runCalls rhi calls initial = Ok sts ->
  Forall (fun st =>
            forall h, createSucceeds rhi h = false ->
              (forall fmt size n flags,
                 heap st !! h = Some (RhiTexture fmt size n flags) ->
                 FailedShadowTexture size ∈ messages st) /\
              (forall size,
                 heap st !! h = Some (RhiRenderBuffer size) ->
                 FailedDepthStencil size ∈ messages st))
         sts.
Proof.
  intros Hrun.
  assert (Hinit : reported rhi initial).
  { intros h o msg Ho. cbn in Ho. by rewrite lookup_empty in Ho. }
  eapply Forall_impl; [exact (reported_runCalls rhi calls initial sts Hinit Hrun)|].
  intros st Hrep h Hc. split.
  - intros fmt size n flags Ho. by apply (Hrep h _ _ Ho Hc).
  - intros size Ho. by apply (Hrep h _ _ Ho Hc).
Qed.

Lemma failed_creates_are_reported_witness :
  Forall (fun st =>
            forall h, createSucceeds small_rhi h = false ->
              (forall fmt size n flags,
                 heap st !! h = Some (RhiTexture fmt size n flags) ->
                 FailedShadowTexture size ∈ messages st) /\
              (forall size,
                 heap st !! h = Some (RhiRenderBuffer size) ->
                 FailedDepthStencil size ∈ messages st))
         example_run.
Proof.
  apply (failed_creates_are_reported small_rhi example_calls example_run).
  vm_compute. reflexivity.
Defined.


(** ** What the entries are made of *)

(** The objects [addDirectionalShadowMap] leaves in the store. *)
Lemma addDirectionalShadowMap_objects (rhi : QRhi) (idx : Z) (size : QSize)
    (layerIndex : Z) (name : string) (st : State) (tex : handle) :
  shadowMapEntry idx st = Ok None ->
  m_depthTextureArrays st !! size = Some tex ->
  exists st', addDirectionalShadowMap rhi idx size layerIndex name st = Ok (tt, st') /\
    heap st' !! nextHandle st
    = Some (RhiTexture (getShadowMapTextureFormat rhi) size 0 [RenderTarget]) /\
    heap st' !! (1 + nextHandle st)%nat = Some (RhiRenderBuffer size) /\
    wired (heap st') (vsmEntry (nextHandle st) idx (Some tex) layerIndex).
Proof.
  intros Hfind Harr. destruct st as [l arrs hp n msgs w].
  cbn [m_depthTextureArrays] in Harr. unfold lookup in Harr.
  eexists. split.
  { unfold addDirectionalShadowMap. unfold bind at 1. unfold reads at 1.
    rewrite Hfind. exec. rewrite Harr. exec. reflexivity. }
  unfold wired, targetOf, objectAt. proj. cbn [vsmEntry m_shadowMapMode renderTarget
    m_rhiRenderTargets m_rhiBlurRenderTarget0 m_rhiBlurRenderTarget1 lookup
    list_lookup default from_option id m_rhiDepthTextureArray m_depthArrayIndex
    m_rhiDepthStencil m_rhiRenderPassDesc m_rhiDepthCopy m_rhiBlurRenderPassDesc].
  split_and!; heap_lookup; reflexivity.
Qed.

(** The objects [addCubeShadowMap] leaves in the store. *)
Lemma addCubeShadowMap_objects (rhi : QRhi) (idx : Z) (size : QSize) (name : string)
    (st : State) :
  shadowMapEntry idx st = Ok None ->
  exists st', addCubeShadowMap rhi idx size name st = Ok (tt, st') /\
    heap st' !! nextHandle st
    = Some (RhiTexture (getShadowMapTextureFormat rhi) size 0 [RenderTarget; CubeMap]) /\
    heap st' !! (1 + nextHandle st)%nat
    = Some (RhiTexture (getShadowMapTextureFormat rhi) size 0 [RenderTarget; CubeMap]) /\
    heap st' !! (2 + nextHandle st)%nat = Some (RhiRenderBuffer size) /\
    wired (heap st') (cubeEntry (canBlur rhi) (nextHandle st) idx).
Proof.
  intros Hfind. destruct st as [l arrs hp n msgs w].
  unfold canBlur.
  destruct (6 <=? MaxColorAttachments rhi) eqn:Hblur; [|destruct w];
    (eexists; split;
     [unfold addCubeShadowMap; unfold bind at 1; unfold reads at 1;
      rewrite Hfind; exec; rewrite Hblur; exec; reflexivity|]);
    unfold wired, targetOf, objectAt; proj.
  all: cbn [cubeEntry m_shadowMapMode renderTarget
    m_rhiRenderTargets m_rhiBlurRenderTarget0 m_rhiBlurRenderTarget1
    m_rhiDepthCube m_rhiCubeCopy
    m_rhiDepthStencil m_rhiRenderPassDesc m_rhiBlurRenderPassDesc].
  all: split_and!; try (heap_lookup; reflexivity).
  all: try (intros face; destruct face; cbn; heap_lookup; reflexivity).
  all: try (by left).
  all: right; split; heap_lookup; reflexivity.
Qed.

Lemma objectAt_frame (hp hp' : gmap nat RhiObject) (bound : handle) (p : option handle) :
  (forall h, (h < bound)%nat -> hp' !! h = hp !! h) ->
  (forall h, p = Some h -> (h < bound)%nat) ->
  objectAt hp' p = objectAt hp p.
Proof. intros Hframe Hp. destruct p as [h|]; [|done]. cbn. by apply Hframe, Hp. Qed.

Lemma targetOf_frame (hp hp' : gmap nat RhiObject) (bound : handle) (p : option handle) :
  (forall h, (h < bound)%nat -> hp' !! h = hp !! h) ->
  (forall h, p = Some h -> (h < bound)%nat) ->
  targetOf hp' p = targetOf hp p.
Proof. intros Hframe Hp. unfold targetOf. by rewrite (objectAt_frame hp hp' bound). Qed.

Lemma renderTarget_owned (e : QSSGShadowMapEntry) (i : nat) (h : handle) :
  renderTarget e i = Some h -> h ∈ ownedHandles e.
Proof.
  unfold renderTarget. intros H. apply elem_of_ownedHandles.
  unfold ownedPointers. rewrite !elem_of_app. right. left.
  destruct (m_rhiRenderTargets e !! i) as [p|] eqn:Hp; cbn in H; [|done].
  subst p. by eapply list_elem_of_lookup_2.
Qed.

Lemma field_owned (e : QSSGShadowMapEntry) (h : handle) :
  Some h ∈ [m_rhiDepthCopy e; m_rhiDepthCube e; m_rhiCubeCopy e; m_rhiDepthStencil e;
            m_rhiRenderPassDesc e; m_rhiBlurRenderTarget0 e;
            m_rhiBlurRenderTarget1 e; m_rhiBlurRenderPassDesc e] ->
  h ∈ ownedHandles e.
Proof.
  intros H. apply elem_of_ownedHandles. unfold ownedPointers.
  rewrite !elem_of_app. rewrite !elem_of_cons in *. tauto.
Qed.

Lemma wired_frame (hp hp' : gmap nat RhiObject) (bound : handle)
    (e : QSSGShadowMapEntry) :
  (forall h, (h < bound)%nat -> hp' !! h = hp !! h) ->
  (forall h, h ∈ ownedHandles e -> (h < bound)%nat) ->
  wired hp e -> wired hp' e.
Proof.
  intros Hframe Hown. unfold wired.
  assert (Hrt : forall i, targetOf hp' (renderTarget e i) = targetOf hp (renderTarget e i)).
  { intros i. apply (targetOf_frame hp hp' bound _ Hframe).
    intros h Hh. by apply Hown, (renderTarget_owned e i). }
  assert (Hb0 : targetOf hp' (m_rhiBlurRenderTarget0 e)
                = targetOf hp (m_rhiBlurRenderTarget0 e)).
  { apply (targetOf_frame hp hp' bound _ Hframe). intros h Hh.
    apply Hown, field_owned. rewrite Hh, !elem_of_cons. tauto. }
  assert (Hb1 : targetOf hp' (m_rhiBlurRenderTarget1 e)
                = targetOf hp (m_rhiBlurRenderTarget1 e)).
  { apply (targetOf_frame hp hp' bound _ Hframe). intros h Hh.
    apply Hown, field_owned. rewrite Hh, !elem_of_cons. tauto. }
  destruct (m_shadowMapMode e); rewrite ?Hb0, ?Hb1, ?Hrt; [done|].
  intros [Hfaces Hblur]. split; [|done]. intros face. by rewrite Hrt.
Qed.

Lemma sizedAt_frame (rhi : QRhi) (hp hp' : gmap nat RhiObject) (bound : handle)
    (size : QSize) (e : QSSGShadowMapEntry) :
  (forall h, (h < bound)%nat -> hp' !! h = hp !! h) ->
  (forall h, h ∈ ownedHandles e -> (h < bound)%nat) ->
  (forall h, is_Some (hp !! h) -> (h < bound)%nat) ->
  sizedAt rhi hp size e -> sizedAt rhi hp' size e.
Proof.
  intros Hframe Hown Hlive. unfold sizedAt.
  assert (Hfield : forall p,
            p ∈ [m_rhiDepthCopy e; m_rhiDepthCube e; m_rhiCubeCopy e; m_rhiDepthStencil e] ->
            objectAt hp' p = objectAt hp p).
  { intros p Hp. apply (objectAt_frame hp hp' bound _ Hframe). intros h ->.
    apply Hown, field_owned. rewrite !elem_of_cons in *. tauto. }
  rewrite (Hfield (m_rhiDepthStencil e)), (Hfield (m_rhiDepthCopy e)),
    (Hfield (m_rhiDepthCube e)), (Hfield (m_rhiCubeCopy e))
    by (rewrite !elem_of_cons; tauto).
  destruct (m_shadowMapMode e); [|done].
  intros (Hds & [n Harr] & Hcopy). split_and!; [done| |done].
  exists n. rewrite <- Harr. destruct (m_rhiDepthTextureArray e) as [h|]; [|done].
  cbn in *. apply Hframe, Hlive. by eexists.
Qed.

Lemma owns_entry_bound (st : State) (e : QSSGShadowMapEntry) (h : handle) :
  owns st -> e ∈ m_shadowMapList st -> h ∈ ownedHandles e -> (h < nextHandle st)%nat.
Proof.
  intros (_ & _ & Hbound) He Hh. apply Hbound. unfold registryHandles.
  apply elem_of_app. right. apply list_elem_of_In, in_concat.
  exists (ownedHandles e). split; apply list_elem_of_In; [|done].
  apply list_elem_of_fmap. by exists e.
Qed.

Lemma owns_live_bound (st : State) (h : handle) :
  owns st -> is_Some (heap st !! h) -> (h < nextHandle st)%nat.
Proof. intros (_ & Hlive & Hbound) Hh. by apply Hbound, Hlive. Qed.

(** Entries that are well built stay so when the store only changes
    above the allocation counter. *)
Lemma wellBuilt_frame (rhi : QRhi) (st st' : State) :
  owns st ->
  (forall h, (h < nextHandle st)%nat -> heap st' !! h = heap st !! h) ->
  Forall (fun e => wired (heap st) e /\ exists size, sizedAt rhi (heap st) size e)
         (m_shadowMapList st) ->
  Forall (fun e => wired (heap st') e /\ exists size, sizedAt rhi (heap st') size e)
         (m_shadowMapList st).
Proof.
  intros Hown Hframe Hall. apply Forall_forall. intros e He.
  destruct (proj1 (Forall_forall _ _) Hall e He) as [Hw [size Hs]].
  assert (Hb : forall h, h ∈ ownedHandles e -> (h < nextHandle st)%nat).
  { intros h. by apply owns_entry_bound. }
  split.
  - by apply (wired_frame (heap st) (heap st') (nextHandle st)).
  - exists size. apply (sizedAt_frame rhi (heap st) (heap st') (nextHandle st));
      [done|done| |done].
    intros h. by apply owns_live_bound.
Qed.

Lemma arraysOk_frame (rhi : QRhi) (st st' : State) :
  owns st ->
  (forall h, (h < nextHandle st)%nat -> heap st' !! h = heap st !! h) ->
  m_depthTextureArrays st' = m_depthTextureArrays st ->
  arraysOk rhi st -> arraysOk rhi st'.
Proof.
  intros Hown Hframe Ha Harr size h. rewrite Ha. intros Hsize.
  destruct (Harr size h Hsize) as [n Hn]. exists n.
  rewrite Hframe; [done|]. apply owns_live_bound; [done|by eexists].
Qed.

Lemma wellBuilt_setupRenderTarget (rhi : QRhi) (l2l : list Z) (i : nat)
    (l : QSSGShaderLight) :
  keeps (fun st st' => wellBuilt rhi st -> wellBuilt rhi st')
    (setupRenderTarget rhi l2l i l).
Proof.
  intros st [] st' Hrun (Hown & Harr & Hall).
  pose proof (owns_setupRenderTarget rhi l2l i l st tt st' Hrun Hown) as Hown'.
  unfold setupRenderTarget in Hrun.
  destruct (shadows l); cbn [negb] in Hrun; [|by injection Hrun as <-].
  destruct (mapModeOf l).
  - destruct (addDirectionalShadowMap_inv _ _ _ _ _ _ _ Hrun) as [Hnone [tex Htex]].
    destruct (addDirectionalShadowMap_spec rhi (Z.of_nat i)
                (QSize_of (shadowMapRes l) (shadowMapRes l)) (layerIndexOf l2l i)
                (debugObjectName (light l)) st tex Hnone Htex)
      as (st1 & Hrun1 & Hl1 & Ha1 & Hn1 & Hframe & _).
    destruct (addDirectionalShadowMap_objects rhi (Z.of_nat i)
                (QSize_of (shadowMapRes l) (shadowMapRes l)) (layerIndexOf l2l i)
                (debugObjectName (light l)) st tex Hnone Htex)
      as (st2 & Hrun2 & Hcopy & Hds & Hwired).
    rewrite Hrun in Hrun1, Hrun2. injection Hrun1 as <-. injection Hrun2 as <-.
    pose proof (arraysOk_frame rhi st st' Hown Hframe Ha1 Harr) as Harr'.
    split_and!; [done|done|].
    rewrite Hl1. apply Forall_app. split; [by apply wellBuilt_frame|].
    apply Forall_singleton. split; [done|].
    exists (QSize_of (shadowMapRes l) (shadowMapRes l)). unfold sizedAt. cbn.
    split_and!; [done| |done]. apply (Harr' _ tex). by rewrite Ha1.
  - pose proof (addCubeShadowMap_inv _ _ _ _ _ _ Hrun) as Hnone.
    destruct (addCubeShadowMap_spec rhi (Z.of_nat i)
                (QSize_of (shadowMapRes l) (shadowMapRes l))
                (debugObjectName (light l)) st Hnone)
      as (st1 & Hrun1 & Hl1 & Ha1 & Hn1 & Hframe & _).
    destruct (addCubeShadowMap_objects rhi (Z.of_nat i)
                (QSize_of (shadowMapRes l) (shadowMapRes l))
                (debugObjectName (light l)) st Hnone)
      as (st2 & Hrun2 & Hcube & Hcopy & Hds & Hwired).
    rewrite Hrun in Hrun1, Hrun2. injection Hrun1 as <-. injection Hrun2 as <-.
    pose proof (arraysOk_frame rhi st st' Hown Hframe Ha1 Harr) as Harr'.
    split_and!; [done|done|].
    rewrite Hl1. apply Forall_app. split; [by apply wellBuilt_frame|].
    apply Forall_singleton. split; [done|].
    exists (QSize_of (shadowMapRes l) (shadowMapRes l)). unfold sizedAt. by cbn.
Qed.

Lemma wellBuilt_createTextureArray (rhi : QRhi) (i : nat) (c : Z) (st st' : State) :
  (i <= 4)%nat -> c <> 0 ->
  m_depthTextureArrays st !! bucketSize i = None ->
  createTextureArray rhi i c st = Ok (tt, st') ->
  wellBuilt rhi st -> wellBuilt rhi st'.
Proof.
  intros Hi Hc Hfresh Hrun (Hown & Harr & Hall).
  pose proof (owns_createTextureArray rhi i c st st' Hi Hc Hfresh Hrun Hown) as Hown'.
  destruct (createTextureArray_spec rhi i c st Hi Hc)
    as (st1 & Hrun1 & Hl1 & Ha1 & Hn1 & Hframe & Hobj & _).
  rewrite Hrun in Hrun1. injection Hrun1 as <-.
  split_and!; [done| |].
  - intros size h. rewrite Ha1.
    intros [[<- <-]|[_ Hold]]%lookup_insert_Some; [by exists c|].
    destruct (Harr size h Hold) as [n Hn]. exists n.
    rewrite Hframe; [done|]. apply owns_live_bound; [done|by eexists].
  - rewrite Hl1. by apply wellBuilt_frame.
Qed.

Lemma wellBuilt_release (rhi : QRhi) (st : State) :
  wellBuilt rhi st -> wellBuilt rhi (releaseCachedResources st).
Proof.
  intros (Hown & _). split_and!; [by apply owns_release| |by constructor].
  intros size h H. cbn in H. by rewrite lookup_empty in H.
Qed.

Lemma wellBuilt_initial (rhi : QRhi) : wellBuilt rhi initial.
Proof.
  split_and!; [exact owns_initial| |by constructor].
  intros size h H. cbn in H. by rewrite lookup_empty in H.
Qed.

Lemma wellBuilt_runCalls (rhi : QRhi) (calls : list Call) (sts : list State) :
  runCalls rhi calls initial = Ok sts ->
  Forall (wellBuilt rhi) sts /\ wellBuilt rhi (finalState initial sts).
Proof.
  apply (inv_runCalls rhi (wellBuilt rhi) (wellBuilt_release rhi));
    [| |exact (wellBuilt_initial rhi)].
  - apply wellBuilt_createTextureArray.
  - apply wellBuilt_setupRenderTarget.
Qed.

(** X14. Along every sequence of reconcile and release calls of a
    fresh registry that end well, the render targets of every entry
    render into the entry's own textures. VSM: the main target into the
    entry's layer of the shared array, with the entry's depth-stencil
    buffer and render-pass descriptor; blur X into the depth copy and
    blur Y back into that layer, both with the blur render-pass
    descriptor. CUBE: the six face targets into the six faces of the
    depth cube, with the depth-stencil buffer and the render-pass
    descriptor; the blur targets, where there are any, into the six
    faces of the cube copy (X) and of the depth cube (Y). *)
Theorem render_targets_wired (rhi : QRhi) (calls : list Call) (sts : list State) :
  runCalls rhi calls initial = Ok sts ->
  Forall (fun st => Forall (wired (heap st)) (m_shadowMapList st)) sts.
Proof.
  intros Hrun.
  eapply Forall_impl; [exact (proj1 (wellBuilt_runCalls rhi calls sts Hrun))|].
  intros st (_ & _ & Hall). eapply Forall_impl; [exact Hall|]. by intros e [Hw _].
Qed.

Lemma render_targets_wired_witness :
  Forall (fun st => Forall (wired (heap st)) (m_shadowMapList st)) frames_run.
Proof.
  apply (render_targets_wired example_rhi frames frames_run).
  vm_compute. reflexivity.
Defined.

Lemma sizedAt_pixelSize (rhi : QRhi) (hp : gmap nat RhiObject) (size : QSize)
    (e : QSSGShadowMapEntry) :
  sizedAt rhi hp size e -> texturePixelSize hp (sizePointer e) = Ok size.
Proof.
  unfold sizedAt, sizePointer, texturePixelSize, objectAt.
  destruct (m_shadowMapMode e).
  - intros (_ & [n Harr] & _). destruct (m_rhiDepthTextureArray e); [|done].
    by rewrite Harr.
  - intros (_ & _ & Hcopy). destruct (m_rhiCubeCopy e); [|done]. by rewrite Hcopy.
Qed.

Lemma isCompatible_true_size (e : QSSGShadowMapEntry) (size : QSize) (layerIndex : Z)
    (mode : ShadowMapModes) (hp : gmap nat RhiObject) :
  isCompatible e size layerIndex mode hp = Ok true ->
  texturePixelSize hp (sizePointer e) = Ok size.
Proof.
  intros Hc. pose proof (isCompatible_true_mode _ _ _ _ _ Hc) as Hmode.
  unfold isCompatible in Hc. unfold sizePointer. rewrite Hmode.
  case_bool_decide; [done|]. destruct mode.
  - destruct (texturePixelSize hp (m_rhiDepthTextureArray e)) as [ps|]; [|done].
    cbn [rbind] in Hc. case_bool_decide as Hsize; [done|].
    f_equal. destruct (decide (size = ps)); [done|]. exfalso. auto.
  - destruct (texturePixelSize hp (m_rhiCubeCopy e)) as [ps|]; [|done].
    cbn [rbind] in Hc. case_bool_decide as Hsize; [done|].
    f_equal. destruct (decide (size = ps)); [done|]. exfalso. auto.
Qed.

Lemma wellBuilt_addShadowMaps (rhi : QRhi) (lights : list QSSGShaderLight)
    (st st1 : State) :
  addShadowMaps (Some rhi) lights st = Ok (tt, st1) ->
  wellBuilt rhi st -> wellBuilt rhi st1.
Proof.
  apply (inv_addShadowMaps rhi (wellBuilt rhi) (wellBuilt_release rhi)).
  - apply wellBuilt_createTextureArray.
  - apply wellBuilt_setupRenderTarget.
Qed.

(** The size [isCompatible] would compare is the light's resolution
    after every reconciliation that ends well. *)
Lemma addShadowMaps_pixelSize (rhi : QRhi) (lights : list QSSGShaderLight)
    (st st1 : State) (i : nat) (l : QSSGShaderLight) (e : QSSGShadowMapEntry) :
  wellBuilt rhi st1 ->
  addShadowMaps (Some rhi) lights st = Ok (tt, st1) ->
  lights !! i = Some l -> shadows l = true ->
  shadowMapEntry (Z.of_nat i) st1 = Ok (Some e) ->
  texturePixelSize (heap st1) (sizePointer e) = Ok (QSize_of (shadowMapRes l) (shadowMapRes l)).
Proof.
  intros (_ & Harr & _) Hrun Hl Hs He.
  destruct (addShadowMaps_inv _ _ _ _ Hrun) as (b & r & Hb & Hr & Hcase).
  destruct r.
  - destruct (rebuild_inv rhi lights b st st1 Hb Hcase)
      as (sta & _ & _ & _ & Ha & _ & Hall & _).
    destruct (shadowCasters_entry
                (entryOf rhi (lightIndexToLayerIndex b) (m_depthTextureArrays sta)
                   (heap st1) (nextHandle sta) (nextHandle st1))
                lights (entryOf_index _ _ _ _ _ _) 0 _ Hall i l Hl Hs)
      as (e' & Hfilter & He').
    cbn [Nat.add] in *. apply find_filter in Hfilter.
    rewrite shadowMapEntry_nat in He. assert (e' = e) as -> by congruence.
    pose proof (entryOf_mode _ _ _ _ _ _ _ _ _ He') as Hmode.
    destruct He' as (n & _ & _ & _ & Hshape). unfold sizePointer. rewrite Hmode.
    destruct (mapModeOf l).
    + destruct Hshape as (tex & Htex & ->). rewrite <- Ha in Htex.
      destruct (Harr _ _ Htex) as [c Hc].
      cbn [vsmEntry m_rhiDepthTextureArray texturePixelSize]. by rewrite Hc.
    + destruct Hshape as [-> Hcopy].
      cbn [cubeEntry m_rhiCubeCopy texturePixelSize]. by rewrite Hcopy.
  - subst st1. unfold needsRebuild in Hr.
    destruct (numShadows b =? shadowMapEntryCount st); cbn [negb] in Hr; [|done].
    destruct (propertiesChanged_settled st _ lights 0 Hr i l Hl Hs) as (e' & He' & Hc).
    cbn [Nat.add] in *. assert (e' = e) as -> by congruence.
    by apply isCompatible_true_size in Hc.
Qed.

(** X15. After a reconciliation that ends well on a registry reached
    by reconcile and release calls from a fresh one, the entry of every
    shadow-casting light has its depth-stencil buffer and its textures
    (shared array and depth copy, or depth cube and cube copy) at the
    size [QSize(res, res)] of the light's resolution [res], and the
    textures in the shadow-map format of the device. The [QSize] reads
    the [quint32] resolution as an [int]: it is [res] by [res] below
    2^31, and [res - 2^32] by [res - 2^32], a negative size, from there
    on, which only a point or spot light can ask for: the objects of
    a point light at 4294967295 are of size -1 by -1. *)
Theorem entry_textures_sized (rhi : QRhi) (calls : list Call) (sts : list State)
    (lights : list QSSGShaderLight) (st1 : State) :
  runCalls rhi calls initial = Ok sts ->
  addShadowMaps (Some rhi) lights (finalState initial sts) = Ok (tt, st1) ->
  forall i l e, lights !! i = Some l -> shadows l = true ->
    shadowMapEntry (Z.of_nat i) st1 = Ok (Some e) ->
    sizedAt rhi (heap st1) (QSize_of (shadowMapRes l) (shadowMapRes l)) e.
Proof.
  intros Hcalls Hrun i l e Hl Hs He.
  destruct (wellBuilt_runCalls rhi calls sts Hcalls) as [_ Hfinal].
  pose proof (wellBuilt_addShadowMaps rhi lights _ st1 Hrun Hfinal) as Hwb.
  pose proof (addShadowMaps_pixelSize rhi lights _ st1 i l e Hwb Hrun Hl Hs He) as Hsize.
  destruct Hwb as (_ & _ & Hall).
  apply shadowMapEntry_Some in He as [He _].
  destruct (proj1 (Forall_forall _ _) Hall e He) as [_ [size Hsized]].
  rewrite (sizedAt_pixelSize rhi _ size e Hsized) in Hsize.
  injection Hsize as ->. done.
Qed.

Lemma entry_textures_sized_witness :
  sizedAt example_rhi (heap huge_state) (-1, -1) huge_entry.
Proof.
  change (sizedAt example_rhi (heap huge_state)
            (QSize_of (shadowMapRes huge_point) (shadowMapRes huge_point)) huge_entry).
  apply (entry_textures_sized example_rhi [] [] [huge_point] huge_state)
    with (i := 0%nat).
  - reflexivity.
  - vm_compute. reflexivity.
  - reflexivity.
  - reflexivity.
  - vm_compute. reflexivity.
Defined.


(** ** The layers of the shared arrays *)

(** Two positions of the same rank are the same position. *)
Lemma rank_inj {A} (f : A -> bool) (l : list A) (j1 j2 : nat) (x1 x2 : A) :
  l !! j1 = Some x1 -> f x1 = true ->
  l !! j2 = Some x2 -> f x2 = true ->
  countb f (take j1 l) = countb f (take j2 l) -> j1 = j2.
Proof.
  assert (Hlt : forall j1 j2 x1, (j1 < j2)%nat -> l !! j1 = Some x1 -> f x1 = true ->
            (countb f (take j1 l) < countb f (take j2 l))%nat).
  { intros i1 i2 y1 Hi Hy1 Hf1.
    assert (Hy : take i2 l !! i1 = Some y1) by by rewrite lookup_take_lt.
    pose proof (countb_take_lt f (take i2 l) i1 y1 Hy Hf1) as H.
    rewrite take_take in H. by replace (i1 `min` i2)%nat with i1 in H by lia. }
  intros H1 Hf1 H2 Hf2 Heq.
  destruct (Nat.lt_trichotomy j1 j2) as [Hc|[Hc|Hc]]; [|done|].
  - pose proof (Hlt j1 j2 x1 Hc H1 Hf1). lia.
  - pose proof (Hlt j2 j1 x2 Hc H2 Hf2). lia.
Qed.

(** The VSM entry of a rebuild on fewer than 256 lights: its array, the
    layers of the array and its own layer. *)
Lemma rebuild_layer (rhi : QRhi) (lights : list QSSGShaderLight) (b : Buckets)
    (st st1 : State) (e : QSSGShadowMapEntry) :
  (length lights < 256)%nat ->
  bucketLights lights = Ok b ->
  rebuild rhi lights b st = Ok (tt, st1) ->
  e ∈ m_shadowMapList st1 -> m_shadowMapMode e = VSM ->
  exists j l k h,
    lights !! j = Some l /\ castsVSM l = true /\ m_lightIndex e = Z.of_nat j /\
    (k < 4)%nat /\ shadowMapRes l = 2 ^ (Z.of_nat k + 8) /\
    m_rhiDepthTextureArray e = Some h /\
    heap st1 !! h
    = Some (RhiTexture (getShadowMapTextureFormat rhi) (bucketSize k)
              (Z.of_nat (countb (sameRes (shadowMapRes l)) lights))
              [RenderTarget; TextureArray]) /\
    m_depthArrayIndex e
    = Z.of_nat (countb (sameRes (shadowMapRes l)) (take j lights)).
Proof.
  intros Hlen Hb Hrun He Hvsm.
  destruct (rebuild_spec rhi lights b st Hlen Hb)
    as (sta & st1' & _ & _ & Hrun' & _ & _ & _ & Hbucket & Hall & _).
  rewrite Hrun in Hrun'. injection Hrun' as <-.
  destruct (shadowCasters_light _ _ _ _ Hall He) as (j & l & Hj & Hs & Hentry).
  pose proof (entryOf_mode _ _ _ _ _ _ _ _ _ Hentry) as Hmode.
  rewrite Hvsm in Hmode. symmetry in Hmode.
  pose proof (mapModeOf_VSM_casts l Hs Hmode) as Hc.
  destruct (layer_index lights b j l Hlen Hb Hj Hc) as (k & Hk & Hres & Hlayer).
  destruct (Hbucket k Hk) as [_ Hsome].
  destruct Hsome as (h & Hh & _ & Hobj).
  { rewrite <- Hres.
    pose proof (countb_pos (sameRes (shadowMapRes l)) lights l
                  ltac:(by eapply list_elem_of_lookup_2) (sameRes_self l Hc)). lia. }
  pose proof (entryOf_index _ _ _ _ _ _ _ _ _ Hentry) as Hidx.
  destruct Hentry as (n & _ & _ & _ & Hshape). rewrite Hmode in Hshape.
  destruct Hshape as (tex & Htex & ->).
  assert (Hsize : bucketSize k = QSize_of (shadowMapRes l) (shadowMapRes l)).
  { rewrite Hres. symmetry. apply QSize_of_bucket. lia. }
  rewrite Hsize in Hh. assert (tex = h) as -> by congruence.
  exists j, l, k, h. rewrite <- Hres in Hobj. by split_and!.
Qed.

Lemma layersSound_rebuild (rhi : QRhi) (lights : list QSSGShaderLight) (b : Buckets)
    (st st1 : State) :
  (length lights < 256)%nat ->
  bucketLights lights = Ok b ->
  rebuild rhi lights b st = Ok (tt, st1) ->
  layersSound st1.
Proof.
  intros Hlen Hb Hrun. split.
  - intros e He Hvsm.
    destruct (rebuild_layer rhi lights b st st1 e Hlen Hb Hrun He Hvsm)
      as (j & l & k & h & Hj & Hc & _ & _ & _ & Harr & Hobj & Hlayer).
    eexists h, _, _, _, _. split_and!; [done|done|lia|].
    rewrite Hlayer.
    pose proof (countb_take_lt (sameRes (shadowMapRes l)) lights j l Hj
                  (sameRes_self l Hc)). lia.
  - intros e1 e2 He1 He2 Hvsm1 Hvsm2 Harr Hlayer.
    destruct (rebuild_layer rhi lights b st st1 e1 Hlen Hb Hrun He1 Hvsm1)
      as (j1 & l1 & k1 & h1 & Hj1 & Hc1 & -> & _ & Hres1 & Harr1 & Hobj1 & Hlayer1).
    destruct (rebuild_layer rhi lights b st st1 e2 Hlen Hb Hrun He2 Hvsm2)
      as (j2 & l2 & k2 & h2 & Hj2 & Hc2 & -> & _ & Hres2 & Harr2 & Hobj2 & Hlayer2).
    assert (h1 = h2) as -> by congruence.
    rewrite Hobj1 in Hobj2. injection Hobj2 as Hsize _.
    apply pow2_bucket_inj in Hsize. subst k2.
    assert (Hres : shadowMapRes l2 = shadowMapRes l1) by congruence.
    rewrite Hres in Hlayer2. f_equal.
    apply (rank_inj (sameRes (shadowMapRes l1)) lights j1 j2 l1 l2);
      [done|by apply sameRes_self|done|rewrite <- Hres; by apply sameRes_self|lia].
Qed.

Lemma layersSound_empty (st : State) : m_shadowMapList st = [] -> layersSound st.
Proof.
  intros Hl. unfold layersSound. rewrite Hl.
  split; [intros e He|intros e1 e2 He]; by apply elem_of_nil in He.
Qed.

Lemma layersSound_runCalls (rhi : QRhi) (calls : list Call) :
  forall (st : State) (sts : list State),
  shortLists calls = true ->
  layersSound st ->
  runCalls rhi calls st = Ok sts ->
  Forall layersSound sts.
Proof.
  induction calls as [|c rest IH]; intros st sts Hshort Hinv Hrun.
  - injection Hrun as <-. constructor.
  - cbn [runCalls] in Hrun. cbn [shortLists forallb] in Hshort.
    apply andb_true_iff in Hshort as [Hc Hrest'].
    destruct (call rhi c st) as [[[] st1]|] eqn:Hcall; [|done].
    destruct (runCalls rhi rest st1) as [sts'|] eqn:Hrest; [|done].
    injection Hrun as <-.
    assert (Hinv1 : layersSound st1).
    { destruct c as [lights|]; cbn [call] in Hcall.
      - apply Nat.ltb_lt in Hc.
        destruct (addShadowMaps_inv _ _ _ _ Hcall) as (b & r & Hb & Hr & Hcase).
        destruct r; [|by subst st1].
        by apply (layersSound_rebuild rhi lights b st st1).
      - unfold modify in Hcall. injection Hcall as <-. by apply layersSound_empty. }
    constructor; [done|]. by apply (IH st1).
Qed.

(** X16. Along every sequence of reconcile and release calls of a
    fresh registry that end well, on lists of fewer than 256 lights,
    every VSM entry sits on a layer that its shared array has, and no
    two lights share a layer of an array. *)
Theorem directional_layers_disjoint (rhi : QRhi) (calls : list Call)
    (sts : list State) :
  shortLists calls = true ->
  runCalls rhi calls initial = Ok sts ->
  Forall layersSound sts.
Proof.
  intros Hshort Hrun.
  apply (layersSound_runCalls rhi calls initial sts Hshort); [|done].
  by apply layersSound_empty.
Qed.

Lemma directional_layers_disjoint_witness : Forall layersSound frames_run.
Proof.
  apply (directional_layers_disjoint example_rhi frames frames_run).
  - vm_compute. reflexivity.
  - vm_compute. reflexivity.
Defined.


(** ** Which lights a reconciliation reads *)

(** The first loop on a list in two parts. *)
Lemma countLights_app (l1 l2 : list QSSGShaderLight) :
  forall (i : nat) (b : Buckets),
  countLights i (l1 ++ l2) b
  = rbind (countLights i l1 b) (countLights (i + length l1) l2).
Proof.
  induction l1 as [|l l1 IH]; intros i b; cbn [app countLights length rbind].
  - by rewrite Nat.add_0_r.
  - destruct (countLight i l b) as [b1|]; cbn [rbind]; [|done].
    rewrite IH. by replace (S i + length l1)%nat with (i + S (length l1))%nat by lia.
Qed.

(** A resolution without a bucket among the four counters. *)
Lemma mapSizeToIndex_unsupported (l : QSSGShaderLight) :
  supportedRes l = false ->
  mapSizeToIndex (shadowMapRes l)
  = if shadowMapRes l =? 4096 then Ok 4 else Err AssertFailed.
Proof.
  intros Hno. destruct (shadowMapRes l =? 4096) eqn:Hbig.
  - apply Z.eqb_eq in Hbig. rewrite Hbig. by vm_compute.
  - apply Z.eqb_neq in Hbig.
    destruct (mapSizeToIndex (shadowMapRes l)) as [i|f] eqn:Hi.
    + exfalso. destruct (shadowMapRes_index _ _ Hi) as [Hrange Hres].
      assert (Hcases : i = 0 \/ i = 1 \/ i = 2 \/ i = 3 \/ i = 4) by lia.
      destruct Hcases as [->|[->|[->|[->| ->]]]];
        [| | | |by apply Hbig];
        (assert (Hyes : supportedRes l = true);
         [unfold supportedRes; rewrite Hres; by vm_compute|congruence]).
    + f_equal. by apply (mapSizeToIndex_Err (shadowMapRes l)).
Qed.

(** X18. When the first shadow-casting directional light of a list
    whose resolution is none of 256, 512, 1024 and 2048 asks for 4096,
    reconciling stops at the access outside the four counters; when it
    asks for anything else, at a failed assertion of [mapSizeToIndex].
    The lights after it, the registry and the device play no part. *)
Theorem addShadowMaps_first_offender (rhi : QRhi)
    (before after : list QSSGShaderLight) (l : QSSGShaderLight) (st : State) :
  supported before = true ->
  castsVSM l = true ->
  supportedRes l = false ->
  addShadowMaps (Some rhi) (before ++ l :: after) st
  = Err (if shadowMapRes l =? 4096 then OutOfRange else AssertFailed).
Proof.
  intros Hsup Hc Hno.
  assert (Hfirst : bucketLights (before ++ l :: after)
                   = Err (if shadowMapRes l =? 4096 then OutOfRange else AssertFailed)).
  { unfold bucketLights. rewrite countLights_app.
    set (b0 := {| numShadows := 0; textureSizeLayerCount := replicate 4 0;
                  lightIndexToLayerIndex := _ |}).
    destruct (countLights_total before 0 b0) as [b1 Hb1].
    { intros l' Hl' Hc'. cbn [textureSizeLayerCount b0]. rewrite length_replicate.
      destruct (proj1 (supportedRes_bucket l')) as (k & Hk & Hidx); [|by exists k].
      by apply (proj1 (supported_spec before) Hsup). }
    rewrite Hb1. cbn [rbind countLights].
    destruct (countLights_inv _ _ _ _ Hb1) as (_ & Hlc & _).
    cbn [textureSizeLayerCount b0] in Hlc. rewrite length_replicate in Hlc.
    unfold countLight.
    rewrite <- (negb_involutive (_ || _)), <- castsVSM_cases, Hc. cbn [negb].
    rewrite (mapSizeToIndex_unsupported l Hno).
    destruct (shadowMapRes l =? 4096); [|done]. cbn [rbind].
    rewrite lookup_ge_None_2; [done|]. rewrite Hlc. cbn. lia. }
  unfold addShadowMaps, bind, reads. by rewrite Hfirst.
Qed.

Lemma addShadowMaps_first_offender_witness :
  addShadowMaps (Some example_rhi) (example_lights ++ light_4096 :: [dark_light])
    example_state
  = Err (if shadowMapRes light_4096 =? 4096 then OutOfRange else AssertFailed).
Proof.
  apply (addShadowMaps_first_offender example_rhi example_lights [dark_light]
           light_4096 example_state).
  - reflexivity.
  - reflexivity.
  - reflexivity.
Defined.

(** The first, second and fourth loop on lists with the same casters. *)
Lemma countLights_sameCasters (lights lights' : list QSSGShaderLight) :
  sameCasters lights lights' ->
  forall (i : nat) (b : Buckets), countLights i lights b = countLights i lights' b.
Proof.
  induction 1 as [|l l' rest rest' Hl _ IH]; intros i b; [done|].
  cbn [countLights]. destruct Hl as [->|[Hs Hs']].
  { destruct (countLight i l' b); cbn [rbind]; [apply IH|done]. }
  unfold countLight. rewrite Hs, Hs'. cbn [negb orb rbind]. apply IH.
Qed.

Lemma propertiesChanged_sameCasters (l2l : list Z) (st : State)
    (lights lights' : list QSSGShaderLight) :
  sameCasters lights lights' ->
  forall i, propertiesChanged l2l i lights st = propertiesChanged l2l i lights' st.
Proof.
  induction 1 as [|l l' rest rest' Hl _ IH]; intros i; [done|].
  cbn [propertiesChanged]. destruct Hl as [->|[Hs Hs']].
  - destruct (negb (shadows l')); [apply IH|].
    destruct (shadowMapEntry (Z.of_nat i) st) as [[e|]|]; cbn [rbind]; try done.
    destruct (isCompatible e _ _ _ _) as [[|]|]; cbn [rbind negb]; try done.
  - rewrite Hs, Hs'. cbn [negb]. apply IH.
Qed.

Lemma setupRenderTargets_sameCasters (rhi : QRhi) (l2l : list Z)
    (lights lights' : list QSSGShaderLight) :
  sameCasters lights lights' ->
  forall i st, for_each (setupRenderTarget rhi l2l) i lights st
               = for_each (setupRenderTarget rhi l2l) i lights' st.
Proof.
  induction 1 as [|l l' rest rest' Hl _ IH]; intros i st; [done|].
  cbn [for_each]. unfold bind. destruct Hl as [->|[Hs Hs']].
  - destruct (setupRenderTarget rhi l2l i l' st) as [[[] st1]|]; [apply IH|done].
  - unfold setupRenderTarget. rewrite Hs, Hs'. cbn [negb ret]. apply IH.
Qed.

(** X19. A reconciliation reads nothing of a light that casts no
    shadow but its position in the list: two lists of the same length
    that differ only at positions where neither light casts a shadow
    give the same result, failures included, on every registry. *)
Theorem addShadowMaps_ignores_dark_lights (rhi : option QRhi)
    (lights lights' : list QSSGShaderLight) (st : State) :
  sameCasters lights lights' ->
  addShadowMaps rhi lights st = addShadowMaps rhi lights' st.
Proof.
  intros Hsame. destruct rhi as [rhi|]; [|done].
  unfold addShadowMaps, bind, reads, bucketLights.
  rewrite (Forall2_length _ _ _ Hsame), (countLights_sameCasters _ _ Hsame).
  destruct (countLights 0 lights' _) as [b|]; [|done].
  unfold needsRebuild. rewrite (propertiesChanged_sameCasters _ _ _ _ Hsame).
  destruct (if negb _ then _ else _) as [[|]|]; cbn [negb]; try done.
  unfold rebuild, bind, modify.
  destruct (for_each (createTextureArray rhi) 0 _ _) as [[[] sta]|]; [|done].
  apply (setupRenderTargets_sameCasters rhi _ _ _ Hsame).
Qed.

Lemma addShadowMaps_ignores_dark_lights_witness :
  addShadowMaps (Some example_rhi) (example_lights ++ [dark_light]) example_state
  = addShadowMaps (Some example_rhi) (example_lights ++ [light_4096_off]) example_state.
Proof.
  apply (addShadowMaps_ignores_dark_lights (Some example_rhi)).
  unfold sameCasters. apply (bool_decide_unpack _). vm_compute. exact I.
Defined.


(** ** The blur targets of the cube maps *)

(** A property that every call keeps holds along every sequence of calls. *)
Lemma runCalls_Forall (rhi : QRhi) (P : State -> Prop) :
  (forall c st st1, call rhi c st = Ok (tt, st1) -> P st -> P st1) ->
  forall (calls : list Call) (st : State) (sts : list State),
  P st -> runCalls rhi calls st = Ok sts -> Forall P sts.
Proof.
  intros Hcall. induction calls as [|c rest IH]; intros st sts Hinv Hrun.
  - injection Hrun as <-. constructor.
  - cbn [runCalls] in Hrun.
    destruct (call rhi c st) as [[[] st1]|] eqn:Hc; [|done].
    destruct (runCalls rhi rest st1) as [sts'|] eqn:Hrest; [|done].
    injection Hrun as <-.
    pose proof (Hcall c st st1 Hc Hinv) as Hinv1.
    constructor; [done|]. by apply (IH st1).
Qed.

(** A call on a device with six colour attachments keeps [blurred]. *)
Lemma blurred_call (rhi : QRhi) (c : Call) (st st1 : State) :
  canBlur rhi = true ->
  call rhi c st = Ok (tt, st1) -> blurred st -> blurred st1.
Proof.
  intros Hblur Hrun (Hentries & Hcount & Hflag).
  destruct c as [lights|]; cbn [call] in Hrun.
  - destruct (addShadowMaps_inv _ _ _ _ Hrun) as (b & r & Hb & Hr & Hcase).
    destruct r; [|by subst st1].
    destruct (rebuild_inv rhi lights b st st1 Hb Hcase)
      as (sta & _ & Hwa & Hsa & _ & _ & Hall & Hw1 & Hs1).
    unfold hitsFallback in Hw1, Hs1. rewrite Hblur in Hw1, Hs1.
    cbn [negb andb] in Hw1, Hs1. rewrite andb_false_r in Hs1.
    rewrite orb_false_r in Hw1.
    split_and!; [|lia|congruence].
    intros e He Hcube.
    destruct (shadowCasters_light _ _ _ _ Hall He) as (j & l & Hj & Hs & Hentry).
    pose proof (entryOf_mode _ _ _ _ _ _ _ _ _ Hentry) as Hmode.
    destruct Hentry as (n & _ & _ & _ & Hshape).
    rewrite <- Hmode, Hcube in Hshape. destruct Hshape as [-> _].
    rewrite Hblur. cbn. by split_and!.
  - unfold modify in Hrun. injection Hrun as <-.
    split_and!; [|done|done]. intros e He. by apply elem_of_nil in He.
Qed.

(** X20. On a device with at least six colour attachments, along
    every sequence of reconcile and release calls of a fresh registry
    that end well, every CUBE entry has both blur render targets and
    their render-pass descriptor, and the warning about unblurred cube
    maps is never logged. *)
Theorem capable_device_always_blurs (rhi : QRhi) (calls : list Call)
    (sts : list State) :
  6 <= MaxColorAttachments rhi ->
  runCalls rhi calls initial = Ok sts ->
  Forall blurred sts.
Proof.
  intros Hlimit Hrun.
  assert (Hblur : canBlur rhi = true) by (unfold canBlur; by apply Z.leb_le).
  apply (runCalls_Forall rhi blurred) with (calls := calls) (st := initial); [|  |done].
  - intros c st st1. by apply blurred_call.
  - split_and!; [|done|done]. intros e He. by apply elem_of_nil in He.
Qed.

Lemma capable_device_always_blurs_witness : Forall blurred frames_run.
Proof.
  apply (capable_device_always_blurs example_rhi frames frames_run).
  - vm_compute. discriminate.
  - vm_compute. reflexivity.
Defined.


(** ** The warnings about render targets *)

(** The construction code only adds to the log. *)
Lemma appended_allocateRhiShadowTexture (rhi : QRhi) (fmt : Format) (size : QSize)
    (n : Z) (flags : list TextureFlag) :
  keeps appended (allocateRhiShadowTexture rhi fmt size n flags).
Proof.
  apply keeps_allocateRhiShadowTexture;
    eauto using appended_refl, appended_trans, appended_qWarning_if.
  - intros o st a st' [= _ <-]. by apply appended_same.
  - intros h f st a st' [= _ <-]. by apply appended_same.
Qed.

Lemma appended_allocateRhiShadowRenderBuffer (rhi : QRhi) (size : QSize) :
  keeps appended (allocateRhiShadowRenderBuffer rhi size).
Proof.
  apply keeps_allocateRhiShadowRenderBuffer;
    eauto using appended_refl, appended_trans, appended_qWarning_if.
  intros o st a st' [= _ <-]. by apply appended_same.
Qed.

Ltac appended_rules :=
  eauto using appended_refl, appended_trans, appended_same, appended_qWarning_if,
    appended_allocateRhiShadowTexture, appended_allocateRhiShadowRenderBuffer;
  try (intros; intros ? ? ? [= _ <-]; first [by apply appended_same|by apply prefix_app_r]).

Lemma appended_setupRenderTarget (rhi : QRhi) (l2l : list Z) (i : nat)
    (l : QSSGShaderLight) :
  keeps appended (setupRenderTarget rhi l2l i l).
Proof. apply keeps_setupRenderTarget; appended_rules. Qed.

Lemma appended_createTextureArray (rhi : QRhi) (i : nat) (n : Z) :
  keeps appended (createTextureArray rhi i n).
Proof. apply keeps_createTextureArray; appended_rules. Qed.

(** Code that only adds to the log keeps [targetsReported]. *)
Lemma targetsReported_appended (rhi : QRhi) (st st' : State) :
  m_shadowMapList st' = m_shadowMapList st -> appended st st' ->
  targetsReported rhi st -> targetsReported rhi st'.
Proof.
  intros Hl [new Hm] Hrep e h. rewrite Hl, Hm. intros He Hh Hc.
  apply elem_of_app. left. by apply (Hrep e h).
Qed.

(** The warnings of [addDirectionalShadowMap] and [addCubeShadowMap]
    about the main and face render targets. *)
Lemma addDirectionalShadowMap_warns (rhi : QRhi) (idx : Z) (size : QSize)
    (layerIndex : Z) (name : string) (st : State) (tex : handle) :
  shadowMapEntry idx st = Ok None ->
  m_depthTextureArrays st !! size = Some tex ->
  exists st', addDirectionalShadowMap rhi idx size layerIndex name st = Ok (tt, st') /\
    (createSucceeds rhi (2 + nextHandle st)%nat = false ->
     FailedRenderTarget ∈ messages st').
Proof.
  intros Hfind Harr. destruct st as [l arrs hp n msgs w].
  cbn [m_depthTextureArrays] in Harr. unfold lookup in Harr.
  eexists. split.
  { unfold addDirectionalShadowMap. unfold bind at 1. unfold reads at 1.
    rewrite Hfind. exec. rewrite Harr. exec. reflexivity. }
  proj. cbn [Nat.add]. intros ->. cbn [negb]. rewrite !elem_of_app, !elem_of_cons.
  tauto.
Qed.

Lemma addCubeShadowMap_warns (rhi : QRhi) (idx : Z) (size : QSize) (name : string)
    (st : State) :
  shadowMapEntry idx st = Ok None ->
  exists st', addCubeShadowMap rhi idx size name st = Ok (tt, st') /\
    forall h, h ∈ [3 + nextHandle st; 5 + nextHandle st; 6 + nextHandle st;
                   7 + nextHandle st; 8 + nextHandle st; 9 + nextHandle st]%nat ->
      createSucceeds rhi h = false -> FailedRenderTarget ∈ messages st'.
Proof.
  intros Hfind. destruct st as [l arrs hp n msgs w].
  destruct (6 <=? MaxColorAttachments rhi) eqn:Hblur; [|destruct w];
    (eexists; split;
     [unfold addCubeShadowMap; unfold bind at 1; unfold reads at 1;
      rewrite Hfind; exec; rewrite Hblur; exec; reflexivity|]);
    proj; cbn [Nat.add]; intros h Hh Hc;
    repeat (apply elem_of_cons in Hh as [->|Hh];
            [rewrite Hc; cbn [negb]; rewrite !elem_of_app, !elem_of_cons; tauto|]);
    by apply elem_of_nil in Hh.
Qed.

Lemma targetsReported_setupRenderTarget (rhi : QRhi) (l2l : list Z) (i : nat)
    (l : QSSGShaderLight) :
  keeps (fun st st' => targetsReported rhi st -> targetsReported rhi st')
    (setupRenderTarget rhi l2l i l).
Proof.
  intros st [] st' Hrun Hrep.
  pose proof (appended_setupRenderTarget rhi l2l i l st tt st' Hrun) as [new Hm].
  unfold setupRenderTarget in Hrun.
  destruct (shadows l); cbn [negb] in Hrun; [|by injection Hrun as <-].
  assert (Hold : forall e h, e ∈ m_shadowMapList st -> Some h ∈ m_rhiRenderTargets e ->
            createSucceeds rhi h = false -> FailedRenderTarget ∈ messages st').
  { intros e h He Hh Hc. rewrite Hm. apply elem_of_app. left. by apply (Hrep e h). }
  destruct (mapModeOf l).
  - destruct (addDirectionalShadowMap_inv _ _ _ _ _ _ _ Hrun) as [Hnone [tex Htex]].
    destruct (addDirectionalShadowMap_spec rhi (Z.of_nat i)
                (QSize_of (shadowMapRes l) (shadowMapRes l)) (layerIndexOf l2l i)
                (debugObjectName (light l)) st tex Hnone Htex)
      as (st1 & Hrun1 & Hl1 & _).
    destruct (addDirectionalShadowMap_warns rhi (Z.of_nat i)
                (QSize_of (shadowMapRes l) (shadowMapRes l)) (layerIndexOf l2l i)
                (debugObjectName (light l)) st tex Hnone Htex)
      as (st2 & Hrun2 & Hwarn).
    rewrite Hrun in Hrun1, Hrun2. injection Hrun1 as <-. injection Hrun2 as <-.
    intros e h. rewrite Hl1, elem_of_app, list_elem_of_singleton.
    intros [He| ->]; [by apply Hold|].
    cbn [vsmEntry m_rhiRenderTargets]. rewrite !elem_of_cons, elem_of_nil.
    intros [[= ->]|Hh]; [by apply Hwarn|]. exfalso.
    repeat (destruct Hh as [Hh|Hh]; [done|]). done.
  - pose proof (addCubeShadowMap_inv _ _ _ _ _ _ Hrun) as Hnone.
    destruct (addCubeShadowMap_spec rhi (Z.of_nat i)
                (QSize_of (shadowMapRes l) (shadowMapRes l))
                (debugObjectName (light l)) st Hnone)
      as (st1 & Hrun1 & Hl1 & _).
    destruct (addCubeShadowMap_warns rhi (Z.of_nat i)
                (QSize_of (shadowMapRes l) (shadowMapRes l))
                (debugObjectName (light l)) st Hnone)
      as (st2 & Hrun2 & Hwarn).
    rewrite Hrun in Hrun1, Hrun2. injection Hrun1 as <-. injection Hrun2 as <-.
    intros e h. rewrite Hl1, elem_of_app, list_elem_of_singleton.
    intros [He| ->]; [by apply Hold|].
    cbn [cubeEntry m_rhiRenderTargets]. intros Hh. apply Hwarn.
    rewrite !elem_of_cons, elem_of_nil in Hh. rewrite !elem_of_cons, elem_of_nil.
    repeat (destruct Hh as [Hh|Hh]; [injection Hh as ->; tauto|]). done.
Qed.

(** X17. Along every sequence of reconcile and release calls of a
    fresh registry that end well, every main render target of a VSM
    entry and every face render target of a CUBE entry whose [create()]
    failed has its warning in the log. *)
Theorem failed_targets_are_reported (rhi : QRhi) (calls : list Call)
    (sts : list State) :
  runCalls rhi calls initial = Ok sts ->
  Forall (targetsReported rhi) sts.
Proof.
  intros Hrun.
  apply (proj1 (inv_runCalls rhi (targetsReported rhi)
                  ltac:(intros st _ e h He; by apply elem_of_nil in He)
                  ltac:(intros i c st st' Hi Hc Hfresh Hstep;
                        destruct (createTextureArray_spec rhi i c st Hi Hc)
                          as (st1 & Hrun1 & Hl1 & _);
                        rewrite Hstep in Hrun1; injection Hrun1 as <-;
                        apply targetsReported_appended; [done|];
                        by apply (appended_createTextureArray rhi i c st tt st'))
                  (targetsReported_setupRenderTarget rhi)
                  calls initial sts
                  ltac:(intros e h He; by apply elem_of_nil in He) Hrun)).
Qed.

Lemma failed_targets_are_reported_witness :
  Forall (targetsReported small_rhi) example_run.
Proof.
  apply (failed_targets_are_reported small_rhi example_calls example_run).
  vm_compute. reflexivity.
Defined.

End ShadowMap.
